(** * Orders dashboard: the batch-grouped view and the API handlers

    A shallow embedding of the domain logic of the print-shop dashboard:
    - [View]: the React memo [groupedOrders] of [src/App.tsx], over the
      [Order] interface of the client;
    - [Api]: the Express handlers of the API file, over an explicit model of
      the rows reachable through the authenticated database client;
    - [Client]: the phone mask, the phone of the WhatsApp link and the
      header of [authFetch].

    JavaScript numbers are binary64 floats ([PrimFloat.float]); integer
    columns (row ids, counts) are kept in [Z]. *)

From Stdlib Require Import ZArith List String Ascii Bool Lia PrimFloat.
From Stdlib Require Import DecimalString DecimalZ DecimalPos.
From Stdlib Require Import Sorting.Sorted.
From stdpp Require Import gmap strings list fin_maps.

Open Scope Z_scope.
#[local] Set Warnings "-register-all".

(** ** JavaScript values *)

Abbreviation number := float.

(** [ToBoolean] on an optional string: [undefined], [null] and the empty
    string are falsy. *)
Definition truthy (v : option string) : bool :=
  match v with
  | Some s => negb (bool_decide (s = ""%string))
  | None => false
  end.

(** [ToBoolean] on a number: [0], [-0] and [NaN] are falsy. *)
Definition truthy_number (x : number) : bool :=
  negb (PrimFloat.eqb x 0%float || PrimFloat.is_nan x).

(** [x || 0] on numbers. *)
Definition or_zero (x : number) : number :=
  if truthy_number x then x else 0%float.

(** [xs.reduce((sum, x) => sum + x, 0)]. *)
Definition js_sum (xs : list number) : number :=
  fold_left PrimFloat.add xs 0%float.

(** ** The client: [groupedOrders] *)

Module View.

(** The [Order] interface of the client. [status] is a union of string
    literals in the interface; values arrive as JSON and are not checked at
    run time, so it is a string here. *)
Inductive Order : Type := mkOrder {
  id : Z;
  customer_id : Z;
  customer_name : string;
  customer_phone : string;
  service_type : string;
  description : string;
  quantity : number;
  unit_price : number;
  total_price : number;
  order_date : string;
  delivery_date : string;
  status : string;
  notes : option string;
  batch_id : option string;
  batch_items : option (list Order);
  images : option (list string);
  created_at : string;
}.

(** An element of the array returned by [groupedOrders]: an [Order], with
    the extra property [is_group] on the synthetic rows (absent, hence
    falsy, on the others). *)
Record Row : Type := mkRow {
  order : Order;
  is_group : bool;
}.

(** The names of the properties that every plain object inherits from
    [Object.prototype]. *)
Definition Object_prototype : list string :=
  ["constructor"; "hasOwnProperty"; "isPrototypeOf"; "propertyIsEnumerable";
   "toLocaleString"; "toString"; "valueOf"; "__proto__";
   "__defineGetter__"; "__defineSetter__"; "__lookupGetter__";
   "__lookupSetter__"]%string.

(** An own property of [groups]: its name and its array of orders. *)
Definition Entry : Type := string * list Order.

(** [groups : Record<string, Order[]>], a plain object ([{}]): its own
    properties, in creation order. *)
Definition Groups : Type := list Entry.

(** The names of the own properties of [groups]. *)
Definition keys (g : Groups) : list string := fst <$> g.

(** On own properties: [groups[b] = []] when [b] is none yet, then
    [groups[b].push(order)]. *)
Fixpoint store (b : string) (o : Order) (groups : Groups) : Groups :=
  match groups with
  | [] => [(b, [o])]
  | (k, items) :: rest =>
      if decide (k = b) then (k, items ++ [o]) :: rest
      else (k, items) :: store b o rest
  end.

(** [if (!groups[b]) groups[b] = []; groups[b].push(order)]. The read
    [groups[b]] goes up the prototype chain: for a name of
    [Object.prototype] it finds the inherited value (a function, or the
    prototype itself for [__proto__]), which is truthy, so that nothing is
    assigned and the name never becomes an own property; the value has no
    [push], and the call throws a TypeError ([None]). *)
Definition push (b : string) (o : Order) (groups : Groups) : option Groups :=
  if bool_decide (b ∈ Object_prototype) then None else Some (store b o groups).

(** The grouping key the loop branches on, [if (order.batch_id)]: the batch
    id when it is truthy. *)
Definition batch_key (o : Order) : option string :=
  if truthy (batch_id o) then batch_id o else None.

(** The body of [orders.forEach]. *)
Definition visit (acc : Groups * list Order) (o : Order)
  : option (Groups * list Order) :=
  match batch_key o with
  | Some b =>
      match push b o (fst acc) with
      | Some groups => Some (groups, snd acc)
      | None => None
      end
  | None => Some (fst acc, snd acc ++ [o])
  end.

(** [orders.forEach(...)] from the empty [groups] and [singleOrders]:
    [None] when a turn throws. *)
Definition partition_orders (orders : list Order)
  : option (Groups * list Order) :=
  fold_left (λ acc o, match acc with Some a => visit a o | None => None end)
    orders (Some ([], [])).

(** The array index a property name stands for: the canonical decimal text
    of an integer below [2^32 - 1]. *)
Definition array_index (k : string) : option N :=
  match NilZero.uint_of_string k with
  | Some d =>
      let n := N.of_uint d in
      if bool_decide (NilZero.string_of_uint (N.to_uint n) = k)
         && (n <? 4294967295)%N
      then Some n else None
  | None => None
  end.

Fixpoint insert_index (e : N * Entry) (l : list (N * Entry)) : list (N * Entry) :=
  match l with
  | [] => [e]
  | e' :: l' => if (fst e <? fst e')%N then e :: l else e' :: insert_index e l'
  end.

(** [Object.entries(groups)]: the properties named by an array index
    first, in ascending order of index, then the others in creation
    order. *)
Definition entries (g : list Entry) : list Entry :=
  (snd <$> foldr insert_index []
             (omap (λ e : Entry, (λ n, (n, e)) <$> array_index (fst e)) g))
  ++ filter (λ e : Entry, array_index (fst e) = None) g.

(** The callback of [Object.entries(groups).map]. [items[0]] exists for every
    entry the loop creates; an entry without items yields no row here. *)
Definition processGroup (entry : Entry) : option Row :=
  match snd entry with
  | first :: _ =>
      Some {| order := {|
                id := id first;
                customer_id := customer_id first;
                customer_name := customer_name first;
                customer_phone := customer_phone first;
                service_type := "DIVERSOS";
                description := description first;
                quantity := quantity first;
                unit_price := unit_price first;
                total_price := js_sum (total_price <$> snd entry);
                order_date := order_date first;
                delivery_date := delivery_date first;
                status := status first;
                notes := notes first;
                batch_id := batch_id first;
                batch_items := Some (snd entry);
                images := images first;
                created_at := created_at first |};
              is_group := true |}
  | [] => None
  end.

Definition single (o : Order) : Row := {| order := o; is_group := false |}.

Definition processedGroups (groups : Groups) : list Row :=
  omap processGroup (entries groups).

Section Sorting.

(** [new Date(s).getTime()]: the time value of a date string, [NaN] when
    the string does not parse. *)
Variable getTime : string -> number.

(** The comparator [(a, b) => getTime(b.order_date) - getTime(a.order_date)]. *)
Definition compareRows (a b : Row) : number :=
  PrimFloat.sub (getTime (order_date (order b))) (getTime (order_date (order a))).

(** [Array.prototype.sort] is stable: a comparator result that is not
    negative never moves [y] in front of [x]. Where a date does not parse
    the comparator answers [NaN] and is not consistent; the order is then
    the engine's choice, of which this is one (the rows are the same). *)
Fixpoint insert_sorted (x : Row) (l : list Row) : list Row :=
  match l with
  | [] => [x]
  | y :: l' =>
      if PrimFloat.ltb (compareRows y x) 0%float then y :: insert_sorted x l'
      else x :: y :: l'
  end.

Definition sort (l : list Row) : list Row := foldr insert_sorted [] l.

(** The memo: [None] when the loop throws. *)
Definition groupedOrders (orders : list Order) : option (list Row) :=
  match partition_orders orders with
  | Some (groups, singleOrders) =>
      Some (sort ((single <$> singleOrders) ++ processedGroups groups))
  | None => None
  end.

End Sorting.

(** *** Vocabulary of the statements, in the words of the specification *)

(** The members of batch [b]: the orders whose batch id is [b], in input
    order. *)
Definition members (b : string) (orders : list Order) : list Order :=
  filter (λ o, batch_id o = Some b) orders.

(** The orders with no batch id ([null], or the empty text), in input
    order. *)
Definition unbatched (orders : list Order) : list Order :=
  filter (λ o, batch_id o = None ∨ batch_id o = Some ""%string) orders.

(** The distinct batch ids of the input, the empty text apart. *)
Definition batch_ids (orders : list Order) : gset string :=
  list_to_set (omap batch_id orders) ∖ {[ ""%string ]}.

(** The invariant of the [forEach] loop: after the orders [l], [g] has one
    entry per batch id of [l], holding the members of that batch. *)
Record grouped (l : list Order) (g : Groups) : Prop := {
  grouped_nodup : NoDup (keys g);
  grouped_keys : ∀ k, k ∈ keys g ↔ k ≠ ""%string ∧ members k l ≠ [];
  grouped_items : ∀ k items, (k, items) ∈ g → items = members k l;
}.

(** The synthetic row of batch [b]: marked as a group, of service type
    DIVERSOS, carrying the members of the batch, its total price their
    total prices added one after the other from 0. *)
Definition group_row_of (orders : list Order) (b : string) (row : Row) : Prop :=
  is_group row = true ∧
  service_type (order row) = "DIVERSOS"%string ∧
  batch_items (order row) = Some (members b orders) ∧
  total_price (order row) =
    fold_left (λ sum item, PrimFloat.add sum (total_price item))
      (members b orders) 0%float.

(** Two items of one purchase: 2 at 10.00 and 1 at 5.00. *)
Module Sample.

Definition item (id : Z) (service : string) (quantity unit_price : number)
  : Order :=
  {| id := id; customer_id := 1; customer_name := "Ana";
     customer_phone := "11999990000"; service_type := service;
     description := ""; quantity := quantity; unit_price := unit_price;
     total_price := PrimFloat.mul quantity unit_price;
     order_date := "2024-03-10"; delivery_date := "2024-03-20";
     status := "Orçamento"; notes := None;
     batch_id := Some "batch_1710504000000_4fzyo82mv";
     batch_items := None; images := None;
     created_at := "2024-03-10T12:00:00Z" |}.

Definition two_items : list Order :=
  [item 1 "Banner" 2 10; item 2 "Adesivo" 1 5].

(** An order like [item id], with another batch id. *)
Definition with_batch_id (b : option string) (id : Z) : Order :=
  {| id := id; customer_id := 1; customer_name := "Ana";
     customer_phone := "11999990000"; service_type := "Banner";
     description := ""; quantity := 1; unit_price := 10;
     total_price := 10;
     order_date := "2024-03-10"; delivery_date := "2024-03-20";
     status := "Orçamento"; notes := None;
     batch_id := b;
     batch_items := None; images := None;
     created_at := "2024-03-10T12:00:00Z" |}.

(** Two orders whose batch id is the empty text. *)
Definition blank : list Order :=
  [with_batch_id (Some "") 1; with_batch_id (Some "") 2].

(** Two orders of a batch called [constructor]. *)
Definition inherited : list Order :=
  [with_batch_id (Some "constructor") 1; with_batch_id (Some "constructor") 2].

End Sample.

End View.

(** ** The server: the Express handlers *)

Module Api.

(** *** JSON bodies and responses *)

Inductive Json : Type :=
  | JNull
  | JBool (b : bool)
  | JInt (n : Z)
  | JNum (x : number)
  | JStr (s : string)
  | JArr (items : list Json)
  | JObj (fields : list (string * Json)).

(** [JSON.stringify] of an optional string column: [null] when absent. *)
Definition JOpt (v : option string) : Json :=
  match v with Some s => JStr s | None => JNull end.

(** The value of property [k] of a JSON object, when it has one. *)
Definition field (k : string) (j : Json) : option Json :=
  match j with
  | JObj fields => snd <$> find (λ kv, bool_decide (fst kv = k)) fields
  | _ => None
  end.

Record Response : Type := mkResponse {
  status_code : Z;
  body : Json;
}.

(** [res.json(v)] answers with status 200; [res.status(c).json(v)] with [c]. *)
Definition json (v : Json) : Response := {| status_code := 200; body := v |}.
Definition status_json (c : Z) (v : Json) : Response :=
  {| status_code := c; body := v |}.
Definition error_body (message : string) : Json := JObj [("error"%string, JStr message)].
Definition success : Response := json (JObj [("success"%string, JBool true)]).

(** *** Rows

    The columns are those the handlers read or write; the schema itself is
    not part of the repository. The primary key [id] is the key of the
    table. *)

Module Customer.
Record t : Type := mk {
  name : string;
  phone : string;
  email : option string;
  company : option string;
  user_id : string;
}.
End Customer.

Module Order.
Record t : Type := mk {
  customer_id : Z;
  service_type : string;
  description : string;
  quantity : number;
  unit_price : number;
  total_price : number;
  order_date : string;
  delivery_date : string;
  status : string;
  notes : option string;
  batch_id : option string;
  user_id : string;
}.

(** [update({ status })] on one row. *)
Definition set_status (s : string) (o : t) : t :=
  {| customer_id := customer_id o; service_type := service_type o;
     description := description o; quantity := quantity o;
     unit_price := unit_price o; total_price := total_price o;
     order_date := order_date o; delivery_date := delivery_date o;
     status := s; notes := notes o; batch_id := batch_id o;
     user_id := user_id o |}.
End Order.

Module Image.
Record t : Type := mk {
  order_id : Z;
  image_data : string;
}.
End Image.

(** *** The database, as the request's authenticated client reaches it

    Which rows that is, is decided by the row-level policies of the database,
    outside the repository. Every call of the client may fail: [faults]
    gives, for the calls still to come, the error message of those that fail
    (a call beyond the end of the list succeeds); a failed call changes no
    row. [calls] counts the calls made. *)
Record World : Type := mkWorld {
  customers : gmap Z Customer.t;
  orders : gmap Z Order.t;
  order_images : gmap Z Image.t;
  faults : list (option string);
  calls : nat;
}.

Record Tables : Type := mkTables {
  t_customers : gmap Z Customer.t;
  t_orders : gmap Z Order.t;
  t_order_images : gmap Z Image.t;
}.

Definition tables (w : World) : Tables :=
  {| t_customers := customers w; t_orders := orders w;
     t_order_images := order_images w |}.

(** No call still to come fails. *)
Definition reliable (w : World) : Prop := Forall (λ f, f = None) (faults w).

(** The [{ data, error }] a call of the client resolves to. *)
Inductive Result (A : Type) : Type :=
  | Ok (data : A)
  | Err (message : string).
Arguments Ok {A} data.
Arguments Err {A} message.

Definition data {A} (r : Result A) : option A :=
  match r with Ok d => Some d | Err _ => None end.

(** Handlers run in a state monad over the world. *)
Definition M (A : Type) : Type := World → A * World.

Definition ret {A} (a : A) : M A := λ w, (a, w).

Definition bind {A B} (m : M A) (k : A → M B) : M B :=
  λ w, let (a, w') := m w in k a w'.

Notation "'let!' x ':=' m 'in' k" := (bind m (λ x, k))
  (at level 10, x pattern, m at level 100, k at level 200).

(** The error message of the next call, when it is going to fail. *)
Definition next_fault (w : World) : option string :=
  match faults w with
  | Some message :: _ => Some message
  | _ => None
  end.

(** The world after one more call that leaves the tables as [t]. *)
Definition advance (w : World) (t : Tables) : World :=
  {| customers := t_customers t; orders := t_orders t;
     order_images := t_order_images t;
     faults := tail (faults w); calls := S (calls w) |}.

(** One call of the database client: [run] is what it does to the tables
    when it goes through. *)
Definition call {A} (run : Tables → Result A * Tables) : M (Result A) :=
  λ w,
    match next_fault w with
    | Some message => (Err message, advance w (tables w))
    | None => let (r, t) := run (tables w) in (r, advance w t)
    end.

(** A query that only reads. *)
Definition query {A} (read : Tables → Result A) : M (Result A) :=
  call (λ t, (read t, t)).

(** [.single()]: exactly one row, or an error. *)
Definition single {A} (rows : list A) : Result A :=
  match rows with
  | [row] => Ok row
  | _ => Err "JSON object requested, multiple (or no) rows returned"
  end.

(** [.maybeSingle()]: no row is [null] without error. *)
Definition maybeSingle {A} (rows : list A) : Result (option A) :=
  match rows with
  | [] => Ok None
  | [row] => Ok (Some row)
  | _ => Err "JSON object requested, multiple (or no) rows returned"
  end.

(** The rows of a table that satisfy a filter, with their ids. *)
Definition select {A} (P : Z → A → bool) (table : gmap Z A) : list (Z * A) :=
  map_to_list (filter (λ kv, P kv.1 kv.2 = true) table).

(** The id the database gives to the next row of a table. *)
Definition next_id {A} (table : gmap Z A) : Z :=
  1 + map_fold (λ k _ top, Z.max k top) 0 table.

(** [.order(column)]: a stable insertion sort. *)
Fixpoint insert_by {A} (le : A → A → bool) (x : A) (l : list A) : list A :=
  match l with
  | [] => [x]
  | y :: l' => if le x y then x :: l else y :: insert_by le x l'
  end.

Definition order_by {A} (le : A → A → bool) (l : list A) : list A :=
  foldr (insert_by le) [] l.

(** *** Dates

    A [Date] is its time value: milliseconds since the epoch, in UTC. The
    calendar is the proleptic Gregorian one of ECMAScript. The local time
    zone is a fixed offset (minutes east of UTC); daylight-saving changes
    are not modelled. *)

Definition msPerDay : Z := 86400000.
Definition msPerMinute : Z := 60000.

(** Day number of a civil date; [m] is 1-based. *)
Definition days_from_civil (y m d : Z) : Z :=
  let y' := if m <=? 2 then y - 1 else y in
  let era := y' / 400 in
  let yoe := y' - era * 400 in
  let mp := (m + 9) mod 12 in
  let doy := (153 * mp + 2) / 5 + d - 1 in
  let doe := yoe * 365 + yoe / 4 - yoe / 100 + doy in
  era * 146097 + doe - 719468.

(** Civil date (year, 1-based month, day of month) of a day number. *)
Definition civil_from_days (z : Z) : Z * Z * Z :=
  let z' := z + 719468 in
  let era := z' / 146097 in
  let doe := z' - era * 146097 in
  let yoe := (doe - doe / 1460 + doe / 36524 - doe / 146096) / 365 in
  let doy := doe - (365 * yoe + yoe / 4 - yoe / 100) in
  let mp := (5 * doy + 2) / 153 in
  let d := doy - (153 * mp + 2) / 5 + 1 in
  let m := if mp <? 10 then mp + 3 else mp - 9 in
  let y := yoe + era * 400 in
  (if m <=? 2 then y + 1 else y, m, d).

(** [MakeDay(year, month, date)] with a 0-based month that may lie outside
    0..11 and a date that may lie outside the month. *)
Definition MakeDay (year month date : Z) : Z :=
  days_from_civil (year + month / 12) (month mod 12 + 1) 1 + date - 1.

(** The decimal digits of [n >= 0]. *)
Definition decimal (n : Z) : string :=
  NilZero.string_of_uint (N.to_uint (Z.to_N n)).

(** Decimal digits of [n >= 0], padded with zeros on the left to [width]. *)
Definition pad (width : nat) (n : Z) : string :=
  let digits := decimal n in
  (String.concat "" (repeat "0" (width - String.length digits)) +:+ digits)%string.

(** [Date.prototype.toISOString]. *)
Definition toISOString (t : Z) : string :=
  let '(y, m, d) := civil_from_days (t / msPerDay) in
  let ms := t mod msPerDay in
  let year :=
    if ((0 <=? y) && (y <=? 9999))%Z then pad 4 y
    else ((if (y <? 0)%Z then "-" else "+") +:+ pad 6 (Z.abs y))%string in
  (year +:+ "-" +:+ pad 2 m +:+ "-" +:+ pad 2 d +:+ "T" +:+
   pad 2 (ms / 3600000)%Z +:+ ":" +:+ pad 2 (ms / 60000 mod 60)%Z +:+ ":" +:+
   pad 2 (ms / 1000 mod 60)%Z +:+ "." +:+ pad 3 (ms mod 1000)%Z +:+ "Z")%string.

(** [s.slice(0, n)]. *)
Definition slice0 (n : nat) (s : string) : string := substring 0 n s.

Section LocalTime.

(** Minutes east of UTC of the server's time zone. *)
Variable timezone : Z.

Definition LocalTime (t : Z) : Z := t + timezone * msPerMinute.
Definition UTC (local : Z) : Z := local - timezone * msPerMinute.

Definition getFullYear (t : Z) : Z :=
  (civil_from_days (LocalTime t / msPerDay)).1.1.

(** 0-based. *)
Definition getMonth (t : Z) : Z :=
  (civil_from_days (LocalTime t / msPerDay)).1.2 - 1.

Definition getDate (t : Z) : Z :=
  (civil_from_days (LocalTime t / msPerDay)).2.

(** [new Date(year, month, date)]: local midnight of that day. A year in
    0..99 stands for 1900 + year. *)
Definition newDate (year month date : Z) : Z :=
  let yr := if (0 <=? year) && (year <=? 99) then 1900 + year else year in
  UTC (MakeDay yr month date * msPerDay).

(** [d.setMonth(month)]: same local year, day of month and time of day. *)
Definition setMonth (t month : Z) : Z :=
  UTC (MakeDay (getFullYear t) month (getDate t) * msPerDay
       + LocalTime t mod msPerDay).

End LocalTime.

(** [d.toLocaleString('pt-BR', { month: 'short' })], by 0-based month. *)
Definition shortMonth (month : Z) : string :=
  nth (Z.to_nat month)
    ["jan."; "fev."; "mar."; "abr."; "mai."; "jun.";
     "jul."; "ago."; "set."; "out."; "nov."; "dez."]%string ""%string.

(** *** Requests *)

(** The user the identity provider knows a token for ([user.id]). *)
Record User : Type := mkUser { uid : string }.

(** What a request depends on besides the rows: the identity provider
    ([auth.getUser()] for a bearer token), the clock, the server's time zone,
    [Math.random().toString(36)], and the collation of the database, the
    order it sorts texts in ([collate a b] when [a] sorts no later than
    [b]). One request reads one instant. *)
Record Env : Type := mkEnv {
  getUser : string → option User;
  now : Z;
  tz : Z;
  random : string;
  collate : string → string → bool;
}.

Module CustomerBody.
Record t : Type := mk {
  name : string;
  phone : string;
  email : option string;
  company : option string;
}.
End CustomerBody.

Module OrderBody.
Record t : Type := mk {
  customer_id : Z;
  service_type : string;
  description : string;
  quantity : number;
  unit_price : number;
  total_price : number;
  order_date : string;
  delivery_date : string;
  status : string;
  notes : option string;
  images : option (list string);
}.
End OrderBody.

(** Bodies are the JSON the client sends, with the fields at their types;
    the [:id] of a path is a row id.

    The body of [POST /api/orders]: one order or an array of orders. *)
Inductive OrdersBody : Type :=
  | One (data : OrderBody.t)
  | Many (items : list OrderBody.t).

Inductive Route : Type :=
  | GET_customers
  | POST_customers (body : CustomerBody.t)
  | DELETE_customer (id : Z)
  | GET_orders
  | GET_order (id : Z)
  | POST_orders (body : OrdersBody)
  | PATCH_order_status (id : Z) (status : string)
  | DELETE_order (id : Z)
  | GET_stats
  | GET_billing_trends
  | GET_billing_distribution.

Record Request : Type := mkRequest {
  authorization : option string;
  route : Route;
}.

(** [s.replace(pattern, '')]: the first occurrence of [pattern] removed. *)
Fixpoint remove_first (pattern s : string) : string :=
  if String.prefix pattern s
  then substring (String.length pattern) (String.length s) s
  else match s with
       | EmptyString => EmptyString
       | String c s' => String c (remove_first pattern s')
       end.

Definition getAuthClient (env : Env) (req : Request) : option User :=
  match authorization req with
  | None => None
  | Some header =>
      let token := remove_first "Bearer " header in
      if truthy (Some token) then getUser env token else None
  end.

Definition unauthorized : Response :=
  status_json 401 (error_body "Não autorizado").

(** *** Customers *)

Definition customer_json (row : Z * Customer.t) : Json :=
  JObj [("id", JInt row.1);
        ("name", JStr (Customer.name row.2));
        ("phone", JStr (Customer.phone row.2));
        ("email", JOpt (Customer.email row.2));
        ("company", JOpt (Customer.company row.2));
        ("user_id", JStr (Customer.user_id row.2))]%string.

Definition get_customers (env : Env) (req : Request) : M Response :=
  match getAuthClient env req with
  | None => ret unauthorized
  | Some auth =>
      let! r := query (λ t,
        Ok (order_by (λ a b, collate env (Customer.name a.2) (Customer.name b.2))
              (map_to_list (t_customers t)))) in
      match r with
      | Err message => ret (status_json 500 (error_body message))
      | Ok rows => ret (json (JArr (customer_json <$> rows)))
      end
  end.

Definition same_name_phone (name phone : string) (c : Customer.t) : bool :=
  bool_decide (Customer.name c = name) && bool_decide (Customer.phone c = phone).

Definition insert_customer (c : Customer.t) (t : Tables) : Result Z * Tables :=
  let id := next_id (t_customers t) in
  (Ok id, {| t_customers := <[id := c]> (t_customers t);
             t_orders := t_orders t;
             t_order_images := t_order_images t |}).

Definition post_customers (body : CustomerBody.t) (env : Env) (req : Request)
  : M Response :=
  match getAuthClient env req with
  | None => ret unauthorized
  | Some auth =>
      let! existing := query (λ t,
        maybeSingle (fst <$> select (λ _ c,
          same_name_phone (CustomerBody.name body) (CustomerBody.phone body) c)
          (t_customers t))) in
      match data existing with
      | Some (Some _) =>
          ret (status_json 400
                 (error_body "Cliente já cadastrado com este nome e telefone."))
      | _ =>
          let! r := call (insert_customer
            {| Customer.name := CustomerBody.name body;
               Customer.phone := CustomerBody.phone body;
               Customer.email := CustomerBody.email body;
               Customer.company := CustomerBody.company body;
               Customer.user_id := uid auth |}) in
          match r with
          | Err message => ret (status_json 500 (error_body message))
          | Ok id => ret (json (JObj [("id"%string, JInt id)]))
          end
      end
  end.

Definition delete_customer (id : Z) (env : Env) (req : Request) : M Response :=
  match getAuthClient env req with
  | None => ret unauthorized
  | Some auth =>
      let! r := call (λ t,
        (Ok (), {| t_customers := delete id (t_customers t);
                   t_orders := t_orders t;
                   t_order_images := t_order_images t |})) in
      match r with
      | Err message => ret (status_json 500 (error_body message))
      | Ok _ => ret success
      end
  end.

(** *** Orders *)

Definition order_columns (row : Z * Order.t) : list (string * Json) :=
  [("id", JInt row.1);
   ("customer_id", JInt (Order.customer_id row.2));
   ("service_type", JStr (Order.service_type row.2));
   ("description", JStr (Order.description row.2));
   ("quantity", JNum (Order.quantity row.2));
   ("unit_price", JNum (Order.unit_price row.2));
   ("total_price", JNum (Order.total_price row.2));
   ("order_date", JStr (Order.order_date row.2));
   ("delivery_date", JStr (Order.delivery_date row.2));
   ("status", JStr (Order.status row.2));
   ("notes", JOpt (Order.notes row.2));
   ("batch_id", JOpt (Order.batch_id row.2));
   ("user_id", JStr (Order.user_id row.2))]%string.

(** The embedded [customers(name, phone)] of an order row. *)
Definition customer_of (t : Tables) (o : Order.t) : option Customer.t :=
  t_customers t !! Order.customer_id o.

Definition customers_json (c : option Customer.t) : Json :=
  match c with
  | Some c => JObj [("name", JStr (Customer.name c));
                    ("phone", JStr (Customer.phone c))]%string
  | None => JNull
  end.

(** [customer_name: o.customers?.name, customer_phone: o.customers?.phone]:
    [undefined] properties do not reach the JSON text. *)
Definition customer_name_phone (c : option Customer.t) : list (string * Json) :=
  match c with
  | Some c => [("customer_name", JStr (Customer.name c));
               ("customer_phone", JStr (Customer.phone c))]%string
  | None => []
  end.

Definition get_orders (env : Env) (req : Request) : M Response :=
  match getAuthClient env req with
  | None => ret unauthorized
  | Some auth =>
      let! r := query (λ t,
        Ok ((λ row, (row, customer_of t row.2)) <$>
            order_by (λ a b : Z * Order.t,
                        String.leb (Order.order_date b.2) (Order.order_date a.2))
              (map_to_list (t_orders t)))) in
      match r with
      | Err message => ret (status_json 500 (error_body message))
      | Ok rows =>
          ret (json (JArr ((λ o : Z * Order.t * option Customer.t,
            JObj (order_columns o.1 ++ [("customers"%string, customers_json o.2)]
                  ++ customer_name_phone o.2)) <$> rows)))
      end
  end.

Definition images_of (t : Tables) (id : Z) : list string :=
  (λ row : Z * Image.t, Image.image_data row.2) <$>
  select (λ _ img, bool_decide (Image.order_id img = id)) (t_order_images t).

Definition has_batch_id (b : string) (o : Order.t) : bool :=
  bool_decide (Order.batch_id o = Some b).

Definition get_order (id : Z) (env : Env) (req : Request) : M Response :=
  match getAuthClient env req with
  | None => ret unauthorized
  | Some auth =>
      let! r := query (λ t,
        single ((λ row : Z * Order.t,
                   (row, customer_of t row.2, images_of t row.1)) <$>
                select (λ k _, bool_decide (k = id)) (t_orders t))) in
      match r with
      | Err _ => ret (status_json 404 (error_body "Pedido não encontrado"))
      | Ok (orderData, customer, images) =>
          let! batchItems :=
            match Order.batch_id orderData.2 with
            | Some b =>
                if truthy (Some b)
                then
                  let! batch := query (λ t,
                    Ok (select (λ _ o, has_batch_id b o) (t_orders t))) in
                  ret match batch with
                      | Ok rows => JArr ((λ row, JObj (order_columns row)) <$> rows)
                      | Err _ => JNull
                      end
                else ret JNull
            | None => ret JNull
            end in
          ret (json (JObj (
            order_columns orderData
            ++ [("customers", customers_json customer);
                ("order_images",
                 JArr ((λ img, JObj [("image_data", JStr img)]) <$> images))]
            ++ customer_name_phone customer
            ++ [("images", JArr (JStr <$> images));
                ("batch_items", batchItems)])))
      end
  end.

(** The decimal text of an integer, as a template literal prints it. *)
Definition integer_text (n : Z) : string :=
  NilZero.string_of_int (Z.to_int n).

(** [`batch_${Date.now()}_${Math.random().toString(36).substr(2, 9)}`]. *)
Definition new_batch_id (env : Env) : string :=
  ("batch_" +:+ integer_text (now env) +:+ "_"
   +:+ substring 2 9 (random env))%string.

Definition ordersData (body : OrdersBody) : list OrderBody.t :=
  match body with
  | Many items => items
  | One data => [data]
  end.

Definition batchId (env : Env) (body : OrdersBody) : option string :=
  if (1 <? length (ordersData body))%nat then Some (new_batch_id env) else None.

Definition order_row (data : OrderBody.t) (batch : option string) (auth : User)
  : Order.t :=
  {| Order.customer_id := OrderBody.customer_id data;
     Order.service_type := OrderBody.service_type data;
     Order.description := OrderBody.description data;
     Order.quantity := OrderBody.quantity data;
     Order.unit_price := OrderBody.unit_price data;
     Order.total_price := OrderBody.total_price data;
     Order.order_date := OrderBody.order_date data;
     Order.delivery_date := OrderBody.delivery_date data;
     Order.status := OrderBody.status data;
     Order.notes := OrderBody.notes data;
     Order.batch_id := batch;
     Order.user_id := uid auth |}.

Definition insert_order (o : Order.t) (t : Tables) : Result Z * Tables :=
  let id := next_id (t_orders t) in
  (Ok id, {| t_customers := t_customers t;
             t_orders := <[id := o]> (t_orders t);
             t_order_images := t_order_images t |}).

(** One [insert] call with several rows. *)
Definition insert_images (rows : list Image.t) (t : Tables) : Result () * Tables :=
  (Ok (), {| t_customers := t_customers t;
             t_orders := t_orders t;
             t_order_images :=
               fold_left (λ table img, <[next_id table := img]> table)
                 rows (t_order_images t) |}).

(** [if (images && Array.isArray(images) && images.length > 0)]: one more
    call, whose result is not looked at. *)
Definition insert_order_images (orderId : Z) (images : option (list string))
  : M () :=
  match images with
  | Some (img :: imgs) =>
      let! _ := call (insert_images
        ((λ img, {| Image.order_id := orderId; Image.image_data := img |})
           <$> (img :: imgs))) in
      ret ()
  | _ => ret ()
  end.

(** The [for] loop of [POST /api/orders], inside [try]: [None] when
    [orderError] is thrown, otherwise the ids collected. *)
Fixpoint insert_orders (auth : User) (batch : option string)
    (items : list OrderBody.t) (orderIds : list Z) : M (option (list Z)) :=
  match items with
  | [] => ret (Some orderIds)
  | data :: rest =>
      let! r := call (insert_order (order_row data batch auth)) in
      match r with
      | Err _ => ret None
      | Ok orderId =>
          let! _ := insert_order_images orderId (OrderBody.images data) in
          insert_orders auth batch rest (orderIds ++ [orderId])
      end
  end.

Definition post_orders (body : OrdersBody) (env : Env) (req : Request)
  : M Response :=
  match getAuthClient env req with
  | None => ret unauthorized
  | Some auth =>
      let! ids := insert_orders auth (batchId env body) (ordersData body) [] in
      match ids with
      | Some orderIds => ret (json (JObj [("ids"%string, JArr (JInt <$> orderIds))]))
      | None => ret (status_json 500 (error_body "Erro ao salvar pedidos."))
      end
  end.

(** [.select('batch_id').eq('id', id).single()]. *)
Definition select_batch_id (id : Z) : M (Result (option string)) :=
  query (λ t,
    single ((λ row : Z * Order.t, Order.batch_id row.2) <$>
            select (λ k _, bool_decide (k = id)) (t_orders t))).

Definition update_orders (P : Z → Order.t → bool) (s : string) (t : Tables)
  : Result () * Tables :=
  (Ok (), {| t_customers := t_customers t;
             t_orders := map_imap (λ k o, Some (if P k o then Order.set_status s o else o))
                           (t_orders t);
             t_order_images := t_order_images t |}).

Definition delete_orders (P : Z → Order.t → bool) (t : Tables)
  : Result () * Tables :=
  (Ok (), {| t_customers := t_customers t;
             t_orders := filter (λ kv, P kv.1 kv.2 = false) (t_orders t);
             t_order_images := t_order_images t |}).

(** [order?.batch_id], when it is truthy. *)
Definition batch_of (order : Result (option string)) : option string :=
  match data order with
  | Some (Some b) => if truthy (Some b) then Some b else None
  | _ => None
  end.

Definition patch_order_status (id : Z) (status : string) (env : Env) (req : Request)
  : M Response :=
  match getAuthClient env req with
  | None => ret unauthorized
  | Some auth =>
      let! order := select_batch_id id in
      let! _ :=
        match batch_of order with
        | Some b => call (update_orders (λ _ o, has_batch_id b o) status)
        | None => call (update_orders (λ k _, bool_decide (k = id)) status)
        end in
      ret success
  end.

Definition delete_order (id : Z) (env : Env) (req : Request) : M Response :=
  match getAuthClient env req with
  | None => ret unauthorized
  | Some auth =>
      let! order := select_batch_id id in
      let! _ :=
        match batch_of order with
        | Some b => call (delete_orders (λ _ o, has_batch_id b o))
        | None => call (delete_orders (λ k _, bool_decide (k = id)))
        end in
      ret success
  end.

(** *** Statistics *)

(** [.select('*', { count: 'exact', head: true })] with a filter on orders. *)
Definition count_orders (P : Order.t → bool) : M (Result Z) :=
  query (λ t, Ok (Z.of_nat (length (select (λ _ o, P o) (t_orders t))))).

Definition count_customers : M (Result Z) :=
  query (λ t, Ok (Z.of_nat (length (map_to_list (t_customers t))))).

(** A [count] in a JSON body: [null] when the call failed. *)
Definition count_json (r : Result Z) : Json :=
  match r with Ok n => JInt n | Err _ => JNull end.

Definition status_in (statuses : list string) (o : Order.t) : bool :=
  bool_decide (Order.status o ∈ statuses).

(** [parseFloat] of a number: its decimal text read back, which gives the
    number itself, and [0] for [-0]. *)
Definition parseFloat (x : number) : number :=
  if PrimFloat.eqb x 0%float then 0%float else x.

(** [.gte('order_date', from).lte('order_date', to)]: dates in ISO form
    compare as their texts do. *)
Definition dated_between (from to : string) (o : Order.t) : bool :=
  String.leb from (Order.order_date o) && String.leb (Order.order_date o) to.

(** [.select('total_price')] over a range of order dates. *)
Definition select_total_price (from to : string) : M (Result (list number)) :=
  query (λ t,
    Ok ((λ row : Z * Order.t, Order.total_price row.2) <$>
        select (λ _ o, dated_between from to o) (t_orders t))).

(** [data?.reduce((sum, o) => sum + parseFloat(o.total_price), 0) || 0]. *)
Definition revenue (r : Result (list number)) : number :=
  match r with
  | Ok prices => or_zero (fold_left (λ sum p, PrimFloat.add sum (parseFloat p)) prices 0%float)
  | Err _ => 0%float
  end.

Definition currentMonth (env : Env) : string :=
  slice0 7 (toISOString (now env)).

Definition startOfMonth (env : Env) : string :=
  (currentMonth env +:+ "-01")%string.

Definition endOfMonth (env : Env) : string :=
  slice0 10 (toISOString
    (newDate (tz env) (getFullYear (tz env) (now env))
       (getMonth (tz env) (now env) + 1) 0)).

Definition get_stats (env : Env) (req : Request) : M Response :=
  match getAuthClient env req with
  | None => ret unauthorized
  | Some auth =>
      let! totalOrders := count_orders (λ _, true) in
      let! ongoingOrders := count_orders (status_in ["Orçamento"; "Em Produção"]) in
      let! totalCustomers := count_customers in
      let! pendingOrders := count_orders (status_in ["Orçamento"]) in
      let! revenueData := select_total_price (startOfMonth env) (endOfMonth env) in
      ret (json (JObj [("totalOrders", count_json totalOrders);
                       ("ongoingOrders", count_json ongoingOrders);
                       ("monthlyRevenue", JNum (revenue revenueData));
                       ("totalCustomers", count_json totalCustomers);
                       ("pendingOrders", count_json pendingOrders)]))
  end.

(** One turn of the loop of [GET /api/billing/trends], [i] months back. *)
Definition trend (env : Env) (i : Z) : M Json :=
  let d := setMonth (tz env) (now env) (getMonth (tz env) (now env) - i) in
  let year := getFullYear (tz env) d in
  let month := getMonth (tz env) d in
  let startDate := slice0 10 (toISOString (newDate (tz env) year month 1)) in
  let endDate := slice0 10 (toISOString (newDate (tz env) year (month + 1) 0)) in
  let monthName := shortMonth month in
  let! r := select_total_price startDate endDate in
  ret (JObj [("name", JStr monthName); ("revenue", JNum (revenue r))]).

Fixpoint trends (env : Env) (months : list Z) : M (list Json) :=
  match months with
  | [] => ret []
  | i :: rest =>
      let! t := trend env i in
      let! ts := trends env rest in
      ret (t :: ts)
  end.

Definition get_billing_trends (env : Env) (req : Request) : M Response :=
  match getAuthClient env req with
  | None => ret unauthorized
  | Some auth =>
      let! ts := trends env [5; 4; 3; 2; 1; 0] in
      ret (json (JArr ts))
  end.

(** [count || 0]. *)
Definition count_or_zero (r : Result Z) : Json :=
  match r with Ok n => JInt n | Err _ => JInt 0 end.

Definition get_billing_distribution (env : Env) (req : Request) : M Response :=
  match getAuthClient env req with
  | None => ret unauthorized
  | Some auth =>
      let! completed := count_orders (status_in ["Entregue"]) in
      let! pending :=
        count_orders (status_in ["Orçamento"; "Em Produção"; "Finalizado"]) in
      ret (json (JArr [
        JObj [("name", JStr "Finalizados"); ("value", count_or_zero completed);
              ("color", JStr "#3b82f6")];
        JObj [("name", JStr "Em Aberto"); ("value", count_or_zero pending);
              ("color", JStr "#10b981")]]))
  end.

(** *** The application: one handler per route *)

Definition app (env : Env) (req : Request) : M Response :=
  match route req with
  | GET_customers => get_customers env req
  | POST_customers body => post_customers body env req
  | DELETE_customer id => delete_customer id env req
  | GET_orders => get_orders env req
  | GET_order id => get_order id env req
  | POST_orders body => post_orders body env req
  | PATCH_order_status id status => patch_order_status id status env req
  | DELETE_order id => delete_order id env req
  | GET_stats => get_stats env req
  | GET_billing_trends => get_billing_trends env req
  | GET_billing_distribution => get_billing_distribution env req
  end.

(** *** Vocabulary of the statements *)

(** The request carries no bearer token, or one the identity provider does
    not know. *)
Definition unauthenticated (env : Env) (req : Request) : Prop :=
  match authorization req with
  | None => True
  | Some header =>
      remove_first "Bearer " header = ""
      ∨ getUser env (remove_first "Bearer " header) = None
  end.

(** The batch an order row belongs to: its batch id when it is truthy. *)
Definition batch_key (o : Order.t) : option string :=
  if truthy (Order.batch_id o) then Order.batch_id o else None.

(** Two worlds hold the same rows. *)
Definition same_rows (w w' : World) : Prop := tables w' = tables w.

(** Row [k] of the orders of [w'] was not there in [w]. *)
Definition created (w w' : World) (k : Z) (o : Order.t) : Prop :=
  orders w !! k = None ∧ orders w' !! k = Some o.

(** The customers with a given name and phone. *)
Definition namesakes (name phone : string) (table : gmap Z Customer.t)
  : gmap Z Customer.t :=
  filter (λ kv, same_name_phone name phone kv.2 = true) table.

(** The uniqueness invariant of the customers: no two rows with the same
    name and phone. *)
Definition unique_name_phone (table : gmap Z Customer.t) : Prop :=
  ∀ i j c c', table !! i = Some c → table !! j = Some c' →
    Customer.name c = Customer.name c' → Customer.phone c = Customer.phone c' →
    i = j.

(** The rows a status update or a delete of order [id] aims at: those of
    its batch when the order is found with a batch, the one of that id
    otherwise. *)
Definition aimed_at (w : World) (id : Z) : Z → Order.t → bool :=
  match orders w !! id ≫= batch_key with
  | Some b => λ _ o, has_batch_id b o
  | None => λ k _, bool_decide (k = id)
  end.

(** *** The example of March 2024 *)

Module March.

Definition order (date : string) (price : number) : Order.t :=
  {| Order.customer_id := 1; Order.service_type := "Banner";
     Order.description := "Lona 2x1"; Order.quantity := 1;
     Order.unit_price := price; Order.total_price := price;
     Order.order_date := date; Order.delivery_date := date;
     Order.status := "Orçamento"; Order.notes := None;
     Order.batch_id := None; Order.user_id := "user-1" |}.

(** Orders dated 2024-03-01 (100), 2024-03-31 (50) and 2024-02-28. *)
Definition world : World :=
  {| customers := ∅;
     orders := {[ 1 := order "2024-03-01" 100; 2 := order "2024-03-31" 50;
                  3 := order "2024-02-28" 70 ]};
     order_images := ∅; faults := []; calls := 0 |}.

Definition request : Request :=
  {| authorization := Some "Bearer token-1"; route := GET_stats |}.

Definition provider (token : string) : option User :=
  if bool_decide (token = "token-1") then Some {| uid := "user-1" |} else None.

(** The first and the last instant of March 2024, in UTC. *)
Definition first_instant : Z := 1709251200000.
Definition last_instant : Z := 1711929599999.

(** 2024-03-15T12:00:00Z. *)
Definition noon_15th : Z := 1710504000000.

(** A server on UTC, and one an hour east of it (UTC+01:00); the database
    sorts texts byte by byte. *)
Definition utc : Env :=
  {| getUser := provider; now := noon_15th; tz := 0; random := "0.4fzyo82mvyr";
     collate := String.leb |}.
Definition east : Env :=
  {| getUser := provider; now := noon_15th; tz := 60; random := "0.4fzyo82mvyr";
     collate := String.leb |}.

(** 2024-03-31T12:00:00Z, and a server on UTC at that instant. *)
Definition noon_31st : Z := 1711886400000.
Definition last_day : Env :=
  {| getUser := provider; now := noon_31st; tz := 0; random := "0.4fzyo82mvyr";
     collate := String.leb |}.

End March.

(** *** A small database *)

Module Sample.

Definition auth : User := {| uid := "user-1" |}.

Definition request (r : Route) : Request :=
  {| authorization := Some "Bearer token-1"; route := r |}.

(** A token the identity provider does not know. *)
Definition stale (r : Route) : Request :=
  {| authorization := Some "Bearer token-0"; route := r |}.

Definition ana : Customer.t :=
  {| Customer.name := "Ana"; Customer.phone := "11999990000";
     Customer.email := None; Customer.company := None;
     Customer.user_id := "user-1" |}.

Definition ana_again : CustomerBody.t :=
  {| CustomerBody.name := "Ana"; CustomerBody.phone := "11999990000";
     CustomerBody.email := Some "ana@example.com"; CustomerBody.company := None |}.

Definition order (batch : option string) : Order.t :=
  {| Order.customer_id := 1; Order.service_type := "Banner";
     Order.description := "Lona 2x1"; Order.quantity := 1;
     Order.unit_price := 80; Order.total_price := 80;
     Order.order_date := "2024-03-10"; Order.delivery_date := "2024-03-20";
     Order.status := "Orçamento"; Order.notes := None;
     Order.batch_id := batch; Order.user_id := "user-1" |}.

(** Orders 1 and 2 are one batch; order 3 stands alone. *)
Definition world : World :=
  {| customers := {[ 1 := ana ]};
     orders := {[ 1 := order (Some "batch_1709900000000_k2j5x9q0a");
                  2 := order (Some "batch_1709900000000_k2j5x9q0a");
                  3 := order None ]};
     order_images := ∅; faults := []; calls := 0 |}.

Definition item (service : string) (quantity unit_price : number)
    (images : option (list string)) : OrderBody.t :=
  {| OrderBody.customer_id := 1; OrderBody.service_type := service;
     OrderBody.description := ""; OrderBody.quantity := quantity;
     OrderBody.unit_price := unit_price;
     OrderBody.total_price := PrimFloat.mul quantity unit_price;
     OrderBody.order_date := "2024-03-15"; OrderBody.delivery_date := "2024-03-25";
     OrderBody.status := "Orçamento"; OrderBody.notes := None;
     OrderBody.images := images |}.

Definition banner : OrderBody.t := item "Banner" 2 10 (Some ["data:image/png;base64,AAAA"]).
Definition sticker : OrderBody.t := item "Adesivo" 1 5 None.
Definition card : OrderBody.t := item "Cartão" 100 1 None.

(** A database in which the uniqueness of name and phone is already lost. *)
Definition two_anas : World :=
  {| customers := {[ 1 := ana; 2 := ana ]}; orders := ∅;
     order_images := ∅; faults := []; calls := 0 |}.

(** The same database when its third call from now fails: in a creation
    request that starts with [banner], the insert of the second order. *)
Definition failing : World :=
  {| customers := customers world; orders := orders world;
     order_images := order_images world;
     faults := [None; None; Some "connection lost"]; calls := 0 |}.

(** The same database when its next call fails and the one after goes
    through, and when its second call from now fails. *)
Definition unanswered : World :=
  {| customers := customers world; orders := orders world;
     order_images := order_images world;
     faults := [Some "timeout"; None]; calls := 0 |}.

Definition second_failing : World :=
  {| customers := customers world; orders := orders world;
     order_images := order_images world;
     faults := [None; Some "payload too large"]; calls := 0 |}.

(** A database that already holds an order with the batch id a request
    generates at [March.noon_15th] with the random draw of [March.utc]. *)
Definition same_draw : World :=
  {| customers := {[ 1 := ana ]};
     orders := {[ 1 := order (Some "batch_1710504000000_4fzyo82mv") ]};
     order_images := ∅; faults := []; calls := 0 |}.

(** A customer the sample database does not hold. *)
Definition bia : CustomerBody.t :=
  {| CustomerBody.name := "Bia"; CustomerBody.phone := "11988880000";
     CustomerBody.email := None; CustomerBody.company := Some "Bia Festas" |}.

End Sample.

(** *** More vocabulary *)

(** The routes that read: every [GET]. *)
Definition reads_only (r : Route) : bool :=
  match r with
  | GET_customers | GET_orders | GET_order _ | GET_stats
  | GET_billing_trends | GET_billing_distribution => true
  | _ => false
  end.

(** A computation that leaves every row as it was. *)
Definition preserves_rows {A} (m : M A) : Prop :=
  ∀ w, tables (m w).2 = tables w.

(** A computation that makes exactly [n] calls of the database client. *)
Definition makes_calls {A} (n : nat) (m : M A) : Prop :=
  ∀ w, calls (m w).2 = (calls w + n)%nat.

(** The number of calls of the handlers that make the same number of calls
    on every path past the gate. *)
Definition fixed_calls (r : Route) : option nat :=
  match r with
  | GET_customers | DELETE_customer _ | GET_orders => Some 1%nat
  | PATCH_order_status _ _ | DELETE_order _ | GET_billing_distribution =>
      Some 2%nat
  | GET_stats => Some 5%nat
  | GET_billing_trends => Some 6%nat
  | GET_order _ | POST_customers _ | POST_orders _ => None
  end.

(** The [batch_items] of the reply to [GET /api/orders/:id] for the order
    [o]: the rows of its batch, [null] when it has none or when the second
    query fails. *)
Definition batch_items_json (w : World) (o : Order.t) : Json :=
  match batch_key o with
  | Some b =>
      match next_fault (advance w (tables w)) with
      | Some _ => JNull
      | None => JArr ((λ row, JObj (order_columns row)) <$>
                      select (λ _ o', has_batch_id b o') (orders w))
      end
  | None => JNull
  end.

(** The orders whose status is one of [statuses]. *)
Definition orders_in (statuses : list string) (table : gmap Z Order.t)
  : gmap Z Order.t :=
  filter (λ kv, status_in statuses kv.2 = true) table.

(** An order as [GET /api/orders] lists it: its columns, the embedded
    customer, and the customer's name and phone beside them. *)
Definition listed_order (t : Tables) (row : Z * Order.t) : Json :=
  JObj (order_columns row
        ++ [("customers"%string, customers_json (customer_of t row.2))]
        ++ customer_name_phone (customer_of t row.2)).

(** An entry of the billing trends. *)
Definition trend_entry (name : string) (r : number) : Json :=
  JObj [("name"%string, JStr name); ("revenue"%string, JNum r)].

End Api.

(** * The client: what the pages compute before a request goes out

    Texts are sequences of bytes, in UTF-8. The functions below look for
    ASCII characters only, and no byte of a character outside ASCII is
    one, so a count of digits or a slice of a text of digits is the same
    on bytes as on the UTF-16 units of the browser. *)

Module Client.

Import Api.

(** [/\d/]. *)
Definition is_digit (c : ascii) : bool :=
  ((48 <=? nat_of_ascii c) && (nat_of_ascii c <=? 57))%nat.

(** [value.replace(/\D/g, '')]. *)
Fixpoint digits (value : string) : string :=
  match value with
  | EmptyString => EmptyString
  | String c rest => if is_digit c then String c (digits rest) else digits rest
  end.

(** [s.slice(from, to)] and [s.slice(from)], for [0 <= from <= to]. *)
Definition slice (from to : nat) (s : string) : string :=
  substring from (to - from) s.

Definition slice_from (from : nat) (s : string) : string :=
  substring from (String.length s - from) s.

(** The mask of [maskPhone] on the digits of the value. *)
Definition mask (phoneNumber : string) : string :=
  let phoneNumberLength := String.length phoneNumber in
  if (phoneNumberLength <=? 2)%nat then
    if (0 <? phoneNumberLength)%nat then ("(" +:+ phoneNumber)%string
    else ""%string
  else if (phoneNumberLength <=? 6)%nat then
    ("(" +:+ slice 0 2 phoneNumber +:+ ") " +:+ slice_from 2 phoneNumber)%string
  else if (phoneNumberLength <=? 10)%nat then
    ("(" +:+ slice 0 2 phoneNumber +:+ ") " +:+ slice 2 6 phoneNumber +:+ "-"
     +:+ slice_from 6 phoneNumber)%string
  else
    ("(" +:+ slice 0 2 phoneNumber +:+ ") " +:+ slice 2 7 phoneNumber +:+ "-"
     +:+ slice 7 11 phoneNumber)%string.

Definition maskPhone (value : string) : string :=
  if negb (truthy (Some value)) then value else mask (digits value).

(** The [Authorization] header [authFetch] hands to [fetch] for the access
    token of the session ([undefined] without a session):
    [Bearer <token>] when the token is truthy, none otherwise. No caller
    passes headers of its own. *)
Definition authFetch (access_token : option string) : option string :=
  match access_token with
  | Some token =>
      if truthy (Some token) then Some ("Bearer " +:+ token)%string else None
  | None => None
  end.

(** The phone of the link of [shareWhatsApp]: the digits of the customer's
    phone, after [55] unless there is none or they start with it. *)
Definition whatsappPhone (customer_phone : string) : string :=
  let phone := digits customer_phone in
  if (0 <? String.length phone)%nat && negb (String.prefix "55" phone)
  then ("55" +:+ phone)%string
  else phone.

(** *** Vocabulary *)

(** A text of digits only. *)
Fixpoint all_digits (s : string) : bool :=
  match s with
  | EmptyString => true
  | String c rest => is_digit c && all_digits rest
  end.

(** A text without a space. *)
Fixpoint spaceless (s : string) : bool :=
  match s with
  | EmptyString => true
  | String c rest => negb (Ascii.eqb c " ") && spaceless rest
  end.

End Client.

(** * Facts about the grouped view *)

Section GroupedView.

Import View.

Implicit Types (o : Order) (b k : string) (g : Groups) (l orders : list Order).

Lemma batch_key_Some_iff o b :
  batch_key o = Some b ↔ batch_id o = Some b ∧ b ≠ ""%string.
Proof.
  unfold batch_key, truthy. destruct (batch_id o) as [s|].
  - destruct (decide (s = ""%string)) as [->|Hs].
    + rewrite bool_decide_eq_true_2 by done. simpl.
      split; [done | by intros [[= <-] ?]].
    + rewrite bool_decide_eq_false_2 by done. simpl.
      split; [by intros [= <-] | by intros [? _]].
  - split; [done | by intros [? _]].
Qed.

Lemma batch_key_None_iff o :
  batch_key o = None ↔ batch_id o = None ∨ batch_id o = Some ""%string.
Proof.
  unfold batch_key, truthy. destruct (batch_id o) as [s|].
  - destruct (decide (s = ""%string)) as [->|Hs].
    + rewrite bool_decide_eq_true_2 by done. simpl.
      split; [by right | done].
    + rewrite bool_decide_eq_false_2 by done. simpl.
      split; [done | intros [? | ?]; congruence].
  - split; [by left | done].
Qed.

Lemma blank_not_inherited : ""%string ∉ Object_prototype.
Proof. apply (bool_decide_eq_false_1 (""%string ∈ Object_prototype)). reflexivity. Qed.

Lemma partition_orders_snoc l o :
  partition_orders (l ++ [o]) =
  match partition_orders l with Some a => visit a o | None => None end.
Proof. unfold partition_orders. by rewrite fold_left_app. Qed.

Lemma members_snoc b l o :
  members b (l ++ [o]) =
  if decide (batch_id o = Some b) then members b l ++ [o] else members b l.
Proof.
  unfold members. rewrite filter_app.
  destruct (decide (batch_id o = Some b)) as [Hb|Hb].
  - by rewrite filter_cons_True.
  - by rewrite filter_cons_False, filter_nil, app_nil_r.
Qed.

Lemma keys_store b o g :
  keys (store b o g) = if decide (b ∈ keys g) then keys g else keys g ++ [b].
Proof.
  induction g as [|[k items] g IH]; simpl.
  - done.
  - destruct (decide (k = b)) as [->|Hk]; simpl.
    + rewrite decide_True; [done | apply elem_of_cons; by left].
    + rewrite IH. destruct (decide (b ∈ keys g)) as [Hin|Hin].
      * rewrite decide_True; [done | apply elem_of_cons; by right].
      * rewrite decide_False; [done |].
        intros [?|?]%elem_of_cons; congruence.
Qed.

(** What an entry of [store b o g] is, when the keys of [g] are distinct. *)
Lemma elem_of_store b o g k items :
  NoDup (keys g) →
  (k, items) ∈ store b o g →
  (k ≠ b ∧ (k, items) ∈ g) ∨
  (k = b ∧ ∃ old, items = old ++ [o] ∧
                  ((b, old) ∈ g ∨ (old = [] ∧ b ∉ keys g))).
Proof.
  induction g as [|[k0 items0] g IH]; simpl; intros Hnd Hin.
  - apply list_elem_of_singleton in Hin. injection Hin as -> ->.
    right. split; [done|]. exists []. split; [done|]. right.
    split; [done | apply not_elem_of_nil].
  - apply NoDup_cons in Hnd as [Hk0 Hnd].
    destruct (decide (k0 = b)) as [->|Hne].
    + apply elem_of_cons in Hin as [Heq|Hin].
      * injection Heq as -> ->. right. split; [done|].
        exists items0. split; [done|]. left. apply elem_of_cons; by left.
      * left. split.
        -- intros ->. apply Hk0. unfold keys.
           apply list_elem_of_fmap. by exists (b, items).
        -- apply elem_of_cons; by right.
    + apply elem_of_cons in Hin as [Heq|Hin].
      * injection Heq as -> ->. left. split; [done|].
        apply elem_of_cons; by left.
      * destruct (IH Hnd Hin) as [[Hkb Hg]|[-> (old & -> & Hold)]].
        -- left. split; [done|]. apply elem_of_cons; by right.
        -- right. split; [done|]. exists old. split; [done|].
           destruct Hold as [Hold|[-> Hnk]].
           ++ left. apply elem_of_cons; by right.
           ++ right. split; [done|].
              intros [?|?]%elem_of_cons; simpl in *; congruence.
Qed.

Lemma grouped_nil : grouped [] [].
Proof.
  split.
  - constructor.
  - intros k. split; [by intros ?%not_elem_of_nil | by intros [_ ?]].
  - by intros k items ?%not_elem_of_nil.
Qed.

Lemma grouped_skip l g o :
  batch_key o = None → grouped l g → grouped (l ++ [o]) g.
Proof.
  intros Ho%batch_key_None_iff [Hnd Hkeys Hitems].
  assert (Hm : ∀ k, k ≠ ""%string → members k (l ++ [o]) = members k l).
  { intros k Hk. rewrite members_snoc, decide_False; [done|].
    intros Hb. destruct Ho as [Ho|Ho]; congruence. }
  split; [done | |].
  - intros k. rewrite Hkeys. split; intros [Hk Hne]; (split; [done|]).
    + by rewrite Hm.
    + by rewrite <- Hm.
  - intros k items Hin. rewrite Hm; [by apply Hitems|].
    apply (Hkeys k). unfold keys. apply list_elem_of_fmap. by exists (k, items).
Qed.

Lemma grouped_store l g o b :
  batch_key o = Some b → grouped l g → grouped (l ++ [o]) (store b o g).
Proof.
  intros [Ho Hb]%batch_key_Some_iff [Hnd Hkeys Hitems]. split.
  - rewrite keys_store. destruct (decide (b ∈ keys g)) as [Hin|Hin]; [done|].
    apply NoDup_app. split_and!; [done | | apply NoDup_singleton].
    intros x Hx ->%list_elem_of_singleton. done.
  - intros k. rewrite keys_store, members_snoc.
    destruct (decide (batch_id o = Some k)) as [Hk|Hk].
    + assert (k = b) as -> by congruence.
      split; [intros _; split; [done | by destruct (members b l)] |].
      intros _. destruct (decide (b ∈ keys g)); [done|].
      apply elem_of_app. right. by apply list_elem_of_singleton.
    + rewrite <- Hkeys. destruct (decide (b ∈ keys g)); [done|].
      rewrite elem_of_app, list_elem_of_singleton.
      split; [intros [? | ->]; [done | congruence] | by left].
  - intros k items Hin. rewrite members_snoc.
    destruct (elem_of_store _ _ _ _ _ Hnd Hin)
      as [[Hkb Hg]|[-> (old & -> & Hold)]].
    + rewrite decide_False by congruence. by apply Hitems.
    + rewrite decide_True by done. f_equal.
      destruct Hold as [Hold|[-> Hnk]]; [by apply Hitems|].
      destruct (members b l) eqn:Hm; [done|].
      exfalso. apply Hnk, Hkeys. by rewrite Hm.
Qed.

(** The input holds no batch id that names a property of
    [Object.prototype]. *)
Lemma unbatched_snoc l o :
  unbatched (l ++ [o]) =
  if decide (batch_id o = None ∨ batch_id o = Some ""%string)
  then unbatched l ++ [o] else unbatched l.
Proof.
  unfold unbatched. rewrite filter_app.
  destruct (decide _) as [Hb|Hb].
  - by rewrite filter_cons_True.
  - by rewrite filter_cons_False, filter_nil, app_nil_r.
Qed.

(** The loop goes through when no batch id names an inherited property,
    and then leaves [groups] grouped and [singleOrders] the orders with no
    batch id. *)
Lemma partition_orders_grouped l :
  (∀ o b, o ∈ l → batch_id o = Some b → b ∉ Object_prototype) →
  ∃ g, partition_orders l = Some (g, unbatched l) ∧ grouped l g.
Proof.
  induction l as [|o l IH] using rev_ind; intros Hsafe.
  - exists []. split; [done | apply grouped_nil].
  - destruct IH as (g & Hrun & Hg).
    { intros o' b Hin. apply Hsafe, elem_of_app. by left. }
    rewrite partition_orders_snoc, Hrun. unfold visit. cbn [fst snd].
    rewrite unbatched_snoc.
    destruct (batch_key o) as [b|] eqn:Ho.
    + pose proof Ho as [Hid Hb]%batch_key_Some_iff.
      unfold push. rewrite bool_decide_eq_false_2.
      2:{ apply (Hsafe o b); [|done]. apply elem_of_app. right.
          by apply list_elem_of_singleton. }
      exists (store b o g). rewrite decide_False.
      2:{ intros [?|?]; congruence. }
      split; [done | by apply grouped_store].
    + exists g. rewrite decide_True by by apply batch_key_None_iff.
      split; [done | by apply grouped_skip].
Qed.

(** The loop throws exactly when a batch id names an inherited property. *)
Lemma partition_orders_None l :
  partition_orders l = None ↔
  ∃ o b, o ∈ l ∧ batch_id o = Some b ∧ b ∈ Object_prototype.
Proof.
  induction l as [|o l IH] using rev_ind.
  - split; [done|]. by intros (o & b & Hin%not_elem_of_nil & _).
  - rewrite partition_orders_snoc.
    destruct (partition_orders l) as [acc|] eqn:Hrun.
    + assert (Hl : ∀ o' b', o' ∈ l → batch_id o' = Some b' →
                     b' ∉ Object_prototype).
      { intros o' b' Ho' Hid' Hb'.
        assert (Hnone : Some acc = None) by (apply IH; by exists o', b').
        discriminate Hnone. }
      unfold visit. destruct (batch_key o) as [b|] eqn:Ho.
      * pose proof Ho as [Hid Hb]%batch_key_Some_iff. unfold push.
        destruct (decide (b ∈ Object_prototype)) as [Hin|Hin].
        -- rewrite bool_decide_eq_true_2 by done. split; [|done].
           intros _. exists o, b. split_and!; [|done..].
           apply elem_of_app. right. by apply list_elem_of_singleton.
        -- rewrite bool_decide_eq_false_2 by done. split; [done|].
           intros (o' & b' & [Ho'|Ho']%elem_of_app & Hid' & Hb').
           ++ by destruct (Hl o' b').
           ++ apply list_elem_of_singleton in Ho' as ->.
              destruct Hin. congruence.
      * split; [done|].
        apply batch_key_None_iff in Ho.
        intros (o' & b' & [Ho'|Ho']%elem_of_app & Hid' & Hb').
        -- by destruct (Hl o' b').
        -- apply list_elem_of_singleton in Ho' as ->.
           destruct Ho as [Ho|Ho]; [congruence|].
           assert (b' = ""%string) as -> by congruence.
           by apply blank_not_inherited in Hb'.
    + split; [|done]. intros _.
      destruct (proj1 IH eq_refl) as (o' & b' & Hin & Hid & Hb).
      exists o', b'. split_and!; [|done..]. apply elem_of_app. by left.
Qed.

Lemma insert_sorted_perm getTime x (rows : list Row) :
  insert_sorted getTime x rows ≡ₚ x :: rows.
Proof.
  induction rows as [|y rows IH]; simpl; [done|].
  destruct (PrimFloat.ltb _ _); [|done].
  rewrite IH. apply Permutation_swap.
Qed.

Lemma sort_perm getTime (rows : list Row) : sort getTime rows ≡ₚ rows.
Proof.
  induction rows as [|x rows IH]; simpl; [done|].
  by rewrite insert_sorted_perm, IH.
Qed.

Lemma insert_index_perm e (l : list (N * Entry)) : insert_index e l ≡ₚ e :: l.
Proof.
  induction l as [|e' l IH]; simpl; [done|].
  destruct (_ <? _)%N; [done|]. rewrite IH. apply Permutation_swap.
Qed.

(** [Object.entries] lists every own property once. *)
Lemma entries_perm (g : list Entry) : entries g ≡ₚ g.
Proof.
  unfold entries. induction g as [|e g IH]; [done|].
  rewrite filter_cons. cbn [omap list_omap].
  destruct (array_index e.1) as [n|] eqn:He; cbn [fmap option_fmap option_map].
  - rewrite decide_False by done. cbn [foldr].
    rewrite insert_index_perm. cbn [fmap list_fmap]. simpl. by rewrite IH.
  - rewrite decide_True by done. rewrite <- Permutation_middle. by rewrite IH.
Qed.

Lemma elem_of_keys g k : k ∈ keys g ↔ ∃ items, (k, items) ∈ g.
Proof.
  unfold keys. rewrite list_elem_of_fmap. split.
  - intros ([k' items] & -> & Hin). by exists items.
  - intros (items & Hin). by exists (k, items).
Qed.

Lemma members_nonempty b l :
  b ≠ ""%string ∧ members b l ≠ [] ↔ b ∈ batch_ids l.
Proof.
  unfold batch_ids, members.
  rewrite elem_of_difference, elem_of_list_to_set, list_elem_of_omap.
  rewrite not_elem_of_singleton. split.
  - intros [Hb Hne]. split; [|done].
    destruct (filter _ l) as [|o r] eqn:Hf; [done|].
    assert (Ho : o ∈ filter (λ o, batch_id o = Some b) l)
      by (rewrite Hf; apply elem_of_cons; by left).
    apply list_elem_of_filter in Ho as [Hid Ho]. by exists o.
  - intros [(o & Ho & Hid) Hb]. split; [done|]. intros Hnil.
    assert (Hin : o ∈ filter (λ o, batch_id o = Some b) l)
      by (by apply list_elem_of_filter).
    rewrite Hnil in Hin. by apply not_elem_of_nil in Hin.
Qed.

(** Every entry of a grouped map has a first item, so no entry is lost. *)
Lemma omap_processGroup_length l g (es : list Entry) :
  grouped l g → es ≡ₚ g → length (omap processGroup es) = length es.
Proof.
  intros [_ Hkeys Hitems] Hperm.
  assert (Hne : ∀ k items, (k, items) ∈ es → items ≠ []).
  { intros k items Hin. rewrite Hperm in Hin. rewrite (Hitems _ _ Hin).
    apply Hkeys, elem_of_keys. by exists items. }
  clear Hkeys Hitems Hperm. induction es as [|[k items] es IH]; [done|].
  cbn [omap list_omap]. unfold processGroup at 1. cbn [snd].
  destruct items as [|first rest].
  - exfalso. eapply Hne; [apply elem_of_cons; by left | done].
  - cbn [length]. f_equal. apply IH. intros k' items' Hin.
    eapply Hne. apply elem_of_cons. by right.
Qed.

Lemma processedGroups_length l g :
  grouped l g → length (processedGroups g) = size (batch_ids l).
Proof.
  intros Hg. unfold processedGroups.
  rewrite (omap_processGroup_length l g) by (done || apply entries_perm).
  rewrite entries_perm.
  destruct Hg as [Hnd Hkeys _].
  transitivity (length (keys g)); [unfold keys; by rewrite length_fmap|].
  rewrite <- (size_list_to_set (C:=gset string)) by done.
  f_equal. apply set_eq. intros k.
  by rewrite elem_of_list_to_set, Hkeys, members_nonempty.
Qed.

Lemma elem_of_processedGroups l g row :
  grouped l g →
  row ∈ processedGroups g ↔
  ∃ b, b ∈ batch_ids l ∧ processGroup (b, members b l) = Some row.
Proof.
  intros [Hnd Hkeys Hitems].
  unfold processedGroups. rewrite list_elem_of_omap.
  split.
  - intros ([k items] & Hin & Hrow). rewrite entries_perm in Hin. exists k.
    rewrite <- members_nonempty, <- Hkeys, elem_of_keys.
    split; [by exists items|]. by rewrite <- (Hitems _ _ Hin).
  - intros (b & Hb & Hrow). exists (b, members b l). split; [|done].
    rewrite entries_perm.
    apply members_nonempty, Hkeys, elem_of_keys in Hb as [items Hin].
    by rewrite <- (Hitems _ _ Hin).
Qed.

Lemma fold_left_fmap_add (f : Order → number) (items : list Order) acc :
  fold_left PrimFloat.add (f <$> items) acc
  = fold_left (λ sum item, PrimFloat.add sum (f item)) items acc.
Proof.
  revert acc. induction items as [|item items IH]; intros acc; [done|].
  simpl. apply IH.
Qed.

Lemma processGroup_row l b row :
  processGroup (b, members b l) = Some row → group_row_of l b row.
Proof.
  unfold processGroup, group_row_of. cbn [snd].
  destruct (members b l) as [|first rest] eqn:Hm; [done|].
  intros [= <-]. split_and!; try reflexivity.
  exact (fold_left_fmap_add total_price (first :: rest) 0%float).
Qed.

Lemma filter_is_group_single l :
  filter (λ r, is_group r = true) (single <$> l) = [].
Proof.
  induction l as [|o l IH]; [done|]. simpl.
  by rewrite filter_cons_False.
Qed.

Lemma filter_is_group_processed l g :
  grouped l g →
  filter (λ r, is_group r = true) (processedGroups g) = processedGroups g.
Proof.
  intros Hg.
  assert (H : ∀ row, row ∈ processedGroups g → is_group row = true).
  { intros row (b & _ & Hrow)%(elem_of_processedGroups l); [|done].
    by destruct (processGroup_row _ _ _ Hrow). }
  induction (processedGroups g) as [|r rows IH]; [done|].
  rewrite filter_cons_True by (apply H, elem_of_cons; by left).
  f_equal. apply IH. intros row Hin. apply H, elem_of_cons. by right.
Qed.

(** C1. For every input list of orders in which no batch id names a
    property of [Object.prototype] (and whatever [Date] makes of the
    dates), the grouped view has one row per order whose batch id is null
    or empty plus one row per distinct non-empty batch id; the synthetic
    rows are as many as these batch ids, every such batch id has its row,
    and every synthetic row has service type DIVERSOS, carries the members
    of its batch and has as total price their total prices added up; the
    other rows are the orders without batch id. *)
Theorem groupedOrders_rows getTime orders :
  (∀ o b, o ∈ orders → batch_id o = Some b → b ∉ Object_prototype) →
  ∃ rows,
    groupedOrders getTime orders = Some rows ∧
    length rows = (length (unbatched orders) + size (batch_ids orders))%nat ∧
    length (filter (λ r, is_group r = true) rows) = size (batch_ids orders) ∧
    (∀ b, b ∈ batch_ids orders →
       ∃ row, row ∈ rows ∧ group_row_of orders b row) ∧
    (∀ row, row ∈ rows → is_group row = true →
       ∃ b, b ∈ batch_ids orders ∧ group_row_of orders b row) ∧
    (∀ row, row ∈ rows → is_group row = false →
       order row ∈ unbatched orders).
Proof.
  intros Hsafe.
  destruct (partition_orders_grouped orders Hsafe) as (g & Hrun & Hg).
  unfold groupedOrders. rewrite Hrun. eexists. split; [reflexivity|].
  set (rows := sort getTime _).
  assert (Hperm : rows ≡ₚ (single <$> unbatched orders) ++ processedGroups g)
    by apply sort_perm.
  split_and!.
  - rewrite Hperm, length_app, length_fmap.
    by rewrite (processedGroups_length orders).
  - rewrite Hperm, filter_app, filter_is_group_single.
    rewrite (filter_is_group_processed orders) by done.
    by apply processedGroups_length.
  - intros b Hb.
    destruct (members b orders) as [|first rest] eqn:Hm.
    { apply members_nonempty in Hb as [_ Hne]. by rewrite Hm in Hne. }
    destruct (processGroup (b, members b orders)) as [row|] eqn:Hrow.
    + exists row. split; [|by apply processGroup_row].
      rewrite Hperm. apply elem_of_app. right.
      apply (elem_of_processedGroups orders); [done|]. by exists b.
    + unfold processGroup in Hrow. cbn [snd] in Hrow. by rewrite Hm in Hrow.
  - intros row Hin Hgroup. rewrite Hperm in Hin.
    apply elem_of_app in Hin as [Hin|Hin].
    + apply list_elem_of_fmap in Hin as (o & -> & _). done.
    + apply (elem_of_processedGroups orders) in Hin as (b & Hb & Hrow);
        [|done].
      exists b. split; [done | by apply processGroup_row].
  - intros row Hin Hsingle. rewrite Hperm in Hin.
    apply elem_of_app in Hin as [Hin|Hin].
    + by apply list_elem_of_fmap in Hin as (o & -> & Ho).
    + apply (elem_of_processedGroups orders) in Hin as (b & Hb & Hrow);
        [|done].
      destruct (processGroup_row _ _ _ Hrow) as [Hgroup _]. congruence.
Qed.

(** X27. The memo throws a TypeError exactly when a batch id of the input
    names a property of [Object.prototype] ([constructor], [toString],
    [__proto__], ...): the read [groups[b]] then finds the inherited
    value, which has no [push]. For every other input it returns. *)
Theorem groupedOrders_TypeError getTime orders :
  groupedOrders getTime orders = None ↔
  ∃ o b, o ∈ orders ∧ batch_id o = Some b ∧ b ∈ Object_prototype.
Proof.
  rewrite <- partition_orders_None. unfold groupedOrders.
  by destruct (partition_orders orders) as [[g s]|].
Qed.

End GroupedView.

(** * Facts about the handlers *)

Section Handlers.

Import Api.

Implicit Types (env : Env) (req : Request) (w : World) (auth : User).

(** ** The authentication gate *)

Lemma unauthenticated_getAuthClient env req :
  unauthenticated env req ↔ getAuthClient env req = None.
Proof.
  unfold unauthenticated, getAuthClient.
  destruct (authorization req) as [header|]; [|done].
  simpl. destruct (remove_first _ header) as [|c token] eqn:Htoken; simpl.
  - split; [done | by left].
  - split; [by intros [?|?] | by right].
Qed.

(** C7. Whatever the endpoint, a request without bearer token, or with one
    the identity provider rejects, is answered 401 with a JSON body that
    has an [error] field, and the world is left as it was: no call of the
    database client is made. *)
Theorem unauthenticated_401 env req w :
  unauthenticated env req →
  status_code (app env req w).1 = 401 ∧
  is_Some (field "error" (body (app env req w).1)) ∧
  (app env req w).2 = w ∧
  calls (app env req w).2 = calls w.
Proof.
  intros Hauth%unauthenticated_getAuthClient.
  assert (Happ : app env req w = (unauthorized, w)).
  { unfold app, get_customers, post_customers, delete_customer, get_orders,
      get_order, post_orders, patch_order_status, delete_order, get_stats,
      get_billing_trends, get_billing_distribution.
    destruct (route req); by rewrite Hauth. }
  rewrite Happ. by repeat split.
Qed.

(** ** The database client *)

Lemma reliable_next_fault w : reliable w → next_fault w = None.
Proof.
  unfold reliable, next_fault. destruct (faults w) as [|[m|] rest]; try done.
  by intros [[=] _]%Forall_cons.
Qed.

Lemma reliable_advance w t : reliable w → reliable (advance w t).
Proof.
  unfold reliable, advance. simpl. destruct (faults w); simpl; [done|].
  by intros [_ ?]%Forall_cons.
Qed.

Lemma call_run {A} (run : Tables → Result A * Tables) w :
  next_fault w = None →
  call run w = ((run (tables w)).1, advance w (run (tables w)).2).
Proof. unfold call. intros ->. by destruct (run (tables w)). Qed.

Lemma call_fault {A} (run : Tables → Result A * Tables) w message :
  next_fault w = Some message →
  call run w = (Err message, advance w (tables w)).
Proof. unfold call. by intros ->. Qed.

Lemma tables_advance w t : tables (advance w t) = t.
Proof. by destruct t. Qed.

(** A query leaves every row as it was, whether it fails or not. *)
Lemma query_tables {A} (read : Tables → Result A) w :
  (query read w).2 = advance w (tables w).
Proof. unfold query, call. by destruct (next_fault w). Qed.

Lemma query_run {A} (read : Tables → Result A) w :
  next_fault w = None → (query read w).1 = read (tables w).
Proof. unfold query, call. by intros ->. Qed.

(** Selecting by primary key finds the row of that key, if any. *)
Lemma select_by_id {A} (table : gmap Z A) id :
  select (λ k _, bool_decide (k = id)) table =
  match table !! id with Some row => [(id, row)] | None => [] end.
Proof.
  unfold select.
  assert (filter (λ kv : Z * A, bool_decide (kv.1 = id) = true) table =
          match table !! id with Some row => {[id := row]} | None => ∅ end)
    as ->.
  { apply map_eq. intros k. rewrite map_lookup_filter.
    destruct (decide (k = id)) as [->|Hne].
    - destruct (table !! id) as [row|] eqn:Hrow; simpl.
      + rewrite option_guard_True by (by apply bool_decide_eq_true).
        by rewrite lookup_singleton_eq.
      + by rewrite lookup_empty.
    - destruct (table !! k) as [row|]; simpl.
      + rewrite option_guard_False
          by (by intros ?%bool_decide_eq_true).
        destruct (table !! id); [by rewrite lookup_singleton_ne|].
        by rewrite lookup_empty.
      + destruct (table !! id); [by rewrite lookup_singleton_ne|].
        by rewrite lookup_empty. }
  destruct (table !! id); [apply map_to_list_singleton | apply map_to_list_empty].
Qed.

(** What [order?.batch_id] is after the lookup went through. *)
Lemma select_batch_id_run id w :
  next_fault w = None →
  batch_of (select_batch_id id w).1 = orders w !! id ≫= batch_key.
Proof.
  intros Hw. unfold select_batch_id. rewrite query_run by done.
  rewrite select_by_id. simpl. unfold batch_of, batch_key.
  destruct (orders w !! id) as [o|]; simpl; [|done].
  by destruct (Order.batch_id o).
Qed.

Lemma select_batch_id_unknown id w :
  orders w !! id = None → batch_of (select_batch_id id w).1 = None.
Proof.
  intros Hid. unfold select_batch_id, query, call.
  destruct (next_fault w); [done|]. simpl.
  by rewrite select_by_id, Hid.
Qed.

Lemma lookup_update_orders P s t k :
  t_orders (update_orders P s t).2 !! k =
  (λ o, if P k o then Order.set_status s o else o) <$> t_orders t !! k.
Proof. simpl. rewrite map_lookup_imap. by destruct (t_orders t !! k). Qed.

Lemma lookup_delete_orders P t k :
  t_orders (delete_orders P t).2 !! k =
  o ← t_orders t !! k; if P k o then None else Some o.
Proof.
  simpl. rewrite map_lookup_filter.
  destruct (t_orders t !! k) as [o|]; simpl; [|done].
  destruct (P k o) eqn:HP.
  - by rewrite option_guard_False.
  - by rewrite option_guard_True.
Qed.

Lemma has_batch_id_spec b o : has_batch_id b o = true ↔ Order.batch_id o = Some b.
Proof. unfold has_batch_id. apply bool_decide_eq_true. Qed.

Lemma batch_key_Some o b : batch_key o = Some b → Order.batch_id o = Some b.
Proof. unfold batch_key. by destruct (truthy _). Qed.

(** ** Status update and delete of an order *)

Lemma patch_order_status_response env req w auth id s :
  getAuthClient env req = Some auth →
  (patch_order_status id s env req w).1 = success.
Proof.
  intros Hauth. unfold patch_order_status, bind. rewrite Hauth.
  destruct (select_batch_id id w) as [order w1].
  by destruct (batch_of order);
    match goal with |- context [call ?run w1] => destruct (call run w1) end.
Qed.

Lemma patch_order_status_reliable env req w auth id s :
  getAuthClient env req = Some auth → reliable w →
  tables (patch_order_status id s env req w).2 =
  (update_orders (aimed_at w id) s (tables w)).2.
Proof.
  intros Hauth Hw. unfold patch_order_status, bind. rewrite Hauth.
  pose proof (select_batch_id_run id w (reliable_next_fault _ Hw)) as Hb.
  pose proof (query_tables
    (λ t, single ((λ row : Z * Order.t, Order.batch_id row.2) <$>
                  select (λ k _, bool_decide (k = id)) (t_orders t))) w) as Hq.
  fold (select_batch_id id) in Hq.
  destruct (select_batch_id id w) as [order w1]. simpl in Hb, Hq. subst w1.
  assert (Hw1 : next_fault (advance w (tables w)) = None)
    by by apply reliable_next_fault, reliable_advance.
  unfold aimed_at. rewrite <- Hb.
  destruct (batch_of order); rewrite call_run by done; simpl;
    by rewrite tables_advance.
Qed.

Lemma delete_order_response env req w auth id :
  getAuthClient env req = Some auth →
  (delete_order id env req w).1 = success.
Proof.
  intros Hauth. unfold delete_order, bind. rewrite Hauth.
  destruct (select_batch_id id w) as [order w1].
  by destruct (batch_of order);
    match goal with |- context [call ?run w1] => destruct (call run w1) end.
Qed.

Lemma delete_order_reliable env req w auth id :
  getAuthClient env req = Some auth → reliable w →
  tables (delete_order id env req w).2 =
  (delete_orders (aimed_at w id) (tables w)).2.
Proof.
  intros Hauth Hw. unfold delete_order, bind. rewrite Hauth.
  pose proof (select_batch_id_run id w (reliable_next_fault _ Hw)) as Hb.
  pose proof (query_tables
    (λ t, single ((λ row : Z * Order.t, Order.batch_id row.2) <$>
                  select (λ k _, bool_decide (k = id)) (t_orders t))) w) as Hq.
  fold (select_batch_id id) in Hq.
  destruct (select_batch_id id w) as [order w1]. simpl in Hb, Hq. subst w1.
  assert (Hw1 : next_fault (advance w (tables w)) = None)
    by by apply reliable_next_fault, reliable_advance.
  unfold aimed_at. rewrite <- Hb.
  destruct (batch_of order); rewrite call_run by done; simpl;
    by rewrite tables_advance.
Qed.

Lemma orders_tables w : orders w = t_orders (tables w).
Proof. done. Qed.

Lemma aimed_at_batch w id o b :
  orders w !! id = Some o → batch_key o = Some b →
  aimed_at w id = λ _ o', has_batch_id b o'.
Proof. unfold aimed_at. intros -> Hb. simpl. by rewrite Hb. Qed.

Lemma aimed_at_single w id o :
  orders w !! id = Some o → batch_key o = None →
  aimed_at w id = λ k _, bool_decide (k = id).
Proof. unfold aimed_at. intros -> Hb. simpl. by rewrite Hb. Qed.

(** The order itself and the orders that share its batch are aimed at. *)
Lemma aimed_at_member w id o k o' :
  orders w !! id = Some o → orders w !! k = Some o' →
  k = id ∨ (batch_key o ≠ None ∧ Order.batch_id o' = Order.batch_id o) →
  aimed_at w id k o' = true.
Proof.
  intros Ho Ho' Hk. destruct (batch_key o) as [b|] eqn:Hb.
  - rewrite (aimed_at_batch _ _ _ _ Ho Hb). apply has_batch_id_spec.
    apply batch_key_Some in Hb. destruct Hk as [->|[_ Heq]]; [|congruence].
    congruence.
  - rewrite (aimed_at_single _ _ _ Ho Hb).
    destruct Hk as [->|[? _]]; [by apply bool_decide_eq_true | done].
Qed.

(** C2. A status update of order [id] by an authenticated caller, the
    database answering its calls, replies [{success: true}]; when the
    order has a batch id the new status is set on exactly the orders of
    that batch, when it has none on exactly the order [id]; so afterwards
    the order and every order sharing its batch have the new status. *)
Theorem patch_order_status_batch env req w auth id s :
  getAuthClient env req = Some auth →
  route req = PATCH_order_status id s →
  reliable w →
  (app env req w).1 = success ∧
  (∀ o b, orders w !! id = Some o → batch_key o = Some b →
     ∀ k, orders (app env req w).2 !! k =
          (λ o', if has_batch_id b o' then Order.set_status s o' else o')
            <$> orders w !! k) ∧
  (∀ o, orders w !! id = Some o → batch_key o = None →
     ∀ k, orders (app env req w).2 !! k =
          (λ o', if bool_decide (k = id) then Order.set_status s o' else o')
            <$> orders w !! k) ∧
  (∀ o, orders w !! id = Some o →
     ∀ k o', orders (app env req w).2 !! k = Some o' →
       k = id ∨ (batch_key o ≠ None ∧ Order.batch_id o' = Order.batch_id o) →
       Order.status o' = s).
Proof.
  intros Hauth Hroute Hw. unfold app. rewrite Hroute.
  pose proof (patch_order_status_reliable env req w auth id s Hauth Hw) as Ht.
  assert (Hlook : ∀ k, orders (patch_order_status id s env req w).2 !! k =
            (λ o, if aimed_at w id k o then Order.set_status s o else o)
              <$> orders w !! k).
  { intros k. rewrite !orders_tables, Ht. apply lookup_update_orders. }
  split_and!.
  - by eapply patch_order_status_response.
  - intros o b Ho Hb k. by rewrite Hlook, (aimed_at_batch _ _ _ _ Ho Hb).
  - intros o Ho Hb k. by rewrite Hlook, (aimed_at_single _ _ _ Ho Hb).
  - intros o Ho k o' Ho' Hk. rewrite Hlook in Ho'.
    destruct (orders w !! k) as [o0|] eqn:Ho0; [|done].
    simpl in Ho'. injection Ho' as <-.
    assert (Hsame : Order.batch_id
              (if aimed_at w id k o0 then Order.set_status s o0 else o0)
            = Order.batch_id o0) by by destruct (aimed_at w id k o0).
    rewrite Hsame in Hk.
    by rewrite (aimed_at_member _ _ _ _ _ Ho Ho0 Hk).
Qed.

(** C10. Whatever string the body gives as status, an authenticated status
    update replies [{success: true}]; no value is refused. When the
    database answers its calls and the order exists, the order and every
    order of its batch are stored with exactly that string as status. *)
Theorem patch_order_status_any_string env req w auth id s :
  getAuthClient env req = Some auth →
  route req = PATCH_order_status id s →
  (app env req w).1 = success ∧
  (reliable w →
   ∀ o, orders w !! id = Some o →
     ∀ k o', orders w !! k = Some o' →
       k = id ∨ (batch_key o ≠ None ∧ Order.batch_id o' = Order.batch_id o) →
       orders (app env req w).2 !! k = Some (Order.set_status s o') ∧
       Order.status (Order.set_status s o') = s).
Proof.
  intros Hauth Hroute. unfold app. rewrite Hroute. split.
  - by eapply patch_order_status_response.
  - intros Hw o Ho k o' Ho' Hk. split; [|done].
    rewrite !orders_tables.
    rewrite (patch_order_status_reliable env req w auth id s Hauth Hw).
    rewrite lookup_update_orders, <- orders_tables, Ho'. simpl.
    by rewrite (aimed_at_member _ _ _ _ _ Ho Ho' Hk).
Qed.

(** C3. A delete of order [id] by an authenticated caller, the database
    answering its calls, replies [{success: true}]; when the order has a
    batch id exactly the orders of that batch are deleted, when it has none
    exactly the order [id]; so the order and every order sharing its batch
    are gone afterwards. *)
Theorem delete_order_batch env req w auth id :
  getAuthClient env req = Some auth →
  route req = DELETE_order id →
  reliable w →
  (app env req w).1 = success ∧
  (∀ o b, orders w !! id = Some o → batch_key o = Some b →
     ∀ k, orders (app env req w).2 !! k =
          o' ← orders w !! k; if has_batch_id b o' then None else Some o') ∧
  (∀ o, orders w !! id = Some o → batch_key o = None →
     orders (app env req w).2 = delete id (orders w)) ∧
  (∀ o, orders w !! id = Some o →
     ∀ k o', orders w !! k = Some o' →
       k = id ∨ (batch_key o ≠ None ∧ Order.batch_id o' = Order.batch_id o) →
       orders (app env req w).2 !! k = None).
Proof.
  intros Hauth Hroute Hw. unfold app. rewrite Hroute.
  pose proof (delete_order_reliable env req w auth id Hauth Hw) as Ht.
  assert (Hlook : ∀ k, orders (delete_order id env req w).2 !! k =
            o ← orders w !! k; if aimed_at w id k o then None else Some o).
  { intros k. rewrite !orders_tables, Ht. apply lookup_delete_orders. }
  split_and!.
  - by eapply delete_order_response.
  - intros o b Ho Hb k. by rewrite Hlook, (aimed_at_batch _ _ _ _ Ho Hb).
  - intros o Ho Hb. apply map_eq. intros k.
    rewrite Hlook, (aimed_at_single _ _ _ Ho Hb).
    destruct (decide (k = id)) as [->|Hne].
    + rewrite lookup_delete_eq, Ho. simpl. by rewrite bool_decide_eq_true_2.
    + rewrite lookup_delete_ne by done.
      destruct (orders w !! k); simpl; [|done].
      by rewrite bool_decide_eq_false_2.
  - intros o Ho k o' Ho' Hk. rewrite Hlook, Ho'. simpl.
    by rewrite (aimed_at_member _ _ _ _ _ Ho Ho' Hk).
Qed.

(** ** An order id that does not exist *)

Lemma update_orders_unknown id s t :
  t_orders t !! id = None →
  (update_orders (λ k _, bool_decide (k = id)) s t).2 = t.
Proof.
  intros Hid. destruct t as [cs os imgs]. simpl in *. f_equal.
  apply map_eq. intros k. rewrite map_lookup_imap.
  destruct (os !! k) as [o|] eqn:Ho; simpl; [|done].
  rewrite bool_decide_eq_false_2; [done | congruence].
Qed.

Lemma delete_orders_unknown id t :
  t_orders t !! id = None →
  (delete_orders (λ k _, bool_decide (k = id)) t).2 = t.
Proof.
  intros Hid. destruct t as [cs os imgs]. simpl in *. f_equal.
  apply map_eq. intros k. rewrite map_lookup_filter.
  destruct (os !! k) as [o|] eqn:Ho; simpl; [|done].
  rewrite option_guard_True; [done|].
  simpl. apply bool_decide_eq_false_2. congruence.
Qed.

Lemma call_tables_unchanged {A} (run : Tables → Result A * Tables) w :
  (run (tables w)).2 = tables w → tables (call run w).2 = tables w.
Proof.
  intros Hrun. unfold call. destruct (next_fault w).
  - apply tables_advance.
  - destruct (run (tables w)) as [r t]. simpl in *. subst t.
    apply tables_advance.
Qed.

Lemma get_order_unknown env req w auth id :
  getAuthClient env req = Some auth →
  orders w !! id = None →
  get_order id env req w =
  (status_json 404 (error_body "Pedido não encontrado"), advance w (tables w)).
Proof.
  intros Hauth Hid. unfold get_order, bind. rewrite Hauth.
  unfold query, call. destruct (next_fault w); [done|].
  rewrite select_by_id. change (t_orders (tables w)) with (orders w).
  by rewrite Hid.
Qed.

(** C8, as the handlers have it. For an authenticated request that names
    an order id that does not exist: [GET /api/orders/:id] answers 404
    with an error body; [PATCH /api/orders/:id/status] and
    [DELETE /api/orders/:id] answer 200 [{success: true}]. None of the
    three changes a row. *)
Theorem unknown_order_id env req w auth id :
  getAuthClient env req = Some auth →
  orders w !! id = None →
  (route req = GET_order id →
     status_code (app env req w).1 = 404 ∧
     is_Some (field "error" (body (app env req w).1)) ∧
     same_rows w (app env req w).2) ∧
  (∀ s, route req = PATCH_order_status id s →
     (app env req w).1 = success ∧
     status_code (app env req w).1 = 200 ∧
     same_rows w (app env req w).2) ∧
  (route req = DELETE_order id →
     (app env req w).1 = success ∧
     status_code (app env req w).1 = 200 ∧
     same_rows w (app env req w).2).
Proof.
  intros Hauth Hid. unfold same_rows. split_and!.
  - intros Hroute. unfold app. rewrite Hroute.
    rewrite (get_order_unknown _ _ _ _ _ Hauth Hid).
    split_and!; [done | by eexists | apply tables_advance].
  - intros s Hroute. unfold app. rewrite Hroute.
    rewrite (patch_order_status_response _ _ _ _ _ _ Hauth).
    split_and!; [done..|].
    unfold patch_order_status, bind. rewrite Hauth.
    pose proof (select_batch_id_unknown id w Hid) as Hb.
    pose proof (query_tables
      (λ t, single ((λ row : Z * Order.t, Order.batch_id row.2) <$>
                    select (λ k _, bool_decide (k = id)) (t_orders t))) w) as Hq.
    fold (select_batch_id id) in Hq.
    destruct (select_batch_id id w) as [order w1]. simpl in Hb, Hq.
    subst w1. rewrite Hb.
    match goal with |- context [call ?run ?w1] =>
      pose proof (call_tables_unchanged run w1) as Hc;
      rewrite tables_advance in Hc;
      specialize (Hc (update_orders_unknown id s (tables w) Hid));
      destruct (call run w1) as [r w2] end.
    exact Hc.
  - intros Hroute. unfold app. rewrite Hroute.
    rewrite (delete_order_response _ _ _ _ _ Hauth).
    split_and!; [done..|].
    unfold delete_order, bind. rewrite Hauth.
    pose proof (select_batch_id_unknown id w Hid) as Hb.
    pose proof (query_tables
      (λ t, single ((λ row : Z * Order.t, Order.batch_id row.2) <$>
                    select (λ k _, bool_decide (k = id)) (t_orders t))) w) as Hq.
    fold (select_batch_id id) in Hq.
    destruct (select_batch_id id w) as [order w1]. simpl in Hb, Hq.
    subst w1. rewrite Hb.
    match goal with |- context [call ?run ?w1] =>
      pose proof (call_tables_unchanged run w1) as Hc;
      rewrite tables_advance in Hc;
      specialize (Hc (delete_orders_unknown id (tables w) Hid));
      destruct (call run w1) as [r w2] end.
    exact Hc.
Qed.

(** ** Creating orders *)

Lemma next_id_fresh {A} (table : gmap Z A) : table !! next_id table = None.
Proof.
  unfold next_id.
  assert (H : ∀ k, is_Some (table !! k) →
              k ≤ map_fold (λ k _ top, Z.max k top) 0 table).
  { apply (map_fold_weak_ind (λ r (m : gmap Z A), ∀ k, is_Some (m !! k) → k ≤ r)).
    - intros k [x Hx]. by rewrite lookup_empty in Hx.
    - intros i x m r _ IH k Hk. destruct (decide (k = i)) as [->|Hne]; [lia|].
      rewrite lookup_insert_ne in Hk by done. specialize (IH k Hk). lia. }
  destruct (table !! _) eqn:Hk; [|done].
  assert (Hsome : is_Some (table !! (1 + map_fold (λ k _ top, Z.max k top) 0 table)))
    by (by eexists).
  apply H in Hsome. lia.
Qed.

(** The insert of the images of an order changes no order. *)
Lemma insert_order_images_orders orderId images w :
  orders (insert_order_images orderId images w).2 = orders w.
Proof.
  unfold insert_order_images, bind, call.
  destruct images as [[|img imgs]|]; try done.
  by destruct (next_fault w).
Qed.

Lemma insert_orders_cons auth batch data rest acc w :
  insert_orders auth batch (data :: rest) acc w =
  match call (insert_order (order_row data batch auth)) w with
  | (Ok orderId, w1) =>
      insert_orders auth batch rest (acc ++ [orderId])
        (insert_order_images orderId (OrderBody.images data) w1).2
  | (Err _, w1) => (None, w1)
  end.
Proof.
  simpl. unfold bind.
  destruct (call _ w) as [[orderId|m] w1]; [|done].
  by destruct (insert_order_images _ _ w1).
Qed.

Lemma insert_orders_app auth batch pre rest acc w :
  insert_orders auth batch (pre ++ rest) acc w =
  match insert_orders auth batch pre acc w with
  | (Some ids, w1) => insert_orders auth batch rest ids w1
  | (None, w1) => (None, w1)
  end.
Proof.
  revert acc w. induction pre as [|data pre IH]; intros acc w; [done|].
  rewrite <- app_comm_cons, !insert_orders_cons.
  destruct (call _ w) as [[orderId|m] w1]; [apply IH | done].
Qed.

(** What the loop does to the orders, however many of its calls fail. *)
Lemma insert_orders_spec auth batch items acc w :
  let r := insert_orders auth batch items acc w in
  (∀ k o, orders w !! k = Some o → orders r.2 !! k = Some o) ∧
  (∀ k o, created w r.2 k o →
     ∃ data, data ∈ items ∧ o = order_row data batch auth) ∧
  (∀ ids, r.1 = Some ids →
     ∃ new, ids = acc ++ new ∧ length new = length items ∧
       ∀ i data id, items !! i = Some data → new !! i = Some id →
         created w r.2 id (order_row data batch auth)).
Proof.
  revert acc w. induction items as [|data rest IH]; intros acc w.
  { simpl. split_and!; [done | by intros k o [-> [=]] |].
    intros ids [= <-]. exists []. by rewrite app_nil_r. }
  rewrite insert_orders_cons. unfold call.
  destruct (next_fault w) as [m|] eqn:Hfault.
  { simpl. split_and!; [done | | done].
    intros k o [Hnone Hsome]. simpl in Hsome. congruence. }
  unfold insert_order. cbn beta iota zeta.
  set (id := next_id (t_orders (tables w))).
  set (row := order_row data batch auth).
  set (w1 := advance w _).
  assert (Hw1 : orders w1 = <[id := row]> (orders w)) by done.
  pose proof (insert_order_images_orders id (OrderBody.images data) w1) as Hw2.
  set (w2 := (insert_order_images id (OrderBody.images data) w1).2) in *.
  pose proof (next_id_fresh (orders w)) as Hfresh.
  change (next_id (orders w)) with id in Hfresh.
  destruct (IH (acc ++ [id]) w2) as (Hkeep & Hnew & Hids).
  set (r := insert_orders auth batch rest (acc ++ [id]) w2) in *.
  assert (Hkeep' : ∀ k o, orders w !! k = Some o → orders r.2 !! k = Some o).
  { intros k o Hk. apply Hkeep. rewrite Hw2, Hw1.
    rewrite lookup_insert_ne; [done | congruence]. }
  split_and!; [done | |].
  - intros k o [Hk Hko]. destruct (decide (k = id)) as [->|Hne].
    + exists data. split; [apply elem_of_cons; by left|].
      assert (orders r.2 !! id = Some row) as Hrow
        by (apply Hkeep; by rewrite Hw2, Hw1, lookup_insert_eq).
      rewrite Hrow in Hko. by injection Hko as <-.
    + destruct (Hnew k o) as (data' & Hin & ->).
      { split; [|done]. by rewrite Hw2, Hw1, lookup_insert_ne. }
      exists data'. split; [apply elem_of_cons; by right | done].
  - intros ids Hr. destruct (Hids ids Hr) as (new & -> & Hlen & Hrows).
    exists (id :: new). split; [by rewrite <- app_assoc|].
    split; [simpl; by rewrite Hlen|].
    intros [|i] data' id' Hdata Hid'; simpl in Hdata, Hid'.
    + injection Hdata as <-. injection Hid' as <-.
      split; [done|]. apply Hkeep. by rewrite Hw2, Hw1, lookup_insert_eq.
    + destruct (Hrows i data' id' Hdata Hid') as [Hnone Hsome].
      split; [|done].
      destruct (orders w !! id') as [o|] eqn:Ho; [|done].
      assert (orders w2 !! id' = Some o); [|congruence].
      rewrite Hw2, Hw1. rewrite lookup_insert_ne; [done | congruence].
Qed.

Lemma insert_order_images_reliable orderId images w :
  reliable w → reliable (insert_order_images orderId images w).2.
Proof.
  intros Hw. unfold insert_order_images, bind.
  destruct images as [[|img imgs]|]; try done.
  rewrite call_run by by apply reliable_next_fault.
  by apply reliable_advance.
Qed.

(** With a database that answers, the loop collects one id per item. *)
Lemma insert_orders_reliable auth batch items acc w :
  reliable w → is_Some (insert_orders auth batch items acc w).1.
Proof.
  revert acc w. induction items as [|data rest IH]; intros acc w Hw;
    [by eexists|].
  rewrite insert_orders_cons, call_run by by apply reliable_next_fault.
  simpl. by apply IH, insert_order_images_reliable, reliable_advance.
Qed.

Lemma post_orders_run env req w auth body :
  getAuthClient env req = Some auth →
  post_orders body env req w =
  (match (insert_orders auth (batchId env body) (ordersData body) [] w).1 with
   | Some orderIds => json (JObj [("ids", JArr (JInt <$> orderIds))])
   | None => status_json 500 (error_body "Erro ao salvar pedidos.")
   end,
   (insert_orders auth (batchId env body) (ordersData body) [] w).2).
Proof.
  intros Hauth. unfold post_orders, bind. rewrite Hauth.
  by destruct (insert_orders _ _ _ _ w) as [[ids|] w1].
Qed.

Lemma new_batch_id_nonempty env : new_batch_id env ≠ "".
Proof. done. Qed.

Lemma integer_text_inj n m : integer_text n = integer_text m → n = m.
Proof.
  unfold integer_text. intros Heq.
  assert (Hnorm : ∀ z, NilZero.int_of_string
                         (NilZero.string_of_int (Z.to_int z))
                       = Some (Z.to_int z)).
  { intros z. apply NilZero.isi; destruct z as [|p|p]; simpl; try done;
      intros [= Hp]; by apply Unsigned.to_uint_nonnil in Hp. }
  apply (f_equal NilZero.int_of_string) in Heq.
  rewrite !Hnorm in Heq. injection Heq as Heq.
  by apply DecimalZ.to_int_inj.
Qed.

(** No digit is an underscore. *)
Lemma string_of_uint_underscore d :
  Forall (λ c, c ≠ "_"%char) (list_ascii_of_string (NilEmpty.string_of_uint d)).
Proof. induction d; simpl; constructor; done. Qed.

Lemma integer_text_underscore n :
  Forall (λ c, c ≠ "_"%char) (list_ascii_of_string (integer_text n)).
Proof.
  unfold integer_text.
  assert (Hu : ∀ d, Forall (λ c, c ≠ "_"%char)
                      (list_ascii_of_string (NilZero.string_of_uint d))).
  { intros d. destruct d; try apply string_of_uint_underscore.
    simpl. by repeat constructor. }
  destruct (Z.to_int n) as [d|d]; simpl; [apply Hu|].
  constructor; [done | apply Hu].
Qed.

(** A text without underscore is recovered from what follows it after an
    underscore. *)
Lemma app_underscore_inj t1 t2 s1 s2 :
  Forall (λ c, c ≠ "_"%char) (list_ascii_of_string t1) →
  Forall (λ c, c ≠ "_"%char) (list_ascii_of_string t2) →
  (t1 +:+ "_" +:+ s1 = t2 +:+ "_" +:+ s2)%string →
  t1 = t2 ∧ s1 = s2.
Proof.
  revert t2. induction t1 as [|c t1 IH]; intros [|c' t2] H1 H2 Heq.
  - by injection Heq.
  - injection Heq as Hc _. simpl in H2. apply Forall_cons in H2 as [Hne _].
    by destruct Hne.
  - injection Heq as Hc _. simpl in H1. apply Forall_cons in H1 as [Hne _].
    by destruct Hne.
  - injection Heq as -> Heq. simpl in H1, H2.
    apply Forall_cons in H1 as [_ H1]. apply Forall_cons in H2 as [_ H2].
    destruct (IH t2 H1 H2 Heq) as [-> ->]. done.
Qed.

(** The batch ids of two requests differ when the instants or the random
    suffixes do. *)
Lemma new_batch_id_inj env env' :
  new_batch_id env = new_batch_id env' →
  now env = now env' ∧ substring 2 9 (random env) = substring 2 9 (random env').
Proof.
  unfold new_batch_id. intros Heq.
  assert (Hcut : ∀ a b, ("batch_" +:+ a = "batch_" +:+ b)%string → a = b).
  { intros a b H. by injection H. }
  apply Hcut in Heq.
  apply app_underscore_inj in Heq as [Hnow Hsuffix];
    [| apply integer_text_underscore..].
  split; [by apply integer_text_inj | done].
Qed.

(** C4. In a request that creates orders, every row created has no batch
    id when the request holds exactly one order. When it holds two or more,
    one batch id is generated for the request, [batch_], the clock in
    milliseconds, [_] and up to nine characters of a random draw: it is not
    empty, every row created carries it, and when no stored order carries it
    already, the rows that carry it afterwards are exactly the rows
    created. The id differs from the one generated at any other instant or
    with any other random suffix. With a database that answers, the rows
    created are as many as the orders of the request. *)
Theorem post_orders_batch_id env req w auth body :
  getAuthClient env req = Some auth →
  route req = POST_orders body →
  let generated :=
    ("batch_" +:+ integer_text (now env) +:+ "_"
     +:+ substring 2 9 (random env))%string in
  (length (ordersData body) = 1%nat →
     ∀ k o, created w (app env req w).2 k o → Order.batch_id o = None) ∧
  ((2 ≤ length (ordersData body))%nat →
     generated ≠ ""%string ∧
     (∀ k o, created w (app env req w).2 k o →
        Order.batch_id o = Some generated) ∧
     ((∀ k o, orders w !! k = Some o → Order.batch_id o ≠ Some generated) →
      ∀ k o, orders (app env req w).2 !! k = Some o →
        (Order.batch_id o = Some generated ↔ created w (app env req w).2 k o))) ∧
  (∀ now' random',
     now' ≠ now env ∨ substring 2 9 random' ≠ substring 2 9 (random env) →
     ("batch_" +:+ integer_text now' +:+ "_" +:+ substring 2 9 random')%string
     ≠ generated) ∧
  (reliable w →
     ∃ ids, (app env req w).1 = json (JObj [("ids", JArr (JInt <$> ids))]) ∧
            length ids = length (ordersData body) ∧
            ∀ id, id ∈ ids → ∃ o, created w (app env req w).2 id o).
Proof.
  intros Hauth Hroute generated. unfold app. rewrite Hroute.
  rewrite (post_orders_run _ _ _ _ _ Hauth). cbn [fst snd].
  destruct (insert_orders_spec auth (batchId env body) (ordersData body) [] w)
    as (Hkeep & Hnew & Hids).
  change generated with (new_batch_id env).
  split_and!.
  - intros Hlen k o Hk. destruct (Hnew k o Hk) as (data & _ & ->).
    unfold batchId. by rewrite Hlen.
  - intros Hlen.
    assert (Hbatch : batchId env body = Some (new_batch_id env)).
    { unfold batchId.
      by destruct (Nat.ltb_spec 1 (length (ordersData body))); [|lia]. }
    assert (Hcreated : ∀ k o,
      created w (insert_orders auth (batchId env body) (ordersData body) [] w).2
        k o → Order.batch_id o = Some (new_batch_id env)).
    { intros k o Hk. destruct (Hnew k o Hk) as (data & _ & ->).
      by rewrite Hbatch. }
    split_and!; [apply new_batch_id_nonempty | exact Hcreated |].
    intros Hfresh k o Hk. split; [|apply Hcreated].
    intros Hid. split; [|done].
    destruct (orders w !! k) as [o0|] eqn:Hold; [|done].
    pose proof (Hkeep k o0 Hold) as Hk0. cbn [fst snd] in Hk0.
    assert (o0 = o) as -> by congruence.
    by destruct (Hfresh k o Hold).
  - intros now' random' Hother Heq.
    pose proof (new_batch_id_inj
                  {| getUser := getUser env; now := now'; tz := tz env;
                     random := random'; collate := collate env |} env Heq)
      as [Hnow Hsuffix].
    cbn [now random] in Hnow, Hsuffix. by destruct Hother.
  - intros Hw.
    destruct (insert_orders_reliable auth (batchId env body)
                (ordersData body) [] w Hw) as [ids Hrun].
    destruct (Hids ids Hrun) as (new & -> & Hlen & Hrows).
    exists new. rewrite Hrun. split_and!; [done..|].
    intros id (i & Hi)%list_elem_of_lookup.
    destruct (lookup_lt_is_Some_2 (ordersData body) i) as [data Hdata].
    { rewrite <- Hlen. by eapply lookup_lt_Some. }
    eexists. by eapply Hrows.
Qed.

(** C5. When the insert of row K of a creation request fails after the
    rows before it went through, the reply is 500 with the fixed message
    "Erro ao salvar pedidos.", which names no row; the rows before K stay
    stored as they were inserted, and no row that was there is lost. *)
Theorem post_orders_partial_failure
    env req w auth pre data post ids w1 message :
  getAuthClient env req = Some auth →
  route req = POST_orders (Many (pre ++ data :: post)) →
  insert_orders auth (batchId env (Many (pre ++ data :: post))) pre [] w
    = (Some ids, w1) →
  next_fault w1 = Some message →
  (app env req w).1 = status_json 500 (error_body "Erro ao salvar pedidos.") ∧
  same_rows w1 (app env req w).2 ∧
  length ids = length pre ∧
  (∀ i row id, pre !! i = Some row → ids !! i = Some id →
     created w (app env req w).2 id
       (order_row row (batchId env (Many (pre ++ data :: post))) auth)) ∧
  (∀ k o, orders w !! k = Some o → orders (app env req w).2 !! k = Some o).
Proof.
  intros Hauth Hroute Hpre Hfault. unfold app. rewrite Hroute.
  rewrite (post_orders_run _ _ _ _ _ Hauth).
  set (batch := batchId env (Many (pre ++ data :: post))) in *.
  change (ordersData (Many (pre ++ data :: post))) with (pre ++ data :: post).
  rewrite insert_orders_app, Hpre, insert_orders_cons.
  rewrite (call_fault _ _ _ Hfault). simpl.
  pose proof (insert_orders_spec auth batch pre [] w) as Hspec.
  rewrite Hpre in Hspec. simpl in Hspec.
  destruct Hspec as (Hkeep & _ & Hids).
  destruct (Hids ids eq_refl) as (new & Hnew & Hlen & Hrows).
  simpl in Hnew. subst new.
  split_and!; [done | apply tables_advance | done | | done].
  intros i row id Hrow Hid. by apply (Hrows i).
Qed.

(** ** Creating a customer *)

Lemma same_name_phone_spec name phone c :
  same_name_phone name phone c = true ↔
  Customer.name c = name ∧ Customer.phone c = phone.
Proof.
  unfold same_name_phone.
  by rewrite andb_true_iff, !bool_decide_eq_true.
Qed.

Lemma lookup_namesakes name phone table i c :
  namesakes name phone table !! i = Some c ↔
  table !! i = Some c ∧ Customer.name c = name ∧ Customer.phone c = phone.
Proof.
  unfold namesakes. rewrite map_lookup_filter_Some. simpl.
  by rewrite same_name_phone_spec.
Qed.

(** Under the uniqueness invariant a customer is the only one with its
    name and phone. *)
Lemma namesakes_unique table i c :
  unique_name_phone table → table !! i = Some c →
  namesakes (Customer.name c) (Customer.phone c) table = {[i := c]}.
Proof.
  intros Huniq Hi. apply map_eq. intros k.
  destruct (decide (k = i)) as [->|Hne].
  - rewrite lookup_singleton_eq. by apply lookup_namesakes.
  - rewrite lookup_singleton_ne by done.
    destruct (namesakes _ _ table !! k) as [c'|] eqn:Hk; [|done].
    apply lookup_namesakes in Hk as (Hk & Hname & Hphone).
    destruct Hne. by eapply Huniq.
Qed.

(** The reply to a customer whose name and phone are those of the single
    existing row [i], once the existence check is answered. *)
Lemma post_customers_existing env req w auth form i c :
  getAuthClient env req = Some auth →
  next_fault w = None →
  namesakes (CustomerBody.name form) (CustomerBody.phone form) (customers w)
    = {[i := c]} →
  post_customers form env req w =
  (status_json 400
     (error_body "Cliente já cadastrado com este nome e telefone."),
   advance w (tables w)).
Proof.
  intros Hauth Hfault Hsakes. unfold post_customers, bind. rewrite Hauth.
  unfold query at 1. rewrite call_run by done. simpl.
  unfold select.
  change (filter _ (customers w)) with
    (namesakes (CustomerBody.name form) (CustomerBody.phone form) (customers w)).
  by rewrite Hsakes, map_to_list_singleton.
Qed.

(** With two or more rows of the same name and phone the existence check
    finds no single row: its error is not read and the insert is made. *)
Lemma post_customers_several env req w auth form i j c c' :
  getAuthClient env req = Some auth →
  next_fault w = None →
  i ≠ j →
  namesakes (CustomerBody.name form) (CustomerBody.phone form) (customers w)
    !! i = Some c →
  namesakes (CustomerBody.name form) (CustomerBody.phone form) (customers w)
    !! j = Some c' →
  post_customers form env req w =
  let row := {| Customer.name := CustomerBody.name form;
                Customer.phone := CustomerBody.phone form;
                Customer.email := CustomerBody.email form;
                Customer.company := CustomerBody.company form;
                Customer.user_id := uid auth |} in
  let w1 := advance w (tables w) in
  match next_fault w1 with
  | Some message => (status_json 500 (error_body message), advance w1 (tables w1))
  | None => (json (JObj [("id", JInt (next_id (customers w)))]),
             advance w1 (insert_customer row (tables w)).2)
  end.
Proof.
  intros Hauth Hfault Hij Hi Hj. unfold post_customers, bind. rewrite Hauth.
  unfold query at 1. rewrite call_run by done. cbn [fst snd].
  unfold select.
  change (filter _ (t_customers (tables w))) with
    (namesakes (CustomerBody.name form) (CustomerBody.phone form) (customers w)).
  apply elem_of_map_to_list in Hi, Hj.
  destruct (map_to_list (namesakes _ _ (customers w))) as [|x [|y rows]].
  - by apply not_elem_of_nil in Hi.
  - apply list_elem_of_singleton in Hi, Hj. congruence.
  - cbn [fmap list_fmap maybeSingle data].
    unfold call. by destruct (next_fault (advance w (tables w))).
Qed.

(** C9. When a customer with the same name and phone exists already and the
    existence check is answered: if that customer is the only one with this
    name and phone, creating it again is refused with 400 and a JSON error
    body, and no row is inserted or changed; if another row has the same
    name and phone too, the check finds no single row, and once the insert
    is answered the reply is 200 with a new id and the customer is stored
    once more. *)
Theorem post_customers_duplicate env req w auth form i c :
  getAuthClient env req = Some auth →
  route req = POST_customers form →
  next_fault w = None →
  customers w !! i = Some c →
  Customer.name c = CustomerBody.name form →
  Customer.phone c = CustomerBody.phone form →
  ((∀ j c', customers w !! j = Some c' →
      Customer.name c' = CustomerBody.name form →
      Customer.phone c' = CustomerBody.phone form → j = i) →
   status_code (app env req w).1 = 400 ∧
   is_Some (field "error" (body (app env req w).1)) ∧
   same_rows w (app env req w).2) ∧
  (∀ j c', j ≠ i → customers w !! j = Some c' →
     Customer.name c' = CustomerBody.name form →
     Customer.phone c' = CustomerBody.phone form →
     next_fault (advance w (tables w)) = None →
     (app env req w).1 = json (JObj [("id", JInt (next_id (customers w)))]) ∧
     customers w !! next_id (customers w) = None ∧
     customers (app env req w).2 =
       <[next_id (customers w) :=
           {| Customer.name := CustomerBody.name form;
              Customer.phone := CustomerBody.phone form;
              Customer.email := CustomerBody.email form;
              Customer.company := CustomerBody.company form;
              Customer.user_id := uid auth |}]> (customers w)).
Proof.
  intros Hauth Hroute Hfault Hi Hname Hphone.
  unfold app. rewrite Hroute. split.
  - intros Honly.
    rewrite (post_customers_existing env req w auth form i c Hauth Hfault).
    + split_and!; [done | by eexists | apply tables_advance].
    + apply map_eq. intros k.
      destruct (decide (k = i)) as [->|Hne].
      * rewrite lookup_singleton_eq. by apply lookup_namesakes.
      * rewrite lookup_singleton_ne by done.
        destruct (namesakes _ _ (customers w) !! k) as [c'|] eqn:Hk; [|done].
        apply lookup_namesakes in Hk as (Hk & Hname' & Hphone').
        destruct Hne. by eapply Honly.
  - intros j c' Hji Hj Hname' Hphone' Hinsert.
    rewrite (post_customers_several env req w auth form i j c c' Hauth Hfault)
      by (done || by apply lookup_namesakes).
    cbn zeta. rewrite Hinsert.
    split_and!; [done | apply next_id_fresh | done].
Qed.

(** X26. The same customer submitted twice, the database answering and no
    two stored customers sharing name and phone: whatever the first request
    did, the second is refused with 400 and leaves the rows as the first
    left them. *)
Corollary post_customers_twice env req w auth form :
  getAuthClient env req = Some auth →
  reliable w →
  unique_name_phone (customers w) →
  post_customers form env req (post_customers form env req w).2 =
  (status_json 400
     (error_body "Cliente já cadastrado com este nome e telefone."),
   advance (post_customers form env req w).2
     (tables (post_customers form env req w).2)).
Proof.
  intros Hauth Hw Huniq.
  set (name := CustomerBody.name form). set (phone := CustomerBody.phone form).
  destruct (map_choose_or_empty (namesakes name phone (customers w)))
    as [(i & c & Hic)|Hnone].
  - pose proof Hic as (Hi & Hname & Hphone)%lookup_namesakes.
    assert (Hsakes : namesakes name phone (customers w) = {[i := c]}).
    { rewrite <- Hname, <- Hphone. by apply namesakes_unique. }
    rewrite (post_customers_existing env req w auth form i c Hauth
               (reliable_next_fault _ Hw) Hsakes).
    simpl. apply (post_customers_existing _ _ _ _ _ i c Hauth).
    + by apply reliable_next_fault, reliable_advance.
    + done.
  - set (row := {| Customer.name := name; Customer.phone := phone;
                   Customer.email := CustomerBody.email form;
                   Customer.company := CustomerBody.company form;
                   Customer.user_id := uid auth |}).
    assert (Hfirst : (post_customers form env req w).2 =
              advance (advance w (tables w))
                (insert_customer row (tables w)).2).
    { unfold post_customers, bind. rewrite Hauth.
      unfold query at 1. rewrite call_run by by apply reliable_next_fault.
      simpl. unfold select.
      change (filter _ (customers w)) with (namesakes name phone (customers w)).
      rewrite Hnone, map_to_list_empty. simpl.
      rewrite call_run
        by by apply reliable_next_fault, reliable_advance.
      done. }
    rewrite Hfirst.
    apply (post_customers_existing _ _ _ _ _ (next_id (customers w)) row Hauth).
    + by apply reliable_next_fault, reliable_advance, reliable_advance.
    + simpl. fold name phone. unfold namesakes.
      rewrite map_filter_insert_True
        by (simpl; by apply same_name_phone_spec).
      fold (namesakes name phone (customers w)). by rewrite Hnone.
Qed.

(** ** Monthly revenue *)

(** With a database that answers, the monthly revenue of the statistics is
    the sum over the orders dated from [startOfMonth] to [endOfMonth]. *)
Lemma get_stats_monthlyRevenue env req w auth :
  getAuthClient env req = Some auth →
  reliable w →
  field "monthlyRevenue" (body (get_stats env req w).1) =
  Some (JNum (revenue (Ok ((λ row : Z * Order.t, Order.total_price row.2) <$>
    select (λ _ o, dated_between (startOfMonth env) (endOfMonth env) o)
      (orders w))))).
Proof.
  intros Hauth Hw. unfold get_stats, bind. rewrite Hauth.
  unfold count_orders, count_customers, select_total_price, query.
  repeat (rewrite call_run
            by (apply reliable_next_fault; repeat apply reliable_advance;
                exact Hw);
          cbn beta iota zeta delta [fst snd]).
  done.
Qed.

Lemma civil_from_days_march_2024 z :
  19783 ≤ z ≤ 19813 → civil_from_days z = (2024, 3, z - 19782).
Proof.
  intros Hz.
  assert (Hall : forallb
            (λ z, bool_decide (civil_from_days z = (2024, 3, z - 19782)))
            (seqZ 19783 31) = true) by (vm_compute; reflexivity).
  rewrite forallb_forall in Hall.
  eapply bool_decide_eq_true_1, Hall, list_elem_of_In, elem_of_seqZ. lia.
Qed.

(** On a server whose clock is on UTC, the range of the month is the
    calendar month of [now]: here for the instants of March 2024. *)
Lemma month_range_utc env :
  tz env = 0 →
  March.first_instant ≤ now env ≤ March.last_instant →
  startOfMonth env = "2024-03-01" ∧ endOfMonth env = "2024-03-31".
Proof.
  intros Htz Hnow.
  assert (Hday : 19783 ≤ now env / msPerDay ≤ 19813).
  { unfold March.first_instant, March.last_instant in Hnow. unfold msPerDay.
    split; [apply Z.div_le_lower_bound; lia|].
    apply Z.lt_succ_r, Z.div_lt_upper_bound; lia. }
  pose proof (civil_from_days_march_2024 _ Hday) as Hcivil.
  split.
  - unfold startOfMonth, currentMonth, toISOString. rewrite Hcivil.
    reflexivity.
  - unfold endOfMonth, getFullYear, getMonth, LocalTime.
    rewrite Htz, Z.mul_0_l, Z.add_0_r, Hcivil. reflexivity.
Qed.

(** The example of the specification on a UTC server: at every instant of
    March 2024 the monthly revenue is 150. *)
Lemma get_stats_march_utc env :
  tz env = 0 →
  getUser env = March.provider →
  March.first_instant ≤ now env ≤ March.last_instant →
  field "monthlyRevenue" (body (app env March.request March.world).1) =
  Some (JNum 150).
Proof.
  intros Htz Huser Hnow. unfold app. simpl.
  rewrite (get_stats_monthlyRevenue env March.request March.world
             {| uid := "user-1" |}).
  - destruct (month_range_utc env Htz Hnow) as [-> ->].
    vm_compute. reflexivity.
  - unfold getAuthClient. simpl. by rewrite Huser.
  - constructor.
Qed.

(** C6 at a server one hour east of UTC, on 2024-03-15 at noon UTC: the
    instant lies in March 2024 for UTC and for the server alike, the last
    day of the range is 2024-03-30, the order of 2024-03-31 is left out
    and the monthly revenue is 100. *)
Theorem get_stats_march_east_of_utc :
  March.first_instant ≤ now March.east ≤ March.last_instant ∧
  getMonth (tz March.east) (now March.east) = 2 ∧
  startOfMonth March.east = "2024-03-01" ∧
  endOfMonth March.east = "2024-03-30" ∧
  field "monthlyRevenue" (body (app March.east March.request March.world).1)
    = Some (JNum 100).
Proof. split; [done|]. vm_compute. by repeat split. Qed.

End Handlers.

(** * The statements at concrete inputs *)

Section Instances.

Import Api.

(** The example of the specification: two items of one purchase, 2 at 10.00
    and 1 at 5.00, make one row of the grouped view, with total 25.00. *)
Example groupedOrders_two_items getTime :
  ∃ row, View.groupedOrders getTime View.Sample.two_items = Some [row] ∧
         View.is_group row = true ∧
         View.service_type (View.order row) = "DIVERSOS" ∧
         View.total_price (View.order row) = 25%float ∧
         View.batch_items (View.order row) = Some View.Sample.two_items.
Proof. eexists. split; [reflexivity|]. by repeat split. Qed.

(** C1 on the two items of the sample purchase: one row. *)
Lemma groupedOrders_rows_witness :
  ∃ rows,
    View.groupedOrders (λ _, 0%float) View.Sample.two_items = Some rows ∧
    length rows = 1%nat.
Proof.
  destruct (groupedOrders_rows (λ _, 0%float) View.Sample.two_items)
    as (rows & Hrun & Hlen & _).
  - intros o b Ho Hb.
    apply (bool_decide_eq_false_1 (b ∈ View.Object_prototype)).
    repeat (apply elem_of_cons in Ho as [-> | Ho];
            [injection Hb as <-; reflexivity|]).
    by apply not_elem_of_nil in Ho.
  - exists rows. split; [exact Hrun|]. rewrite Hlen. reflexivity.
Defined.

(** Two orders whose batch id is the empty text: none of them has a null
    batch id and the batch ids hold one distinct value, yet the view has
    two rows, whatever [Date] makes of the dates. *)
Lemma groupedOrders_blank_batch_ids :
  length (filter (λ o, View.batch_id o = None) View.Sample.blank) = 0%nat ∧
  size (list_to_set (omap View.batch_id View.Sample.blank) : gset string)
    = 1%nat ∧
  ∀ getTime, ∃ rows,
    View.groupedOrders getTime View.Sample.blank = Some rows ∧
    length rows = 2%nat ∧
    length rows ≠
      (length (filter (λ o, View.batch_id o = None) View.Sample.blank)
       + size (list_to_set (omap View.batch_id View.Sample.blank)
                 : gset string))%nat.
Proof.
  split_and!; [reflexivity..|]. intros getTime.
  exists (View.sort getTime (View.single <$> View.Sample.blank)).
  assert (Hlen : length (View.sort getTime (View.single <$> View.Sample.blank))
                 = 2%nat) by (by rewrite sort_perm).
  split_and!; [reflexivity | exact Hlen |]. rewrite Hlen. by vm_compute.
Qed.

(** Two orders of a batch called [constructor]: the memo throws. *)
Example groupedOrders_constructor getTime :
  View.groupedOrders getTime View.Sample.inherited = None.
Proof. reflexivity. Qed.

(** C7 on the sample database: a delete with a token the identity provider
    does not know is answered 401 and nothing is touched. *)
Lemma unauthenticated_401_witness :
  status_code (app March.utc (Sample.stale (DELETE_order 1)) Sample.world).1 = 401 ∧
  (app March.utc (Sample.stale (DELETE_order 1)) Sample.world).2 = Sample.world.
Proof.
  destruct (unauthenticated_401 March.utc (Sample.stale (DELETE_order 1))
              Sample.world) as (Hstatus & _ & Hworld & _).
  - right. reflexivity.
  - split; [exact Hstatus | exact Hworld].
Defined.

(** C2 on the sample database: after the status of order 1 is set, order 1
    and every order of its batch have the new status. *)
Lemma patch_order_status_batch_witness :
  (app March.utc (Sample.request (PATCH_order_status 1 "Em Produção"))
     Sample.world).1 = success ∧
  ∀ k o,
    orders (app March.utc (Sample.request (PATCH_order_status 1 "Em Produção"))
              Sample.world).2 !! k = Some o →
    k = 1 ∨ (batch_key (Sample.order (Some "batch_1709900000000_k2j5x9q0a")) ≠ None ∧
             Order.batch_id o = Some "batch_1709900000000_k2j5x9q0a") →
    Order.status o = "Em Produção".
Proof.
  destruct (patch_order_status_batch March.utc
              (Sample.request (PATCH_order_status 1 "Em Produção"))
              Sample.world Sample.auth 1 "Em Produção")
    as (Hresponse & _ & _ & Hstatus).
  - reflexivity.
  - reflexivity.
  - constructor.
  - split; [exact Hresponse|].
    exact (Hstatus (Sample.order (Some "batch_1709900000000_k2j5x9q0a")) eq_refl).
Defined.

(** C10 on the sample database: the status Arquivado is stored on order 2
    and on the other order of its batch. *)
Lemma patch_order_status_any_string_witness :
  (app March.utc (Sample.request (PATCH_order_status 2 "Arquivado"))
     Sample.world).1 = success ∧
  Order.status <$>
    orders (app March.utc (Sample.request (PATCH_order_status 2 "Arquivado"))
              Sample.world).2 !! 1 = Some "Arquivado" ∧
  Order.status <$>
    orders (app March.utc (Sample.request (PATCH_order_status 2 "Arquivado"))
              Sample.world).2 !! 2 = Some "Arquivado".
Proof.
  destruct (patch_order_status_any_string March.utc
              (Sample.request (PATCH_order_status 2 "Arquivado"))
              Sample.world Sample.auth 2 "Arquivado")
    as (Hresponse & Hstored).
  - reflexivity.
  - reflexivity.
  - assert (Hw : reliable Sample.world) by constructor.
    pose proof (Hstored Hw _ eq_refl) as Hrow.
    split; [exact Hresponse|]. split.
    + destruct (Hrow 1 (Sample.order (Some "batch_1709900000000_k2j5x9q0a")))
        as [-> _]; [reflexivity | | reflexivity].
      right. split; [discriminate | reflexivity].
    + destruct (Hrow 2 (Sample.order (Some "batch_1709900000000_k2j5x9q0a")))
        as [-> _]; [reflexivity | | reflexivity].
      left. reflexivity.
Defined.

(** C3 on the sample database: deleting order 2 deletes order 1 of the same
    batch too. *)
Lemma delete_order_batch_witness :
  (app March.utc (Sample.request (DELETE_order 2)) Sample.world).1 = success ∧
  orders (app March.utc (Sample.request (DELETE_order 2)) Sample.world).2 !! 1
    = None ∧
  orders (app March.utc (Sample.request (DELETE_order 2)) Sample.world).2 !! 2
    = None.
Proof.
  destruct (delete_order_batch March.utc (Sample.request (DELETE_order 2))
              Sample.world Sample.auth 2)
    as (Hresponse & _ & _ & Hgone).
  - reflexivity.
  - reflexivity.
  - constructor.
  - pose proof (Hgone _ eq_refl) as Hrow.
    split; [exact Hresponse|]. split.
    + apply (Hrow 1 (Sample.order (Some "batch_1709900000000_k2j5x9q0a")));
        [reflexivity|].
      right. split; [discriminate | reflexivity].
    + apply (Hrow 2 (Sample.order (Some "batch_1709900000000_k2j5x9q0a")));
        [reflexivity|].
      left. reflexivity.
Defined.

(** C4 on the sample database: the rows of a request with two orders carry
    the batch id generated for it, and no other row does; the row of a
    request with one order carries none. *)
Lemma post_orders_batch_id_witness :
  (∀ k o,
     orders
       (app March.utc
          (Sample.request (POST_orders (Many [Sample.banner; Sample.sticker])))
          Sample.world).2 !! k = Some o →
     (Order.batch_id o = Some "batch_1710504000000_4fzyo82mv" ↔
      created Sample.world
        (app March.utc
           (Sample.request (POST_orders (Many [Sample.banner; Sample.sticker])))
           Sample.world).2 k o)) ∧
  (∀ k o,
     created Sample.world
       (app March.utc (Sample.request (POST_orders (One Sample.card)))
          Sample.world).2 k o →
     Order.batch_id o = None).
Proof.
  split.
  - destruct (post_orders_batch_id March.utc
                (Sample.request (POST_orders (Many [Sample.banner; Sample.sticker])))
                Sample.world Sample.auth (Many [Sample.banner; Sample.sticker]))
      as (_ & Hmany & _); [reflexivity | reflexivity |].
    destruct Hmany as (_ & _ & Hexact); [simpl; lia|].
    apply Hexact. intros k o Hk Hid.
    change (orders Sample.world)
      with ({[ 1 := Sample.order (Some "batch_1709900000000_k2j5x9q0a");
               2 := Sample.order (Some "batch_1709900000000_k2j5x9q0a");
               3 := Sample.order None ]} : gmap Z Order.t) in Hk.
    apply lookup_insert_Some in Hk as [[_ <-] | [_ Hk]]; [discriminate Hid|].
    apply lookup_insert_Some in Hk as [[_ <-] | [_ Hk]]; [discriminate Hid|].
    apply lookup_singleton_Some in Hk as [_ <-]. discriminate Hid.
  - destruct (post_orders_batch_id March.utc
                (Sample.request (POST_orders (One Sample.card)))
                Sample.world Sample.auth (One Sample.card))
      as (Hone & _ & _); [reflexivity | reflexivity |].
    apply Hone. reflexivity.
Defined.

(** The generated batch id is not checked against the stored ones: at the
    same millisecond and with the same random draw as an earlier request,
    the rows created join the batch of that request. *)
Example post_orders_batch_id_taken :
  Order.batch_id <$>
    orders (app March.utc
              (Sample.request (POST_orders (Many [Sample.banner; Sample.sticker])))
              Sample.same_draw).2 !! 2
  = Order.batch_id <$> orders Sample.same_draw !! 1.
Proof. reflexivity. Qed.

(** C5 on the sample database: of three orders the second fails to insert;
    the reply is the fixed 500, and the first order stays stored as row 4. *)
Lemma post_orders_partial_failure_witness :
  (app March.utc
     (Sample.request (POST_orders (Many [Sample.banner; Sample.sticker; Sample.card])))
     Sample.failing).1
    = status_json 500 (error_body "Erro ao salvar pedidos.") ∧
  orders (app March.utc
     (Sample.request (POST_orders (Many [Sample.banner; Sample.sticker; Sample.card])))
     Sample.failing).2 !! 4
    = Some (order_row Sample.banner (Some "batch_1710504000000_4fzyo82mv")
              Sample.auth).
Proof.
  destruct (post_orders_partial_failure March.utc
              (Sample.request
                 (POST_orders (Many [Sample.banner; Sample.sticker; Sample.card])))
              Sample.failing Sample.auth
              [Sample.banner] Sample.sticker [Sample.card] [4]
              (insert_orders Sample.auth (Some "batch_1710504000000_4fzyo82mv")
                 [Sample.banner] [] Sample.failing).2
              "connection lost")
    as (Hresponse & _ & _ & Hrows & _).
  - reflexivity.
  - reflexivity.
  - vm_compute. reflexivity.
  - vm_compute. reflexivity.
  - split; [exact Hresponse|].
    exact (proj2 (Hrows 0%nat Sample.banner 4 eq_refl eq_refl)).
Defined.

(** An authenticated status update, and an authenticated delete, of an
    order id that does not exist are not answered 404. *)
Lemma unknown_order_id_not_404 :
  getAuthClient March.utc (Sample.request (PATCH_order_status 9 "Finalizado"))
    = Some Sample.auth ∧
  orders Sample.world !! 9 = None ∧
  status_code (app March.utc (Sample.request (PATCH_order_status 9 "Finalizado"))
                 Sample.world).1 ≠ 404 ∧
  status_code (app March.utc (Sample.request (DELETE_order 9)) Sample.world).1
    ≠ 404.
Proof. vm_compute. by repeat split. Qed.

(** C8 on the sample database: order 9 does not exist; reading it is
    answered 404, setting its status is answered [{success: true}]. *)
Lemma unknown_order_id_witness :
  status_code (app March.utc (Sample.request (GET_order 9)) Sample.world).1 = 404 ∧
  (app March.utc (Sample.request (PATCH_order_status 9 "Finalizado"))
     Sample.world).1 = success.
Proof.
  split.
  - destruct (unknown_order_id March.utc (Sample.request (GET_order 9))
                Sample.world Sample.auth 9) as (Hget & _ & _);
      [reflexivity | reflexivity |].
    exact (proj1 (Hget eq_refl)).
  - destruct (unknown_order_id March.utc
                (Sample.request (PATCH_order_status 9 "Finalizado"))
                Sample.world Sample.auth 9) as (_ & Hpatch & _);
      [reflexivity | reflexivity |].
    exact (proj1 (Hpatch "Finalizado" eq_refl)).
Defined.

Lemma unique_name_phone_singleton i c : unique_name_phone {[ i := c ]}.
Proof.
  intros j k c1 c2 [-> _]%lookup_singleton_Some [-> _]%lookup_singleton_Some.
  done.
Qed.

(** Where two customers already share name and phone, a third with the
    same name and phone is not refused with 400: it is stored, under a new
    id. *)
Lemma post_customers_duplicate_not_400 :
  getAuthClient March.utc (Sample.request (POST_customers Sample.ana_again))
    = Some Sample.auth ∧
  customers Sample.two_anas !! 1 = Some Sample.ana ∧
  Customer.name Sample.ana = CustomerBody.name Sample.ana_again ∧
  Customer.phone Sample.ana = CustomerBody.phone Sample.ana_again ∧
  status_code (app March.utc (Sample.request (POST_customers Sample.ana_again))
                 Sample.two_anas).1 ≠ 400 ∧
  customers Sample.two_anas !! 3 = None ∧
  Customer.phone <$>
    customers (app March.utc (Sample.request (POST_customers Sample.ana_again))
                 Sample.two_anas).2 !! 3 = Some "11999990000"%string.
Proof. vm_compute. by repeat split. Qed.

(** C9 on the sample databases: where Ana is registered once, registering
    Ana with the same phone again is answered 400 and no row changes; where
    she is registered twice already, it is answered 200 with the id 3. *)
Lemma post_customers_duplicate_witness :
  (status_code (app March.utc (Sample.request (POST_customers Sample.ana_again))
                  Sample.world).1 = 400 ∧
   customers (app March.utc (Sample.request (POST_customers Sample.ana_again))
                Sample.world).2 = customers Sample.world) ∧
  (app March.utc (Sample.request (POST_customers Sample.ana_again))
     Sample.two_anas).1 = json (JObj [("id", JInt 3)]).
Proof.
  split.
  - destruct (post_customers_duplicate March.utc
                (Sample.request (POST_customers Sample.ana_again))
                Sample.world Sample.auth Sample.ana_again 1 Sample.ana)
      as [Honly _];
      [reflexivity | reflexivity | reflexivity | reflexivity | reflexivity
      | reflexivity |].
    destruct Honly as (Hstatus & _ & Hrows).
    + intros j c' Hj _ _.
      change (customers Sample.world)
        with ({[ 1 := Sample.ana ]} : gmap Z Customer.t) in Hj.
      by apply lookup_singleton_Some in Hj as [<- _].
    + split; [exact Hstatus|]. exact (f_equal t_customers Hrows).
  - destruct (post_customers_duplicate March.utc
                (Sample.request (POST_customers Sample.ana_again))
                Sample.two_anas Sample.auth Sample.ana_again 1 Sample.ana)
      as [_ Hseveral];
      [reflexivity | reflexivity | reflexivity | reflexivity | reflexivity
      | reflexivity |].
    destruct (Hseveral 2 Sample.ana) as (Hreply & _ & _);
      [discriminate | reflexivity | reflexivity | reflexivity | reflexivity |].
    exact Hreply.
Defined.

(** Where two rows already have the same name and phone, [maybeSingle] gives
    no row and the insert of a third goes through. *)
Example post_customers_after_duplicates :
  (app March.utc (Sample.request (POST_customers Sample.ana_again))
     Sample.two_anas).1 = json (JObj [("id", JInt 3)]) ∧
  Customer.name <$>
    customers (app March.utc (Sample.request (POST_customers Sample.ana_again))
                 Sample.two_anas).2 !! 3 = Some "Ana".
Proof. vm_compute. by split. Qed.

End Instances.

(** * More facts about the handlers *)

Section Reading.

Import Api.

Implicit Types (env : Env) (req : Request) (w : World) (auth : User).

Lemma preserves_ret {A} (a : A) : preserves_rows (ret a).
Proof. by intros w. Qed.

Lemma preserves_bind {A B} (m : M A) (k : A → M B) :
  preserves_rows m → (∀ a, preserves_rows (k a)) → preserves_rows (bind m k).
Proof.
  intros Hm Hk w. unfold bind. specialize (Hm w).
  destruct (m w) as [a w1]. simpl in Hm. by rewrite Hk.
Qed.

Lemma preserves_query {A} (read : Tables → Result A) : preserves_rows (query read).
Proof. intros w. by rewrite query_tables, tables_advance. Qed.

Lemma makes_ret {A} (a : A) : makes_calls 0 (ret a).
Proof. intros w. simpl. lia. Qed.

Lemma makes_bind {A B} n k (m : M A) (f : A → M B) :
  makes_calls n m → (∀ a, makes_calls k (f a)) → makes_calls (n + k) (bind m f).
Proof.
  intros Hm Hf w. unfold bind. specialize (Hm w).
  destruct (m w) as [a w1]. simpl in Hm. rewrite Hf. lia.
Qed.

Lemma makes_call {A} (run : Tables → Result A * Tables) : makes_calls 1 (call run).
Proof.
  intros w. unfold call. destruct (next_fault w); [simpl; lia|].
  destruct (run (tables w)). simpl. lia.
Qed.

Lemma preserves_trends env months : preserves_rows (trends env months).
Proof.
  induction months as [|i months IH]; simpl; [apply preserves_ret|].
  apply preserves_bind.
  - unfold trend, select_total_price.
    apply preserves_bind; [apply preserves_query | intros; apply preserves_ret].
  - intros t. apply preserves_bind; [done | intros; apply preserves_ret].
Qed.

Lemma makes_trends env months : makes_calls (length months) (trends env months).
Proof.
  induction months as [|i months IH]; simpl; [apply makes_ret|].
  change (S (length months)) with (1 + length months)%nat.
  apply makes_bind.
  - unfold trend, select_total_price. change 1%nat with (1 + 0)%nat.
    apply makes_bind; [apply makes_call | intros; apply makes_ret].
  - intros t. rewrite <- (Nat.add_0_r (length months)).
    apply makes_bind; [done | intros; apply makes_ret].
Qed.

Ltac preserves_step :=
  first
    [ apply preserves_ret
    | apply preserves_query
    | apply preserves_trends
    | apply preserves_bind; [| intros ?]
    | match goal with
      | |- preserves_rows (match ?x with _ => _ end) => destruct x
      | |- preserves_rows (if ?x then _ else _) => destruct x
      end ].

Lemma preserves_get_order id env req : preserves_rows (get_order id env req).
Proof.
  unfold get_order. destruct (getAuthClient env req); [|apply preserves_ret].
  apply preserves_bind; [apply preserves_query|]. intros [[[orderData customer] images]|m];
    [|apply preserves_ret].
  repeat preserves_step.
Qed.

Lemma preserves_reading env req :
  reads_only (route req) = true → preserves_rows (app env req).
Proof.
  intros Hget. unfold app.
  destruct (route req); try discriminate Hget.
  - unfold get_customers. repeat preserves_step.
  - unfold get_orders. repeat preserves_step.
  - apply preserves_get_order.
  - unfold get_stats, count_orders, count_customers, select_total_price.
    repeat preserves_step.
  - unfold get_billing_trends. repeat preserves_step.
  - unfold get_billing_distribution, count_orders. repeat preserves_step.
Qed.

(** X1. A [GET] request never changes a row: whatever the route reads,
    whoever asks and whichever calls fail, customers, orders and images are
    afterwards what they were. *)
Theorem get_routes_change_nothing env req w :
  reads_only (route req) = true →
  same_rows w (app env req w).2.
Proof. intros Hget. by apply preserves_reading. Qed.

Ltac makes_step :=
  first
    [ apply makes_call
    | apply makes_trends
    | match goal with
      | |- makes_calls (S ?n) (bind ?m ?k) =>
          change (S n) with (1 + n)%nat; apply makes_bind; [| intros ?]
      | |- makes_calls 0 (match ?x with _ => _ end) => destruct x
      | |- makes_calls 1 (match ?x with _ => _ end) => destruct x
      end
    | apply makes_ret ].

Lemma makes_fixed_calls env req auth n :
  getAuthClient env req = Some auth →
  fixed_calls (route req) = Some n →
  makes_calls n (app env req).
Proof.
  intros Hauth Hn. unfold app.
  destruct (route req); simpl in Hn; try discriminate Hn; injection Hn as <-.
  - unfold get_customers. rewrite Hauth. unfold query. repeat makes_step.
  - unfold delete_customer. rewrite Hauth. repeat makes_step.
  - unfold get_orders. rewrite Hauth. unfold query. repeat makes_step.
  - unfold patch_order_status, select_batch_id, query. rewrite Hauth.
    repeat makes_step.
  - unfold delete_order, select_batch_id, query. rewrite Hauth.
    repeat makes_step.
  - unfold get_stats, count_orders, count_customers, select_total_price, query.
    rewrite Hauth. repeat makes_step.
  - unfold get_billing_trends. rewrite Hauth.
    change 6%nat with (length [5; 4; 3; 2; 1; 0] + 0)%nat.
    apply makes_bind; [apply makes_trends | intros; apply makes_ret].
  - unfold get_billing_distribution, count_orders, query. rewrite Hauth.
    repeat makes_step.
Qed.

(** X2. Past the gate the handlers do not stop at a call that fails: the
    lists of customers and of orders and the delete of a customer make one
    call of the database client, the status update and the delete of an
    order and the billing distribution two, the statistics five and the
    billing trends six, whatever the calls answer. *)
Theorem calls_of_a_request env req w auth n :
  getAuthClient env req = Some auth →
  fixed_calls (route req) = Some n →
  calls (app env req w).2 = (calls w + n)%nat.
Proof. intros Hauth Hn. by eapply makes_fixed_calls. Qed.

End Reading.

Section Writing.

Import Api.

Implicit Types (env : Env) (req : Request) (w : World) (auth : User).

(** What a status update does to the rows, on every path: nothing, or one
    update of the orders. *)
Lemma patch_order_status_rows id s env req w :
  tables (patch_order_status id s env req w).2 = tables w ∨
  ∃ P, tables (patch_order_status id s env req w).2
       = (update_orders P s (tables w)).2.
Proof.
  unfold patch_order_status. destruct (getAuthClient env req); [|by left].
  unfold bind.
  pose proof (preserves_query
    (λ t, single ((λ row : Z * Order.t, Order.batch_id row.2) <$>
                  select (λ k _, bool_decide (k = id)) (t_orders t))) w) as Hq.
  fold (select_batch_id id) in Hq.
  destruct (select_batch_id id w) as [order w1]. simpl in Hq.
  assert (Hcall : ∀ P,
    tables (call (update_orders P s) w1).2 = tables w ∨
    tables (call (update_orders P s) w1).2 = (update_orders P s (tables w)).2).
  { intros P. destruct (next_fault w1) as [m|] eqn:Hfault.
    - left. rewrite (call_fault _ _ _ Hfault). cbn [snd].
      by rewrite tables_advance.
    - right. rewrite (call_run _ _ Hfault). cbn [snd].
      by rewrite tables_advance, Hq. }
  destruct (batch_of order) as [b|].
  - destruct (Hcall (λ _ o, has_batch_id b o)) as [H|H];
      destruct (call _ w1); [by left | right; by eexists].
  - destruct (Hcall (λ k _, bool_decide (k = id))) as [H|H];
      destruct (call _ w1); [by left | right; by eexists].
Qed.

(** X3. A status update never adds or removes an order and never touches a
    customer or an image; an order it leaves behind is the order it found, or
    that order with the new status and every other column as before. This
    holds for every caller and whichever calls fail. *)
Theorem patch_changes_status_only env req w id s :
  route req = PATCH_order_status id s →
  customers (app env req w).2 = customers w ∧
  order_images (app env req w).2 = order_images w ∧
  (∀ k, orders (app env req w).2 !! k = None ↔ orders w !! k = None) ∧
  (∀ k o o', orders w !! k = Some o → orders (app env req w).2 !! k = Some o' →
     o' = o ∨ o' = Order.set_status s o).
Proof.
  intros Hroute. unfold app. rewrite Hroute.
  destruct (patch_order_status_rows id s env req w) as [Hsame|[P Hupd]].
  - assert (Ho : orders (patch_order_status id s env req w).2 = orders w)
      by exact (f_equal t_orders Hsame).
    split_and!.
    + exact (f_equal t_customers Hsame).
    + exact (f_equal t_order_images Hsame).
    + intros k. by rewrite Ho.
    + intros k o o' Hk Hk'. rewrite Ho in Hk'. left. congruence.
  - assert (Ho : ∀ k, orders (patch_order_status id s env req w).2 !! k =
              (λ o, if P k o then Order.set_status s o else o) <$> orders w !! k).
    { intros k. rewrite orders_tables, Hupd. apply lookup_update_orders. }
    split_and!.
    + exact (f_equal t_customers Hupd).
    + exact (f_equal t_order_images Hupd).
    + intros k. rewrite Ho. by destruct (orders w !! k).
    + intros k o o' Hk Hk'. rewrite Ho, Hk in Hk'. simpl in Hk'.
      injection Hk' as <-. destruct (P k o); [by right | by left].
Qed.

Lemma insert_images_keeps rows (table : gmap Z Image.t) k img :
  table !! k = Some img →
  fold_left (λ table img, <[next_id table := img]> table) rows table !! k
    = Some img.
Proof.
  revert table. induction rows as [|row rows IH]; intros table Hk; [done|].
  simpl. apply IH. rewrite lookup_insert_ne; [done|].
  intros Heq. pose proof (next_id_fresh table) as Hfresh. congruence.
Qed.

Lemma insert_order_images_keeps orderId images w :
  customers (insert_order_images orderId images w).2 = customers w ∧
  ∀ k img, order_images w !! k = Some img →
    order_images (insert_order_images orderId images w).2 !! k = Some img.
Proof.
  unfold insert_order_images, bind, call.
  destruct images as [[|img0 imgs]|]; try done.
  destruct (next_fault w); [done|]. simpl. split; [done|].
  intros k img Hk.
  by apply (insert_images_keeps
    ({| Image.order_id := orderId; Image.image_data := img0 |} :: _)).
Qed.

Lemma insert_orders_keeps auth batch items acc w :
  customers (insert_orders auth batch items acc w).2 = customers w ∧
  ∀ k img, order_images w !! k = Some img →
    order_images (insert_orders auth batch items acc w).2 !! k = Some img.
Proof.
  revert acc w. induction items as [|data rest IH]; intros acc w; [done|].
  rewrite insert_orders_cons. unfold call.
  destruct (next_fault w); [done|]. unfold insert_order. cbn beta iota zeta.
  set (w1 := advance w _). set (id := next_id _).
  destruct (insert_order_images_keeps id (OrderBody.images data) w1) as [Hc Hi].
  destruct (IH (acc ++ [id])
              (insert_order_images id (OrderBody.images data) w1).2) as [Hc' Hi'].
  split; [by rewrite Hc', Hc|].
  intros k img Hk. by apply Hi', Hi.
Qed.

(** X4. Creating orders never overwrites or removes a row: whoever asks,
    whatever the body and whichever calls fail, every order and every image
    that was stored is stored unchanged afterwards, and the customers are
    what they were. *)
Theorem post_orders_keeps_rows env req w body :
  route req = POST_orders body →
  customers (app env req w).2 = customers w ∧
  (∀ k o, orders w !! k = Some o → orders (app env req w).2 !! k = Some o) ∧
  (∀ k img, order_images w !! k = Some img →
     order_images (app env req w).2 !! k = Some img).
Proof.
  intros Hroute. unfold app. rewrite Hroute. unfold post_orders.
  destruct (getAuthClient env req) as [auth|]; [|done].
  unfold bind.
  destruct (insert_orders_spec auth (batchId env body) (ordersData body) [] w)
    as (Hkeep & _ & _).
  destruct (insert_orders_keeps auth (batchId env body) (ordersData body) [] w)
    as (Hc & Hi).
  by destruct (insert_orders _ _ _ _ w) as [[ids|] w1].
Qed.

(** ** Customers *)

Lemma namesakes_none name phone (table : gmap Z Customer.t) :
  (∀ i c, table !! i = Some c →
     ¬ (Customer.name c = name ∧ Customer.phone c = phone)) →
  namesakes name phone table = ∅.
Proof.
  intros Hnone. apply map_eq. intros i. rewrite lookup_empty.
  destruct (namesakes name phone table !! i) as [c|] eqn:Hi; [|done].
  apply lookup_namesakes in Hi as (Hi & Hname & Hphone).
  by destruct (Hnone i c Hi).
Qed.

(** The customer row a creation request stores. *)
Lemma post_customers_checked env req w auth form :
  getAuthClient env req = Some auth →
  next_fault w = None →
  namesakes (CustomerBody.name form) (CustomerBody.phone form) (customers w) = ∅ →
  post_customers form env req w =
  let row := {| Customer.name := CustomerBody.name form;
                Customer.phone := CustomerBody.phone form;
                Customer.email := CustomerBody.email form;
                Customer.company := CustomerBody.company form;
                Customer.user_id := uid auth |} in
  let w1 := advance w (tables w) in
  match next_fault w1 with
  | Some message => (status_json 500 (error_body message), advance w1 (tables w1))
  | None => (json (JObj [("id", JInt (next_id (customers w)))]),
             advance w1 (insert_customer row (tables w)).2)
  end.
Proof.
  intros Hauth Hfault Hnone. unfold post_customers, bind. rewrite Hauth.
  unfold query at 1. rewrite call_run by done. cbn [fst snd].
  unfold select.
  change (filter _ (t_customers (tables w))) with
    (namesakes (CustomerBody.name form) (CustomerBody.phone form) (customers w)).
  rewrite Hnone, map_to_list_empty. cbn [fmap list_fmap maybeSingle data].
  unfold call. by destruct (next_fault (advance w (tables w))).
Qed.

(** X5. Creating a customer whose name and phone no stored customer has,
    once the existence check is answered: when the insert goes through the
    reply is 200 with the new id, the row holds the fields of the body and
    the id of the caller, and every other customer is as before; when the
    insert fails the reply is 500 with the message of the database and no
    row changes. *)
Theorem post_customers_new env req w auth form :
  getAuthClient env req = Some auth →
  route req = POST_customers form →
  next_fault w = None →
  (∀ i c, customers w !! i = Some c →
     ¬ (Customer.name c = CustomerBody.name form ∧
        Customer.phone c = CustomerBody.phone form)) →
  match next_fault (advance w (tables w)) with
  | None =>
      ∃ id, (app env req w).1 = json (JObj [("id", JInt id)]) ∧
            customers w !! id = None ∧
            customers (app env req w).2 =
              <[id := {| Customer.name := CustomerBody.name form;
                         Customer.phone := CustomerBody.phone form;
                         Customer.email := CustomerBody.email form;
                         Customer.company := CustomerBody.company form;
                         Customer.user_id := uid auth |}]> (customers w)
  | Some message =>
      (app env req w).1 = status_json 500 (error_body message) ∧
      same_rows w (app env req w).2
  end.
Proof.
  intros Hauth Hroute Hfault Hnone. unfold app. rewrite Hroute.
  rewrite (post_customers_checked env req w auth form Hauth Hfault)
    by by apply namesakes_none.
  cbn zeta. destruct (next_fault (advance w (tables w))).
  - split; [done|]. unfold same_rows. cbn [snd]. by rewrite !tables_advance.
  - exists (next_id (customers w)). split; [done|].
    split; [apply next_id_fresh | done].
Qed.

Lemma post_customers_unchecked_run env req w auth form message :
  getAuthClient env req = Some auth →
  next_fault w = Some message →
  next_fault (advance w (tables w)) = None →
  post_customers form env req w =
  (json (JObj [("id", JInt (next_id (customers w)))]),
   advance (advance w (tables w))
     (insert_customer
        {| Customer.name := CustomerBody.name form;
           Customer.phone := CustomerBody.phone form;
           Customer.email := CustomerBody.email form;
           Customer.company := CustomerBody.company form;
           Customer.user_id := uid auth |} (tables w)).2).
Proof.
  intros Hauth Hfault Hnext. unfold post_customers, bind. rewrite Hauth.
  unfold query at 1. rewrite (call_fault _ _ _ Hfault). cbn [data].
  rewrite (call_run _ _ Hnext). cbn [fst snd insert_customer].
  by rewrite tables_advance.
Qed.

(** X6. When the existence check itself fails, its error is not looked at:
    the insert is made all the same, so a customer is stored even if one with
    the same name and phone exists already. *)
Theorem post_customers_unchecked env req w auth form message :
  getAuthClient env req = Some auth →
  route req = POST_customers form →
  next_fault w = Some message →
  next_fault (advance w (tables w)) = None →
  (app env req w).1 = json (JObj [("id", JInt (next_id (customers w)))]) ∧
  customers (app env req w).2 !! next_id (customers w) =
    Some {| Customer.name := CustomerBody.name form;
            Customer.phone := CustomerBody.phone form;
            Customer.email := CustomerBody.email form;
            Customer.company := CustomerBody.company form;
            Customer.user_id := uid auth |} ∧
  (∀ i c, customers w !! i = Some c → customers (app env req w).2 !! i = Some c).
Proof.
  intros Hauth Hroute Hfault Hnext. unfold app. rewrite Hroute.
  rewrite (post_customers_unchecked_run env req w auth form message Hauth
             Hfault Hnext).
  split_and!; [done | apply lookup_insert_eq |].
  intros i c Hi. cbn. rewrite lookup_insert_ne; [done|].
  intros Heq. pose proof (next_id_fresh (customers w)). congruence.
Qed.

(** X7. Deleting a customer, for an authenticated caller: when the call
    goes through the reply is [{success: true}] and exactly the row of that
    id is gone, whether or not there was one; when it fails the reply is 500
    with the message of the database and no row changes. *)
Theorem delete_customer_row env req w auth id :
  getAuthClient env req = Some auth →
  route req = DELETE_customer id →
  match next_fault w with
  | None =>
      (app env req w).1 = success ∧
      customers (app env req w).2 = delete id (customers w)
  | Some message =>
      (app env req w).1 = status_json 500 (error_body message) ∧
      same_rows w (app env req w).2
  end.
Proof.
  intros Hauth Hroute. unfold app. rewrite Hroute.
  unfold delete_customer, bind, call. rewrite Hauth.
  destruct (next_fault w); [|done].
  split; [done|]. apply tables_advance.
Qed.

(** ** Orders *)

(** X8. A creation request with an empty array is answered 200 with no id
    and does nothing: no call is made and no row changes. *)
Theorem post_orders_empty env req w auth :
  getAuthClient env req = Some auth →
  route req = POST_orders (Many []) →
  app env req w = (json (JObj [("ids", JArr [])]), w).
Proof.
  intros Hauth Hroute. unfold app. rewrite Hroute.
  unfold post_orders. by rewrite Hauth.
Qed.

Lemma post_orders_image_failure_run env req w auth data0 img imgs message rest :
  getAuthClient env req = Some auth →
  OrderBody.images data0 = Some (img :: imgs) →
  faults w = None :: Some message :: rest →
  post_orders (One data0) env req w =
  (json (JObj [("ids", JArr [JInt (next_id (orders w))])]),
   advance (advance w (insert_order (order_row data0 None auth) (tables w)).2)
     (insert_order (order_row data0 None auth) (tables w)).2).
Proof.
  intros Hauth Himages Hfaults.
  rewrite (post_orders_run _ _ _ _ _ Hauth).
  change (ordersData (One data0)) with [data0].
  change (batchId env (One data0)) with (@None string).
  rewrite insert_orders_cons.
  assert (Hfirst : next_fault w = None) by (unfold next_fault; by rewrite Hfaults).
  rewrite (call_run _ _ Hfirst). cbn [fst snd insert_order].
  rewrite Himages. unfold insert_order_images, bind.
  set (w1 := advance w _).
  assert (Hsecond : next_fault w1 = Some message)
    by (unfold next_fault, w1; simpl; by rewrite Hfaults).
  rewrite (call_fault _ _ _ Hsecond). reflexivity.
Qed.

(** X9. The insert of the images of an order is not checked: when it fails
    (here for a request of one order with images, the insert of the order
    having gone through), the reply is still 200 with the id of the order,
    the order is stored and none of its images is. *)
Theorem post_orders_image_failure env req w auth data0 img imgs message rest :
  getAuthClient env req = Some auth →
  route req = POST_orders (One data0) →
  OrderBody.images data0 = Some (img :: imgs) →
  faults w = None :: Some message :: rest →
  (app env req w).1 = json (JObj [("ids", JArr [JInt (next_id (orders w))])]) ∧
  orders (app env req w).2 !! next_id (orders w) =
    Some (order_row data0 None auth) ∧
  order_images (app env req w).2 = order_images w.
Proof.
  intros Hauth Hroute Himages Hfaults. unfold app. rewrite Hroute.
  rewrite (post_orders_image_failure_run env req w auth data0 img imgs
             message rest Hauth Himages Hfaults).
  split_and!; [done | apply lookup_insert_eq | done].
Qed.

Lemma patch_order_status_unlooked_run env req w auth id s message :
  getAuthClient env req = Some auth →
  next_fault w = Some message →
  next_fault (advance w (tables w)) = None →
  patch_order_status id s env req w =
  (success,
   advance (advance w (tables w))
     (update_orders (λ k _, bool_decide (k = id)) s (tables w)).2).
Proof.
  intros Hauth Hfault Hnext. unfold patch_order_status, bind. rewrite Hauth.
  unfold select_batch_id, query. rewrite (call_fault _ _ _ Hfault).
  cbn [batch_of data]. rewrite (call_run _ _ Hnext). cbn [fst snd].
  by rewrite tables_advance.
Qed.

(** X10. When the lookup of a status update fails and the update then goes
    through, only the order of the given id gets the new status: the other
    orders of its batch keep theirs, and the reply is [{success: true}]. *)
Theorem patch_order_status_unlooked env req w auth id s message :
  getAuthClient env req = Some auth →
  route req = PATCH_order_status id s →
  next_fault w = Some message →
  next_fault (advance w (tables w)) = None →
  (app env req w).1 = success ∧
  (∀ o, orders w !! id = Some o →
     orders (app env req w).2 !! id = Some (Order.set_status s o)) ∧
  (∀ k, k ≠ id → orders (app env req w).2 !! k = orders w !! k).
Proof.
  intros Hauth Hroute Hfault Hnext. unfold app. rewrite Hroute.
  rewrite (patch_order_status_unlooked_run env req w auth id s message Hauth
             Hfault Hnext).
  cbn [fst snd]. split; [done|].
  assert (Hlook : ∀ k, orders (advance (advance w (tables w))
              (update_orders (λ k _, bool_decide (k = id)) s (tables w)).2) !! k =
            (λ o, if bool_decide (k = id) then Order.set_status s o else o)
              <$> orders w !! k).
  { intros k. rewrite orders_tables, tables_advance. apply lookup_update_orders. }
  split.
  - intros o Ho. rewrite Hlook, Ho. simpl. by rewrite bool_decide_eq_true_2.
  - intros k Hk. rewrite Hlook. destruct (orders w !! k); [|done].
    simpl. by rewrite bool_decide_eq_false_2.
Qed.

(** X11. After an order is deleted, reading it, or any order that shared
    its batch, is answered 404 (the database answering its calls). *)
Theorem delete_order_then_get env del get w auth auth' id o k o' :
  getAuthClient env del = Some auth →
  route del = DELETE_order id →
  getAuthClient env get = Some auth' →
  route get = GET_order k →
  reliable w →
  orders w !! id = Some o →
  orders w !! k = Some o' →
  k = id ∨ (batch_key o ≠ None ∧ Order.batch_id o' = Order.batch_id o) →
  status_code (app env get (app env del w).2).1 = 404.
Proof.
  intros Hdel Hrdel Hget Hrget Hw Ho Ho' Hk.
  assert (Hgone : orders (app env del w).2 !! k = None).
  { unfold app. rewrite Hrdel, orders_tables.
    rewrite (delete_order_reliable env del w auth id Hdel Hw).
    rewrite lookup_delete_orders, <- orders_tables, Ho'. simpl.
    by rewrite (aimed_at_member _ _ _ _ _ Ho Ho' Hk). }
  unfold app at 1. rewrite Hrget.
  by rewrite (get_order_unknown _ _ _ _ _ Hget Hgone).
Qed.

(** The reply to the read of an order that exists. *)
Lemma get_order_found env req w auth id o :
  getAuthClient env req = Some auth →
  next_fault w = None →
  orders w !! id = Some o →
  (get_order id env req w).1 =
  json (JObj (
    order_columns (id, o)
    ++ [("customers", customers_json (customers w !! Order.customer_id o));
        ("order_images",
         JArr ((λ img, JObj [("image_data", JStr img)]) <$>
               images_of (tables w) id))]
    ++ customer_name_phone (customers w !! Order.customer_id o)
    ++ [("images", JArr (JStr <$> images_of (tables w) id));
        ("batch_items", batch_items_json w o)])).
Proof.
  intros Hauth Hfault Ho. unfold get_order, bind. rewrite Hauth.
  unfold query at 1. rewrite (call_run _ _ Hfault). cbn [fst snd].
  rewrite select_by_id. change (t_orders (tables w)) with (orders w).
  rewrite Ho. cbn [fmap list_fmap single].
  unfold batch_items_json, batch_key, customer_of.
  cbn [fst snd]. destruct (Order.batch_id o) as [b|]; [|done].
  destruct (truthy (Some b)); [|done].
  unfold query, call. rewrite tables_advance.
  by destruct (next_fault (advance w (tables w))).
Qed.

Lemma field_app k (l1 l2 : list (string * Json)) :
  field k (JObj (l1 ++ l2)) =
  match field k (JObj l1) with
  | Some v => Some v
  | None => field k (JObj l2)
  end.
Proof.
  unfold field. induction l1 as [|[k' v] l1 IH]; [done|].
  simpl. by destruct (bool_decide (k' = k)).
Qed.

Lemma elem_of_select {A} (P : Z → A → bool) (table : gmap Z A) k x :
  (k, x) ∈ select P table ↔ table !! k = Some x ∧ P k x = true.
Proof.
  unfold select. rewrite elem_of_map_to_list. apply map_lookup_filter_Some.
Qed.

(** X12. Reading an order that exists, the database answering: the reply
    is 200 and carries the id and the status of the order, the name of its
    customer when the customer exists, its images, and as [batch_items] the
    rows of its batch, the order itself among them, or [null] when the order
    has no batch id. *)
Theorem get_order_existing env req w auth id o :
  getAuthClient env req = Some auth →
  route req = GET_order id →
  reliable w →
  orders w !! id = Some o →
  status_code (app env req w).1 = 200 ∧
  field "id" (body (app env req w).1) = Some (JInt id) ∧
  field "status" (body (app env req w).1) = Some (JStr (Order.status o)) ∧
  field "customer_name" (body (app env req w).1) =
    (λ c, JStr (Customer.name c)) <$> customers w !! Order.customer_id o ∧
  field "images" (body (app env req w).1) =
    Some (JArr (JStr <$> images_of (tables w) id)) ∧
  field "batch_items" (body (app env req w).1) =
    Some (match batch_key o with
          | Some b => JArr ((λ row, JObj (order_columns row)) <$>
                            select (λ _ o', has_batch_id b o') (orders w))
          | None => JNull
          end) ∧
  (∀ b, batch_key o = Some b →
     (id, o) ∈ select (λ _ o', has_batch_id b o') (orders w)).
Proof.
  intros Hauth Hroute Hw Ho. unfold app. rewrite Hroute.
  rewrite (get_order_found env req w auth id o Hauth
             (reliable_next_fault _ Hw) Ho).
  assert (Hitems : batch_items_json w o =
            match batch_key o with
            | Some b => JArr ((λ row, JObj (order_columns row)) <$>
                              select (λ _ o', has_batch_id b o') (orders w))
            | None => JNull
            end).
  { unfold batch_items_json.
    by rewrite (reliable_next_fault _ (reliable_advance _ _ Hw)). }
  rewrite Hitems. cbn [fst snd json status_code body].
  split_and!; try reflexivity.
  - rewrite !field_app. by destruct (customers w !! Order.customer_id o).
  - rewrite !field_app. by destruct (customers w !! Order.customer_id o).
  - rewrite !field_app. by destruct (customers w !! Order.customer_id o).
  - intros b Hb. apply elem_of_select. split; [done|].
    apply has_batch_id_spec. by apply batch_key_Some.
Qed.

(** X13. After a status update of an order that exists, reading the order
    shows the new status (the database answering its calls). *)
Theorem patch_then_get env patch get w auth auth' id s o :
  getAuthClient env patch = Some auth →
  route patch = PATCH_order_status id s →
  getAuthClient env get = Some auth' →
  route get = GET_order id →
  reliable w →
  orders w !! id = Some o →
  status_code (app env get (app env patch w).2).1 = 200 ∧
  field "status" (body (app env get (app env patch w).2).1) = Some (JStr s).
Proof.
  intros Hpatch Hrpatch Hget Hrget Hw Ho.
  set (w' := (app env patch w).2).
  assert (Ho' : orders w' !! id = Some (Order.set_status s o)).
  { unfold w', app. rewrite Hrpatch, orders_tables.
    rewrite (patch_order_status_reliable env patch w auth id s Hpatch Hw).
    rewrite lookup_update_orders, <- orders_tables, Ho. simpl.
    rewrite (aimed_at_member w id o id o Ho Ho); [done | by left]. }
  assert (Hw' : next_fault w' = None).
  { unfold w', app. rewrite Hrpatch. unfold patch_order_status, bind.
    rewrite Hpatch. unfold select_batch_id, query.
    rewrite (call_run _ _ (reliable_next_fault _ Hw)). cbn [fst snd].
    apply reliable_next_fault.
    destruct (batch_of _);
      rewrite call_run
        by (by apply reliable_next_fault, reliable_advance);
      by repeat apply reliable_advance. }
  unfold app. rewrite Hrget.
  rewrite (get_order_found env get w' auth' id _ Hget Hw' Ho').
  by split.
Qed.

End Writing.

Section Counting.

Import Api.

Implicit Types (env : Env) (req : Request) (w : World) (auth : User).

Lemma count_status_in statuses (table : gmap Z Order.t) :
  length (select (λ _ o, status_in statuses o) table)
  = size (orders_in statuses table).
Proof. unfold select, orders_in. apply length_map_to_list. Qed.

Lemma count_all (table : gmap Z Order.t) :
  length (select (λ _ _, true) table) = size table.
Proof.
  unfold select. rewrite length_map_to_list. f_equal.
  by apply map_filter_id.
Qed.

Lemma status_in_spec statuses o :
  status_in statuses o = true ↔ Order.status o ∈ statuses.
Proof. unfold status_in. apply bool_decide_eq_true. Qed.

Lemma orders_in_mono l1 l2 (table : gmap Z Order.t) :
  l1 ⊆ l2 → (size (orders_in l1 table) ≤ size (orders_in l2 table))%nat.
Proof.
  intros Hsub. apply map_subseteq_size. unfold orders_in.
  apply map_filter_subseteq_ext. intros i o _. simpl.
  rewrite !status_in_spec. apply Hsub.
Qed.

Lemma orders_in_app l1 l2 (table : gmap Z Order.t) :
  (∀ s, s ∈ l1 → s ∉ l2) →
  size (orders_in (l1 ++ l2) table)
  = (size (orders_in l1 table) + size (orders_in l2 table))%nat.
Proof.
  intros Hdisj. unfold orders_in.
  rewrite <- map_size_disj_union.
  - f_equal. rewrite <- map_filter_or. apply map_filter_ext.
    intros i o _. simpl. rewrite !status_in_spec. apply elem_of_app.
  - apply map_disjoint_spec. intros i o1 o2.
    rewrite !map_lookup_filter_Some. simpl. rewrite !status_in_spec.
    intros [Ho1 H1] [Ho2 H2]. assert (o1 = o2) as -> by congruence.
    by apply (Hdisj _ H1).
Qed.

(** The body of the statistics when every call is answered. *)
Lemma get_stats_body env req w auth :
  getAuthClient env req = Some auth →
  reliable w →
  (get_stats env req w).1 =
  json (JObj
    [("totalOrders", JInt (Z.of_nat (size (orders w))));
     ("ongoingOrders",
      JInt (Z.of_nat (size (orders_in ["Orçamento"; "Em Produção"] (orders w)))));
     ("monthlyRevenue",
      JNum (revenue (Ok ((λ row : Z * Order.t, Order.total_price row.2) <$>
        select (λ _ o, dated_between (startOfMonth env) (endOfMonth env) o)
          (orders w)))));
     ("totalCustomers", JInt (Z.of_nat (size (customers w))));
     ("pendingOrders",
      JInt (Z.of_nat (size (orders_in ["Orçamento"] (orders w)))))]).
Proof.
  intros Hauth Hw. unfold get_stats, bind. rewrite Hauth.
  unfold count_orders, count_customers, select_total_price, query.
  repeat (rewrite call_run
            by (apply reliable_next_fault; repeat apply reliable_advance;
                exact Hw);
          cbn beta iota zeta delta [fst snd]).
  cbn [count_json]. rewrite !tables_advance.
  change (t_orders (tables w)) with (orders w).
  change (t_customers (tables w)) with (customers w).
  by rewrite !count_status_in, count_all, length_map_to_list.
Qed.

(** X14. The counts of the statistics, the database answering: the total
    is the number of orders, the customers the number of customers, the
    ongoing orders those in Orçamento or Em Produção and the pending ones
    those in Orçamento; so pending is at most ongoing, which is at most the
    total. *)
Theorem get_stats_counts env req w auth :
  getAuthClient env req = Some auth →
  route req = GET_stats →
  reliable w →
  field "totalOrders" (body (app env req w).1)
    = Some (JInt (Z.of_nat (size (orders w)))) ∧
  field "totalCustomers" (body (app env req w).1)
    = Some (JInt (Z.of_nat (size (customers w)))) ∧
  field "ongoingOrders" (body (app env req w).1)
    = Some (JInt (Z.of_nat
        (size (orders_in ["Orçamento"; "Em Produção"] (orders w))))) ∧
  field "pendingOrders" (body (app env req w).1)
    = Some (JInt (Z.of_nat (size (orders_in ["Orçamento"] (orders w))))) ∧
  (size (orders_in ["Orçamento"] (orders w))
   ≤ size (orders_in ["Orçamento"; "Em Produção"] (orders w))
   ≤ size (orders w))%nat.
Proof.
  intros Hauth Hroute Hw. unfold app. rewrite Hroute.
  rewrite (get_stats_body env req w auth Hauth Hw).
  split_and!; try reflexivity.
  - apply orders_in_mono. intros s ->%list_elem_of_singleton. left.
  - apply map_size_filter.
Qed.

(** The body of the billing distribution when both counts are answered. *)
Lemma get_billing_distribution_body env req w auth :
  getAuthClient env req = Some auth →
  reliable w →
  (get_billing_distribution env req w).1 =
  json (JArr [
    JObj [("name", JStr "Finalizados");
          ("value", JInt (Z.of_nat (size (orders_in ["Entregue"] (orders w)))));
          ("color", JStr "#3b82f6")];
    JObj [("name", JStr "Em Aberto");
          ("value", JInt (Z.of_nat (size
             (orders_in ["Orçamento"; "Em Produção"; "Finalizado"] (orders w)))));
          ("color", JStr "#10b981")]]).
Proof.
  intros Hauth Hw. unfold get_billing_distribution, bind. rewrite Hauth.
  unfold count_orders, query.
  repeat (rewrite call_run
            by (apply reliable_next_fault; repeat apply reliable_advance;
                exact Hw);
          cbn beta iota zeta delta [fst snd]).
  cbn [count_or_zero]. rewrite !tables_advance.
  change (t_orders (tables w)) with (orders w).
  by rewrite !count_status_in.
Qed.

(** X15. The billing distribution, the database answering, has two buckets:
    the orders in Entregue, and those in Orçamento, Em Produção or
    Finalizado. Together they count the orders in one of these four
    statuses; an order in any other status is in neither. *)
Theorem get_billing_distribution_buckets env req w auth :
  getAuthClient env req = Some auth →
  route req = GET_billing_distribution →
  reliable w →
  ∃ completed pending : nat,
    (app env req w).1 =
    json (JArr [
      JObj [("name", JStr "Finalizados"); ("value", JInt (Z.of_nat completed));
            ("color", JStr "#3b82f6")];
      JObj [("name", JStr "Em Aberto"); ("value", JInt (Z.of_nat pending));
            ("color", JStr "#10b981")]]) ∧
    completed = size (orders_in ["Entregue"] (orders w)) ∧
    pending = size (orders_in ["Orçamento"; "Em Produção"; "Finalizado"] (orders w)) ∧
    (completed + pending)%nat =
      size (orders_in ["Entregue"; "Orçamento"; "Em Produção"; "Finalizado"]
              (orders w)) ∧
    (completed + pending ≤ size (orders w))%nat.
Proof.
  intros Hauth Hroute Hw. unfold app. rewrite Hroute.
  rewrite (get_billing_distribution_body env req w auth Hauth Hw).
  eexists _, _. split; [reflexivity|]. split; [reflexivity|].
  split; [reflexivity|].
  assert (Hsum : (size (orders_in ["Entregue"] (orders w))
            + size (orders_in ["Orçamento"; "Em Produção"; "Finalizado"] (orders w)))%nat
          = size (orders_in ["Entregue"; "Orçamento"; "Em Produção"; "Finalizado"]
                    (orders w))).
  { symmetry. apply (orders_in_app ["Entregue"]).
    intros s ->%list_elem_of_singleton Hin.
    repeat (apply elem_of_cons in Hin as [Hin|Hin]; [discriminate Hin|]).
    by apply not_elem_of_nil in Hin. }
  split; [exact Hsum|]. rewrite Hsum. apply map_size_filter.
Qed.

End Counting.

Section Listing.

Import Api.

Implicit Types (env : Env) (req : Request) (w : World) (auth : User).

Lemma insert_by_perm {A} (le : A → A → bool) x (l : list A) :
  insert_by le x l ≡ₚ x :: l.
Proof.
  induction l as [|y l IH]; [done|]. simpl.
  destruct (le x y); [done|]. rewrite IH. apply Permutation_swap.
Qed.

Lemma order_by_perm {A} (le : A → A → bool) (l : list A) :
  order_by le l ≡ₚ l.
Proof.
  unfold order_by. induction l as [|x l IH]; [done|]. simpl.
  by rewrite insert_by_perm, IH.
Qed.

Lemma insert_by_sorted {A} (le : A → A → bool) x (l : list A) :
  (∀ a b, le a b = true ∨ le b a = true) →
  Sorted (λ a b, le a b = true) l →
  Sorted (λ a b, le a b = true) (insert_by le x l).
Proof.
  intros Htotal. induction l as [|y l IH]; intros Hl.
  { simpl. by repeat constructor. }
  simpl. destruct (le x y) eqn:Hxy.
  { constructor; [done|]. by constructor. }
  apply Sorted_inv in Hl as [Hl Hy]. constructor; [by apply IH|].
  destruct l as [|z l]; simpl.
  - constructor. destruct (Htotal x y); congruence.
  - destruct (le x z).
    + constructor. destruct (Htotal x y); congruence.
    + constructor. by apply HdRel_inv in Hy.
Qed.

Lemma order_by_sorted {A} (le : A → A → bool) (l : list A) :
  (∀ a b, le a b = true ∨ le b a = true) →
  Sorted (λ a b, le a b = true) (order_by le l).
Proof.
  intros Htotal. unfold order_by. induction l as [|x l IH]; simpl.
  - constructor.
  - by apply insert_by_sorted.
Qed.

(** X16. The customers listed: when the query is answered, every customer
    of the table appears once, and along the list the names never decrease
    in the order the database sorts texts in (its collation, taken to
    compare any two texts one way or the other). *)
Theorem get_customers_listing env req w auth :
  getAuthClient env req = Some auth →
  route req = GET_customers →
  next_fault w = None →
  (∀ a b, collate env a b = true ∨ collate env b a = true) →
  ∃ rows,
    (app env req w).1 = json (JArr (customer_json <$> rows)) ∧
    rows ≡ₚ map_to_list (customers w) ∧
    Sorted (λ a b : Z * Customer.t,
              collate env (Customer.name a.2) (Customer.name b.2) = true) rows.
Proof.
  intros Hauth Hroute Hfault Htotal. unfold app. rewrite Hroute.
  unfold get_customers, bind, query. rewrite Hauth, (call_run _ w Hfault).
  cbn beta iota zeta delta [fst snd]. eexists. split; [reflexivity|]. split.
  - apply order_by_perm.
  - apply (order_by_sorted
             (λ a b : Z * Customer.t,
                collate env (Customer.name a.2) (Customer.name b.2))).
    intros a b. apply Htotal.
Qed.

(** X17. The orders listed: when the query is answered, every order of the
    table appears once, the order dates never increase along the list, and
    an order shows the name and the phone of its customer exactly when the
    customer exists. *)
Theorem get_orders_listing env req w auth :
  getAuthClient env req = Some auth →
  route req = GET_orders →
  next_fault w = None →
  ∃ rows,
    (app env req w).1 = json (JArr (listed_order (tables w) <$> rows)) ∧
    rows ≡ₚ map_to_list (orders w) ∧
    Sorted (λ a b : Z * Order.t,
              String.leb (Order.order_date b.2) (Order.order_date a.2) = true)
           rows ∧
    ∀ row, row ∈ rows →
      field "customer_name" (listed_order (tables w) row)
        = (λ c, JStr (Customer.name c)) <$> customers w !! Order.customer_id row.2 ∧
      field "customer_phone" (listed_order (tables w) row)
        = (λ c, JStr (Customer.phone c)) <$> customers w !! Order.customer_id row.2.
Proof.
  intros Hauth Hroute Hfault. unfold app. rewrite Hroute.
  unfold get_orders, bind, query. rewrite Hauth, (call_run _ w Hfault).
  cbn beta iota zeta delta [fst snd]. eexists. split.
  { rewrite <- list_fmap_compose. reflexivity. }
  split; [apply order_by_perm|]. split.
  - apply (order_by_sorted
             (λ a b : Z * Order.t,
                String.leb (Order.order_date b.2) (Order.order_date a.2))).
    intros a b. apply String.leb_total.
  - intros row _. unfold listed_order, customer_of.
    change (t_customers (tables w)) with (customers w).
    rewrite !field_app.
    by destruct (customers w !! Order.customer_id row.2).
Qed.

End Listing.

Section Calendar.

Import Api.

Implicit Types (env : Env) (req : Request) (w : World) (auth : User).

Lemma civil_month_range z :
  1 <= (civil_from_days z).1.2 <= 12 ∧ 1 <= (civil_from_days z).2 <= 31.
Proof.
  unfold civil_from_days.
  set (z' := z + 719468).
  set (era := z' / 146097).
  set (doe := z' - era * 146097).
  assert (Hdoe : 0 <= doe < 146097).
  { unfold doe, era. Z.div_mod_to_equations; lia. }
  clearbody doe era. clear z'.
  set (yoe := (doe - doe / 1460 + doe / 36524 - doe / 146096) / 365).
  set (doy := doe - (365 * yoe + yoe / 4 - yoe / 100)).
  assert (0 <= yoe <= 399 ∧ 0 <= doy <= 365).
  { unfold doy, yoe. Z.div_mod_to_equations; lia. }
  clearbody doy.
  set (mp := (5 * doy + 2) / 153).
  set (d := doy - (153 * mp + 2) / 5 + 1).
  assert (0 <= mp <= 11 ∧ 1 <= d <= 31).
  { unfold d, mp. Z.div_mod_to_equations; lia. }
  cbn [fst snd].
  destruct (mp <? 10) eqn:E; [apply Z.ltb_lt in E | apply Z.ltb_ge in E]; lia.
Qed.

(** The civil date of a day of a month, up to the 28th. *)
Lemma civil_of_days_28 Y M dd :
  1 <= M <= 12 → 1 <= dd <= 28 →
  civil_from_days (days_from_civil Y M 1 + dd - 1) = (Y, M, dd).
Proof.
  intros HM Hd.
  unfold days_from_civil.
  set (a := if M <=? 2 then Y - 1 else Y).
  assert (Ha : a = Y - (if M <=? 2 then 1 else 0))
    by (unfold a; destruct (M <=? 2); lia).
  set (era := a / 400).
  set (yoe := a - era * 400).
  assert (Hyoe : 0 <= yoe <= 399)
    by (unfold yoe, era; Z.div_mod_to_equations; lia).
  set (mp := (M + 9) mod 12).
  assert (Hmp : 0 <= mp <= 11
                ∧ M = (if mp <? 10 then mp + 3 else mp - 9)
                ∧ ((M <=? 2) = negb (mp <? 10))).
  { unfold mp.
    destruct (Z.ltb_spec ((M + 9) mod 12) 10), (Z.leb_spec M 2); simpl;
      Z.div_mod_to_equations; lia. }
  clearbody mp.
  set (doy0 := (153 * mp + 2) / 5).
  set (doe := yoe * 365 + yoe / 4 - yoe / 100 + (doy0 + 1 - 1)).
  unfold civil_from_days.
  replace (era * 146097 + doe - 719468 + dd - 1 + 719468)
    with (era * 146097 + (doe + dd - 1)) by lia.
  set (doe' := doe + dd - 1).
  assert (Hdoe : 0 <= doe' < 146097)
    by (unfold doe', doe, doy0; Z.div_mod_to_equations; lia).
  assert (Hera : (era * 146097 + doe') / 146097 = era).
  { symmetry. apply (Z.div_unique _ _ _ doe'); lia. }
  rewrite Hera.
  replace (era * 146097 + doe' - era * 146097) with doe' by lia.
  assert (Hy : (doe' - doe' / 1460 + doe' / 36524 - doe' / 146096) / 365 = yoe).
  { unfold doe', doe, doy0. Z.div_mod_to_equations; lia. }
  rewrite Hy.
  assert (Hdoy : doe' - (365 * yoe + yoe / 4 - yoe / 100) = doy0 + dd - 1)
    by (unfold doe', doe; lia).
  rewrite Hdoy.
  assert (Hm : (5 * (doy0 + dd - 1) + 2) / 153 = mp)
    by (unfold doy0; Z.div_mod_to_equations; lia).
  rewrite Hm.
  destruct Hmp as (Hr & HM' & Hle).
  rewrite <- HM'.
  f_equal; [f_equal|].
  - unfold yoe. rewrite Ha. destruct (M <=? 2); lia.
  - fold doy0. lia.
Qed.

(** The day number of the civil date of a day number. *)
Lemma days_of_civil z :
  days_from_civil (civil_from_days z).1.1 (civil_from_days z).1.2
    (civil_from_days z).2 = z.
Proof.
  unfold civil_from_days.
  set (z' := z + 719468).
  set (era := z' / 146097).
  set (doe := z' - era * 146097).
  assert (Hdoe : 0 <= doe < 146097).
  { unfold doe, era. Z.div_mod_to_equations; lia. }
  assert (Hz : z = era * 146097 + doe - 719468) by (unfold doe, z'; lia).
  clearbody doe era. clear z'.
  set (yoe := (doe - doe / 1460 + doe / 36524 - doe / 146096) / 365).
  set (doy := doe - (365 * yoe + yoe / 4 - yoe / 100)).
  assert (Hy : 0 <= yoe <= 399 ∧ 0 <= doy <= 365).
  { unfold doy, yoe. Z.div_mod_to_equations; lia. }
  assert (Hdoe' : doe = yoe * 365 + yoe / 4 - yoe / 100 + doy)
    by (unfold doy; lia).
  clearbody doy. clearbody yoe.
  set (mp := (5 * doy + 2) / 153).
  set (d := doy - (153 * mp + 2) / 5 + 1).
  assert (Hmp : 0 <= mp <= 11) by (unfold mp; Z.div_mod_to_equations; lia).
  assert (Hd : doy = (153 * mp + 2) / 5 + d - 1) by (unfold d; lia).
  clearbody d. clearbody mp.
  cbn [fst snd].
  set (m := if mp <? 10 then mp + 3 else mp - 9).
  assert (Hm : (m + 9) mod 12 = mp ∧ (m <=? 2) = negb (mp <? 10)).
  { unfold m. destruct (Z.ltb_spec mp 10); simpl.
    - destruct (Z.leb_spec (mp + 3) 2); [lia|].
      split; [|done]. Z.div_mod_to_equations; lia.
    - destruct (Z.leb_spec (mp - 9) 2); [|lia].
      split; [|done]. Z.div_mod_to_equations; lia. }
  destruct Hm as [Hm1 Hm2]. clearbody m.
  unfold days_from_civil. rewrite Hm1, Hm2.
  set (y' := if negb (mp <? 10) then _ else _).
  assert (Hy' : y' = yoe + era * 400).
  { unfold y'. destruct (mp <? 10); simpl; [done|].
    destruct (negb _); lia. }
  rewrite Hy'.
  assert (He : (yoe + era * 400) / 400 = era)
    by (Z.div_mod_to_equations; lia).
  rewrite He.
  replace (yoe + era * 400 - era * 400) with yoe by lia. lia.
Qed.

(** April, June, September and November have 30 days. *)
Lemma next_month_30 Y M :
  M ∈ [4; 6; 9; 11] →
  days_from_civil Y M 1 + 30 = days_from_civil Y (M + 1) 1.
Proof.
  intros HM.
  repeat (apply elem_of_cons in HM as [-> | HM];
          [unfold days_from_civil; simpl; Z.div_mod_to_equations; lia|]).
  by apply not_elem_of_nil in HM.
Qed.

(** February has 28 or 29 days. *)
Lemma next_month_feb Y :
  28 <= days_from_civil Y 3 1 - days_from_civil Y 2 1 <= 29.
Proof.
  unfold days_from_civil. simpl. Z.div_mod_to_equations; lia.
Qed.

Lemma LocalTime_UTC tz x : LocalTime tz (UTC tz x) = x.
Proof. unfold LocalTime, UTC. lia. Qed.

Lemma local_day_setMonth tz t month :
  LocalTime tz (setMonth tz t month) / msPerDay
  = MakeDay (getFullYear tz t) month (getDate tz t).
Proof.
  unfold setMonth. rewrite LocalTime_UTC. symmetry.
  apply (Z.div_unique _ _ _ (LocalTime tz t mod msPerDay)); [|lia].
  left. by apply Z.mod_pos_bound.
Qed.

Lemma getDate_range tz t : 1 <= getDate tz t <= 31.
Proof. unfold getDate. apply civil_month_range. Qed.

Lemma getMonth_range tz t : 0 <= getMonth tz t <= 11.
Proof.
  unfold getMonth. pose proof (civil_month_range (LocalTime tz t / msPerDay)).
  lia.
Qed.

(** Up to the 28th, [setMonth] lands in the month asked for. *)
Lemma getMonth_setMonth tz t month :
  getDate tz t <= 28 →
  getMonth tz (setMonth tz t month) = month mod 12.
Proof.
  intros Hd. pose proof (getDate_range tz t) as Hr.
  unfold getMonth at 1. rewrite local_day_setMonth. unfold MakeDay.
  replace (days_from_civil (getFullYear tz t + month / 12) (month mod 12 + 1) 1
           + getDate tz t - 1)
    with (days_from_civil (getFullYear tz t + month / 12) (month mod 12 + 1) 1
          + getDate tz t - 1) by done.
  rewrite civil_of_days_28; [cbn [fst snd]; lia | | lia].
  pose proof (Z.mod_pos_bound month 12). lia.
Qed.

(** Setting the month a date already has changes nothing. *)
Lemma setMonth_getMonth tz t : setMonth tz t (getMonth tz t) = t.
Proof.
  pose proof (getMonth_range tz t) as Hm.
  unfold setMonth, MakeDay.
  rewrite (Z.div_small (getMonth tz t) 12), (Z.mod_small (getMonth tz t) 12)
    by lia.
  unfold getMonth, getFullYear, getDate.
  replace ((civil_from_days (LocalTime tz t / msPerDay)).1.2 - 1 + 1)
    with ((civil_from_days (LocalTime tz t / msPerDay)).1.2) by lia.
  rewrite Z.add_0_r.
  pose proof (days_of_civil (LocalTime tz t / msPerDay)) as Hdays.
  unfold days_from_civil in *.
  set (c := civil_from_days (LocalTime tz t / msPerDay)) in *.
  assert (Hsplit : LocalTime tz t
                   = msPerDay * (LocalTime tz t / msPerDay)
                     + LocalTime tz t mod msPerDay)
    by (by apply Z.div_mod).
  unfold UTC. unfold LocalTime in Hsplit at 1. lia.
Qed.

(** On the 31st, one month back overflows into the month of the date,
    unless the month before has 31 days too. *)
Lemma getMonth_setMonth_31st tz t :
  getDate tz t = 31 →
  getMonth tz t ∈ [2; 4; 6; 9; 11] →
  getMonth tz (setMonth tz t (getMonth tz t - 1)) = getMonth tz t.
Proof.
  intros Hd Hm. unfold getMonth at 1. rewrite local_day_setMonth, Hd.
  unfold MakeDay. set (m := getMonth tz t) in *. set (y := getFullYear tz t).
  assert (Hm' : 2 <= m <= 11).
  { repeat (apply elem_of_cons in Hm as [-> | Hm]; [lia|]).
    by apply not_elem_of_nil in Hm. }
  rewrite (Z.div_small (m - 1) 12), (Z.mod_small (m - 1) 12) by lia.
  rewrite Z.add_0_r.
  apply elem_of_cons in Hm as [-> | Hm].
  { pose proof (next_month_feb y) as Hfeb.
    replace (days_from_civil y (2 - 1 + 1) 1 + 31 - 1)
      with (days_from_civil y 3 1
            + (31 - (days_from_civil y 3 1 - days_from_civil y 2 1)) - 1)
      by (replace (2 - 1 + 1) with 2 by done; lia).
    rewrite civil_of_days_28 by lia. done. }
  assert (Hprev : m - 1 + 1 ∈ [4; 6; 9; 11]).
  { repeat (apply elem_of_cons in Hm as [-> | Hm]; [repeat constructor|]).
    by apply not_elem_of_nil in Hm. }
  replace (days_from_civil y (m - 1 + 1) 1 + 31 - 1)
    with (days_from_civil y (m - 1 + 1) 1 + 30) by lia.
  rewrite (next_month_30 y _ Hprev).
  replace (days_from_civil y (m - 1 + 1 + 1) 1)
    with (days_from_civil y (m + 1) 1 + 1 - 1)
    by (replace (m - 1 + 1 + 1) with (m + 1) by lia; lia).
  rewrite civil_of_days_28 by lia. cbn [fst snd]. lia.
Qed.

Lemma trend_run env i w :
  ∃ r, (trend env i w).1 =
    trend_entry
      (shortMonth (getMonth (tz env)
         (setMonth (tz env) (now env) (getMonth (tz env) (now env) - i)))) r.
Proof.
  unfold trend, bind. destruct (select_total_price _ _ w) as [r w'].
  by exists (revenue r).
Qed.

Lemma trends_run env months w :
  ∃ revenues, length revenues = length months ∧
    (trends env months w).1 =
    zip_with (λ i r, trend_entry
      (shortMonth (getMonth (tz env)
         (setMonth (tz env) (now env) (getMonth (tz env) (now env) - i)))) r)
      months revenues.
Proof.
  revert w. induction months as [|i rest IH]; intros w.
  { by exists []. }
  simpl. unfold bind at 1.
  destruct (trend_run env i w) as [r Hr].
  destruct (trend env i w) as [t w1]. simpl in Hr. subst t.
  unfold bind. destruct (IH w1) as (rs & Hlen & Hrs).
  destruct (trends env rest w1) as [ts w2]. simpl in Hrs. subst ts.
  exists (r :: rs). simpl. by rewrite Hlen.
Qed.

(** X18. The billing trends have six entries whatever the day and whatever
    the database answers, and the last is named after the current month; up
    to the 28th of a month the six are named after the six consecutive
    months that end with the current one, oldest first. *)
Theorem get_billing_trends_months env req w auth :
  getAuthClient env req = Some auth →
  route req = GET_billing_trends →
  ∃ names revenues,
    length names = 6%nat ∧ length revenues = 6%nat ∧
    (app env req w).1 = json (JArr (zip_with trend_entry names revenues)) ∧
    names !! 5%nat = Some (shortMonth (getMonth (tz env) (now env))) ∧
    (getDate (tz env) (now env) <= 28 →
       names = (λ i, shortMonth ((getMonth (tz env) (now env) - i) mod 12))
               <$> [5; 4; 3; 2; 1; 0]).
Proof.
  intros Hauth Hroute. unfold app. rewrite Hroute.
  unfold get_billing_trends. rewrite Hauth. unfold bind.
  destruct (trends_run env [5; 4; 3; 2; 1; 0] w) as (rs & Hlen & Hrs).
  destruct (trends env _ w) as [ts w']. cbn [fst] in Hrs. subst ts.
  exists ((λ i, shortMonth (getMonth (tz env)
             (setMonth (tz env) (now env) (getMonth (tz env) (now env) - i))))
          <$> [5; 4; 3; 2; 1; 0]), rs.
  split_and!; [done | done | | |].
  - destruct rs as [|r5 [|r4 [|r3 [|r2 [|r1 [|r0 [|? ?]]]]]]]; done.
  - cbn [fmap list_fmap lookup list_lookup].
    by rewrite Z.sub_0_r, setMonth_getMonth.
  - intros Hday. apply list_fmap_ext. intros _ i _.
    by rewrite getMonth_setMonth.
Qed.

(** X19. On the 31st of March, May, July, October or December the entry for
    the month before is named after the current month, which so appears
    twice: [setMonth] keeps the day of the month, and the 31st of the
    shorter month before falls in the current one. *)
Theorem get_billing_trends_31st env req w auth :
  getAuthClient env req = Some auth →
  route req = GET_billing_trends →
  getDate (tz env) (now env) = 31 →
  getMonth (tz env) (now env) ∈ [2; 4; 6; 9; 11] →
  ∃ older before current, length older = 4%nat ∧
    (app env req w).1 =
    json (JArr (older ++
      [trend_entry (shortMonth (getMonth (tz env) (now env))) before;
       trend_entry (shortMonth (getMonth (tz env) (now env))) current])).
Proof.
  intros Hauth Hroute Hday Hmonth. unfold app. rewrite Hroute.
  unfold get_billing_trends. rewrite Hauth. unfold bind.
  destruct (trends_run env [5; 4; 3; 2; 1; 0] w) as (rs & Hlen & Hrs).
  destruct (trends env _ w) as [ts w']. cbn [fst] in Hrs. subst ts.
  destruct rs as [|r5 [|r4 [|r3 [|r2 [|r1 [|r0 [|? ?]]]]]]]; try done.
  cbn [zip_with fst ret].
  rewrite Z.sub_0_r, setMonth_getMonth, getMonth_setMonth_31st by done.
  by eexists [_; _; _; _], r1, r0.
Qed.

End Calendar.

Section ClientSide.

Import Api.

Implicit Types (env : Env) (req : Request) (w : World) (auth : User).

Lemma substring_all n s : (String.length s <= n)%nat → substring 0 n s = s.
Proof.
  revert n. induction s as [|c s IH]; intros [|n] Hn; simpl in *;
    try done; try lia.
  f_equal. apply IH. lia.
Qed.

Lemma prefix_nil s : String.prefix "" s = true.
Proof. by destruct s. Qed.

Lemma prefix_app p s : String.prefix p s = true → ∃ r, s = (p +:+ r)%string.
Proof.
  revert s. induction p as [|a p IH]; intros s; [by exists s|].
  destruct s as [|b s]; [done|].
  change (String.prefix (String a p) (String b s))
    with (if ascii_dec a b then String.prefix p s else false).
  destruct (ascii_dec a b) as [<-|]; [|done].
  intros [r ->]%IH. by exists r.
Qed.

(** The header of [authFetch] without its scheme is the token. *)
Lemma remove_first_Bearer token :
  remove_first "Bearer " ("Bearer " +:+ token) = token.
Proof.
  cbv [String.app]. simpl. rewrite prefix_nil. apply substring_all. lia.
Qed.

(** X20. When the [Authorization] header reaches the server as [authFetch]
    set it, the server reads from it the very token of the session,
    whatever its text, and asks the identity provider about it; without a
    session, or with an empty token, [authFetch] sets no header and nobody
    is authenticated. *)
Theorem authFetch_token_read env token req :
  authorization req = Client.authFetch token →
  getAuthClient env req
  = match token with
    | Some t => if truthy (Some t) then getUser env t else None
    | None => None
    end.
Proof.
  intros Hheader. unfold getAuthClient. rewrite Hheader.
  destruct token as [t|]; [|done]. unfold Client.authFetch.
  destruct (truthy (Some t)) eqn:Ht; [|done].
  by rewrite remove_first_Bearer, Ht.
Qed.

Lemma prefix_Bearer_spaceless s :
  Client.spaceless s = true → String.prefix "Bearer " s = false.
Proof.
  intros Hs. destruct (String.prefix "Bearer " s) eqn:Hp; [|done].
  apply prefix_app in Hp as [r ->]. done.
Qed.

Lemma remove_first_spaceless s :
  Client.spaceless s = true → remove_first "Bearer " s = s.
Proof.
  induction s as [|c s IH]; [done|]. intros H.
  unfold remove_first; fold remove_first.
  rewrite (prefix_Bearer_spaceless _ H).
  simpl in H. apply andb_prop in H as [_ H]. by rewrite IH.
Qed.

(** X21. The scheme of the header is not required: a token without a
    space authenticates the same user as the header alone and after
    [Bearer ]. *)
Theorem getAuthClient_scheme_optional env token route :
  Client.spaceless token = true →
  getAuthClient env {| authorization := Some token; route := route |}
  = getAuthClient env
      {| authorization := Some ("Bearer " +:+ token)%string; route := route |}.
Proof.
  intros Hs. unfold getAuthClient. cbn [authorization].
  by rewrite remove_first_Bearer, remove_first_spaceless.
Qed.

Lemma all_digits_digits s : Client.all_digits (Client.digits s) = true.
Proof.
  induction s as [|c s IH]; [done|]. simpl.
  destruct (Client.is_digit c) eqn:Hc; [|done]. simpl. by rewrite Hc.
Qed.

Lemma digits_all_digits s : Client.all_digits s = true → Client.digits s = s.
Proof.
  induction s as [|c s IH]; [done|]. simpl.
  intros [Hc Hs]%andb_prop. rewrite Hc. by rewrite IH.
Qed.

Lemma digits_digit c s :
  Client.is_digit c = true →
  Client.digits (String c s) = String c (Client.digits s).
Proof. simpl. by intros ->. Qed.

Lemma digits_other c s :
  Client.is_digit c = false → Client.digits (String c s) = Client.digits s.
Proof. simpl. by intros ->. Qed.

Ltac digit_facts :=
  repeat match goal with
  | H : Client.all_digits (String _ _) = true |- _ =>
      cbn [Client.all_digits] in H
  | H : _ && _ = true |- _ => apply andb_prop in H as [? H]
  end.

Ltac mask_digits_step :=
  first [ rewrite digits_digit by assumption
        | rewrite digits_other by reflexivity ].

(** The digits of a masked text of digits are its first eleven. *)
Lemma mask_digits d :
  Client.all_digits d = true →
  Client.digits (Client.mask d) = Client.slice 0 11 d.
Proof.
  intros Hd.
  destruct d
    as [|c1 [|c2 [|c3 [|c4 [|c5 [|c6 [|c7 [|c8 [|c9 [|c10 [|c11 rest]]]]]]]]]]];
    digit_facts; unfold Client.mask, Client.slice, Client.slice_from;
    cbn [String.length Nat.leb Nat.ltb Nat.sub substring];
    cbv [String.app]; cbn [substring];
    rewrite ?Nat.sub_0_r, ?substring_all by lia;
    repeat mask_digits_step.
  all: try done.
  all: by destruct rest.
Qed.

(** The mask looks at the first eleven digits only. *)
Lemma mask_slice d : Client.mask (Client.slice 0 11 d) = Client.mask d.
Proof.
  destruct d
    as [|c1 [|c2 [|c3 [|c4 [|c5 [|c6 [|c7 [|c8 [|c9 [|c10 [|c11 rest]]]]]]]]]]];
    try done.
  unfold Client.mask, Client.slice, Client.slice_from.
  cbn [String.length Nat.leb Nat.ltb Nat.sub substring].
  replace (String.length (substring 0 0 rest)) with 0%nat by (by destruct rest).
  cbn [String.length Nat.leb Nat.ltb Nat.sub substring]. by destruct rest.
Qed.

Lemma mask_length d : (String.length (Client.mask d) <= 15)%nat.
Proof.
  destruct d
    as [|c1 [|c2 [|c3 [|c4 [|c5 [|c6 [|c7 [|c8 [|c9 [|c10 [|c11 rest]]]]]]]]]]];
    unfold Client.mask, Client.slice, Client.slice_from;
    cbn [String.length Nat.leb Nat.ltb Nat.sub substring];
    cbv [String.app]; cbn [substring String.length]; try lia.
  replace (String.length (substring 0 0 rest)) with 0%nat by (by destruct rest).
  lia.
Qed.

Lemma maskPhone_mask v : Client.maskPhone v = Client.mask (Client.digits v).
Proof. by destruct v. Qed.

Lemma digits_maskPhone v :
  Client.digits (Client.maskPhone v) = Client.slice 0 11 (Client.digits v).
Proof. rewrite maskPhone_mask. apply mask_digits, all_digits_digits. Qed.

(** X22. The mask of a phone keeps the digits typed, in their order, up to
    the eleventh, and adds no digit: whatever else the value holds is
    dropped, and so is every digit after the eleventh. *)
Theorem maskPhone_digits v :
  Client.digits (Client.maskPhone v) = Client.slice 0 11 (Client.digits v).
Proof. apply digits_maskPhone. Qed.

(** X23. Masking a masked phone changes nothing, and a masked phone has at
    most 15 characters, the [maxLength] of the field. *)
Theorem maskPhone_again v :
  Client.maskPhone (Client.maskPhone v) = Client.maskPhone v ∧
  (String.length (Client.maskPhone v) <= 15)%nat.
Proof.
  split.
  - rewrite (maskPhone_mask (Client.maskPhone v)), digits_maskPhone.
    by rewrite mask_slice, maskPhone_mask.
  - rewrite maskPhone_mask. apply mask_length.
Qed.

Lemma whatsappPhone_cases p :
  Client.digits p = ""%string ∧ Client.whatsappPhone p = ""%string
  ∨ Client.digits p ≠ ""%string ∧ String.prefix "55" (Client.digits p) = true
    ∧ Client.whatsappPhone p = Client.digits p
  ∨ Client.digits p ≠ ""%string ∧ String.prefix "55" (Client.digits p) = false
    ∧ Client.whatsappPhone p = ("55" +:+ Client.digits p)%string.
Proof.
  unfold Client.whatsappPhone.
  destruct (Client.digits p) as [|c d] eqn:Hd; [by left|]. right.
  destruct (String.prefix "55" (String c d)); [left | right]; by split_and!.
Qed.

Lemma whatsappPhone_all_digits p :
  Client.all_digits (Client.whatsappPhone p) = true.
Proof.
  pose proof (all_digits_digits p) as Hd.
  by destruct (whatsappPhone_cases p) as [[_ ->] | [(_ & _ & ->) | (_ & _ & ->)]].
Qed.

(** X24. The phone of a WhatsApp link holds digits only; it is empty
    exactly when the customer's phone has no digit, and otherwise starts
    with 55; building it from itself changes nothing; and from a masked
    phone it is what the first eleven digits typed give. *)
Theorem whatsappPhone_link p :
  Client.all_digits (Client.whatsappPhone p) = true ∧
  (Client.whatsappPhone p = ""%string ↔ Client.digits p = ""%string) ∧
  (Client.whatsappPhone p = ""%string
   ∨ String.prefix "55" (Client.whatsappPhone p) = true) ∧
  Client.whatsappPhone (Client.whatsappPhone p) = Client.whatsappPhone p ∧
  Client.whatsappPhone (Client.maskPhone p)
  = Client.whatsappPhone (Client.slice 0 11 (Client.digits p)).
Proof.
  split; [apply whatsappPhone_all_digits|].
  assert (Hmask : Client.whatsappPhone (Client.maskPhone p)
                  = Client.whatsappPhone (Client.slice 0 11 (Client.digits p))).
  { unfold Client.whatsappPhone. rewrite <- digits_maskPhone.
    by rewrite (digits_all_digits (Client.digits _))
      by apply all_digits_digits. }
  pose proof (whatsappPhone_all_digits p) as Hall.
  apply digits_all_digits in Hall.
  destruct (whatsappPhone_cases p)
    as [[Hd Hp] | [(Hd & H55 & Hp) | (Hd & H55 & Hp)]].
  - split_and!; [by rewrite Hp, Hd | by left | by rewrite Hp | done].
  - split_and!; [by rewrite Hp | right; by rewrite Hp | | done].
    destruct (whatsappPhone_cases (Client.whatsappPhone p))
      as [[Hd' Hp'] | [(Hd' & H55' & Hp') | (Hd' & H55' & Hp')]];
      rewrite Hall in *; congruence.
  - assert (H55' : String.prefix "55" (Client.whatsappPhone p) = true).
    { rewrite Hp. cbv [String.app]. simpl. apply prefix_nil. }
    split_and!; [by rewrite Hp | by right | | done].
    destruct (whatsappPhone_cases (Client.whatsappPhone p))
      as [[Hd' Hp'] | [(Hd' & H55'' & Hp') | (Hd' & H55'' & Hp')]];
      rewrite Hall in *; congruence.
Qed.

Lemma insert_images_all rows (table : gmap Z Image.t) :
  size (fold_left (λ table img, <[next_id table := img]> table) rows table)
    = (size table + length rows)%nat ∧
  ∀ row, row ∈ rows →
    ∃ k, fold_left (λ table img, <[next_id table := img]> table) rows table !! k
         = Some row.
Proof.
  revert table. induction rows as [|row rows IH]; intros table.
  { simpl. split; [lia|]. by intros row Hin%not_elem_of_nil. }
  simpl. destruct (IH (<[next_id table := row]> table)) as [Hsize Hrows].
  split.
  - rewrite Hsize, map_size_insert_None by apply next_id_fresh. lia.
  - intros r [-> | Hin]%elem_of_cons; [|by apply Hrows].
    exists (next_id table). apply insert_images_keeps.
    by rewrite lookup_insert_eq.
Qed.

Lemma insert_order_images_all orderId images w :
  reliable w →
  size (order_images (insert_order_images orderId images w).2)
    = (size (order_images w) + length (default [] images))%nat ∧
  ∀ img, img ∈ default [] images →
    ∃ k, order_images (insert_order_images orderId images w).2 !! k
         = Some {| Image.order_id := orderId; Image.image_data := img |}.
Proof.
  intros Hw. unfold insert_order_images, bind.
  destruct images as [[|img0 imgs]|]; cbn [default].
  1,3: simpl; split; [lia|]; by intros img Hin%not_elem_of_nil.
  rewrite call_run by by apply reliable_next_fault.
  cbn [fst snd ret]. unfold insert_images.
  cbn [fst snd advance order_images t_order_images].
  set (rows := _ <$> (img0 :: imgs)).
  destruct (insert_images_all rows (order_images w)) as [Hsize Hrows].
  split.
  - change (t_order_images (tables w)) with (order_images w).
    rewrite Hsize. unfold rows. by rewrite length_fmap.
  - intros img Hin. apply Hrows. unfold rows.
    apply list_elem_of_fmap. by exists img.
Qed.

(** With a database that answers, every order of the loop gets a row per
    image it carries. *)
Lemma insert_orders_images auth batch items acc w :
  reliable w →
  size (order_images (insert_orders auth batch items acc w).2)
    = (size (order_images w)
       + sum_list ((λ data, length (default [] (OrderBody.images data)))
                   <$> items))%nat ∧
  ∀ ids, (insert_orders auth batch items acc w).1 = Some ids →
    ∃ new, ids = acc ++ new ∧
      ∀ i data id img,
        items !! i = Some data → new !! i = Some id →
        img ∈ default [] (OrderBody.images data) →
        ∃ k, order_images (insert_orders auth batch items acc w).2 !! k
             = Some {| Image.order_id := id; Image.image_data := img |}.
Proof.
  revert acc w. induction items as [|data rest IH]; intros acc w Hw.
  { simpl. split; [lia|]. intros ids [= <-]. exists [].
    split; [by rewrite app_nil_r | done]. }
  rewrite insert_orders_cons, call_run by by apply reliable_next_fault.
  cbn [insert_order fst snd].
  set (id := next_id (t_orders (tables w))).
  set (w1 := advance w _).
  assert (Hw1 : reliable w1) by by apply reliable_advance.
  destruct (insert_order_images_all id (OrderBody.images data) w1 Hw1)
    as [Hsize1 Himgs1].
  set (w2 := (insert_order_images id (OrderBody.images data) w1).2) in *.
  assert (Hw2 : reliable w2) by by apply insert_order_images_reliable.
  destruct (IH (acc ++ [id]) w2 Hw2) as [Hsize Hnew].
  destruct (insert_orders_keeps auth batch rest (acc ++ [id]) w2) as [_ Hkeep].
  split.
  - rewrite Hsize, Hsize1. cbn [fmap list_fmap sum_list sum_list_with].
    change (order_images w1) with (order_images w).
    unfold Datatypes.id. lia.
  - intros ids Hids. destruct (Hnew ids Hids) as (new & -> & Hrows).
    exists (id :: new). split; [by rewrite <- app_assoc|].
    intros [|i] data' id' img Hdata Hid Himg.
    + injection Hdata as <-. injection Hid as <-.
      destruct (Himgs1 img Himg) as [k Hk]. exists k. by apply Hkeep.
    + by apply (Hrows i data').
Qed.

(** X25. What a creation request stores, the database answering: the ids
    of the reply are new rows, one per order of the body and in its order
    (the i-th row is for the customer and the service of the i-th order);
    every image an order carries is stored as an image of that order, and
    the image rows grow by the number of images in the body. *)
Theorem post_orders_images env req w auth body :
  getAuthClient env req = Some auth →
  route req = POST_orders body →
  reliable w →
  ∃ ids,
    (app env req w).1 = json (JObj [("ids"%string, JArr (JInt <$> ids))]) ∧
    length ids = length (ordersData body) ∧
    (∀ i data id,
       ordersData body !! i = Some data → ids !! i = Some id →
       ∃ o, created w (app env req w).2 id o ∧
         Order.customer_id o = OrderBody.customer_id data ∧
         Order.service_type o = OrderBody.service_type data ∧
         Order.description o = OrderBody.description data ∧
         ∀ img, img ∈ default [] (OrderBody.images data) →
           img ∈ images_of (tables (app env req w).2) id) ∧
    size (order_images (app env req w).2)
      = (size (order_images w)
         + sum_list ((λ data, length (default [] (OrderBody.images data)))
                     <$> ordersData body))%nat.
Proof.
  intros Hauth Hroute Hw. unfold app. rewrite Hroute.
  rewrite (post_orders_run _ _ _ _ _ Hauth). cbn [fst snd].
  set (batch := batchId env body). set (items := ordersData body).
  destruct (insert_orders_spec auth batch items [] w) as (_ & _ & Hids).
  destruct (insert_orders_reliable auth batch items [] w Hw) as [ids Hrun].
  destruct (insert_orders_images auth batch items [] w Hw) as [Hsize Himgs].
  destruct (Hids ids Hrun) as (new & Hnew & Hlen & Hrows).
  destruct (Himgs ids Hrun) as (new' & Hnew' & Hrows').
  simpl in Hnew, Hnew'. subst ids. subst new'.
  exists new. rewrite Hrun. split_and!; [done | done | | done].
  intros i data id Hdata Hid.
  eexists. split; [by apply (Hrows i data id)|].
  split_and!; try reflexivity.
  intros img Himg.
  destruct (Hrows' i data id img Hdata Hid Himg) as [k Hk].
  unfold images_of. apply list_elem_of_fmap.
  exists (k, {| Image.order_id := id; Image.image_data := img |}).
  split; [done|]. apply elem_of_select. split; [done|].
  by apply bool_decide_eq_true_2.
Qed.

End ClientSide.

Section MoreInstances.

Import Api.

(** X1 on the sample database: the statistics change no row. *)
Lemma get_routes_change_nothing_witness :
  same_rows Sample.world (app March.utc (Sample.request GET_stats) Sample.world).2.
Proof. apply get_routes_change_nothing. reflexivity. Defined.

(** X2 on the sample database: the billing trends make six calls. *)
Lemma calls_of_a_request_witness :
  calls (app March.utc (Sample.request GET_billing_trends) Sample.world).2
  = (calls Sample.world + 6)%nat.
Proof.
  apply (calls_of_a_request _ _ _ Sample.auth); reflexivity.
Defined.

(** X3 on the sample database: order 3 delivered. *)
Lemma patch_changes_status_only_witness :
  customers (app March.utc (Sample.request (PATCH_order_status 3 "Entregue"))
               Sample.world).2 = customers Sample.world ∧
  order_images (app March.utc (Sample.request (PATCH_order_status 3 "Entregue"))
                  Sample.world).2 = order_images Sample.world.
Proof.
  destruct (patch_changes_status_only March.utc
              (Sample.request (PATCH_order_status 3 "Entregue"))
              Sample.world 3 "Entregue") as (Hc & Hi & _).
  - reflexivity.
  - split; [exact Hc | exact Hi].
Defined.

(** X4 on the sample database whose third call fails: order 3 is still
    there after a creation request of two orders. *)
Lemma post_orders_keeps_rows_witness :
  orders (app March.utc
            (Sample.request (POST_orders (Many [Sample.banner; Sample.sticker])))
            Sample.failing).2 !! 3 = Some (Sample.order None).
Proof.
  destruct (post_orders_keeps_rows March.utc
              (Sample.request (POST_orders (Many [Sample.banner; Sample.sticker])))
              Sample.failing (Many [Sample.banner; Sample.sticker]))
    as (_ & Ho & _).
  - reflexivity.
  - apply Ho. reflexivity.
Defined.

(** X5 on the sample database: Bia is registered with id 2. *)
Lemma post_customers_new_witness :
  ∃ id,
    (app March.utc (Sample.request (POST_customers Sample.bia)) Sample.world).1
      = json (JObj [("id", JInt id)]) ∧
    customers Sample.world !! id = None.
Proof.
  pose proof (post_customers_new March.utc
                (Sample.request (POST_customers Sample.bia))
                Sample.world Sample.auth Sample.bia
                eq_refl eq_refl eq_refl) as Hnew.
  destruct Hnew as (id & Hid & Hfresh & _).
  - intros i c Hic [Hname _].
    change (customers Sample.world)
      with ({[ 1 := Sample.ana ]} : gmap Z Customer.t) in Hic.
    apply lookup_singleton_Some in Hic as [_ <-]. discriminate Hname.
  - exists id. split; [exact Hid | exact Hfresh].
Defined.

(** X6 on the sample database when the existence check fails: Ana is
    stored a second time. *)
Lemma post_customers_unchecked_witness :
  (app March.utc (Sample.request (POST_customers Sample.ana_again))
     Sample.unanswered).1
  = json (JObj [("id", JInt (next_id (customers Sample.unanswered)))]).
Proof.
  apply (post_customers_unchecked March.utc
           (Sample.request (POST_customers Sample.ana_again))
           Sample.unanswered Sample.auth Sample.ana_again "timeout");
    reflexivity.
Defined.

(** X7 on the sample database: customer 1 deleted. *)
Lemma delete_customer_row_witness :
  (app March.utc (Sample.request (DELETE_customer 1)) Sample.world).1 = success ∧
  customers (app March.utc (Sample.request (DELETE_customer 1)) Sample.world).2
  = delete 1 (customers Sample.world).
Proof.
  apply (delete_customer_row March.utc (Sample.request (DELETE_customer 1))
           Sample.world Sample.auth 1); reflexivity.
Defined.

(** X8 on the sample database. *)
Lemma post_orders_empty_witness :
  app March.utc (Sample.request (POST_orders (Many []))) Sample.world
  = (json (JObj [("ids", JArr [])]), Sample.world).
Proof.
  apply (post_orders_empty _ _ _ Sample.auth); reflexivity.
Defined.

(** X9 on the sample database when the insert of the image fails: the
    banner is stored without its image. *)
Lemma post_orders_image_failure_witness :
  (app March.utc (Sample.request (POST_orders (One Sample.banner)))
     Sample.second_failing).1
  = json (JObj [("ids", JArr [JInt (next_id (orders Sample.second_failing))])]) ∧
  order_images (app March.utc (Sample.request (POST_orders (One Sample.banner)))
                  Sample.second_failing).2
  = order_images Sample.second_failing.
Proof.
  destruct (post_orders_image_failure March.utc
              (Sample.request (POST_orders (One Sample.banner)))
              Sample.second_failing Sample.auth Sample.banner
              "data:image/png;base64,AAAA" [] "payload too large" [])
    as (Hreply & _ & Himages).
  - reflexivity.
  - reflexivity.
  - reflexivity.
  - reflexivity.
  - split; [exact Hreply | exact Himages].
Defined.

(** X10 on the sample database when the lookup fails: order 2, of the
    batch of order 1, keeps its status. *)
Lemma patch_order_status_unlooked_witness :
  (app March.utc (Sample.request (PATCH_order_status 1 "Entregue"))
     Sample.unanswered).1 = success ∧
  orders (app March.utc (Sample.request (PATCH_order_status 1 "Entregue"))
            Sample.unanswered).2 !! 2
  = orders Sample.unanswered !! 2.
Proof.
  destruct (patch_order_status_unlooked March.utc
              (Sample.request (PATCH_order_status 1 "Entregue"))
              Sample.unanswered Sample.auth 1 "Entregue" "timeout")
    as (Hreply & _ & Hothers).
  - reflexivity.
  - reflexivity.
  - reflexivity.
  - reflexivity.
  - split; [exact Hreply|]. apply Hothers. discriminate.
Defined.

(** X11 on the sample database: after order 1 is deleted, order 2 of the
    same batch is not found. *)
Lemma delete_order_then_get_witness :
  status_code
    (app March.utc (Sample.request (GET_order 2))
       (app March.utc (Sample.request (DELETE_order 1)) Sample.world).2).1 = 404.
Proof.
  apply (delete_order_then_get March.utc (Sample.request (DELETE_order 1))
           (Sample.request (GET_order 2)) Sample.world Sample.auth Sample.auth
           1 (Sample.order (Some "batch_1709900000000_k2j5x9q0a"))
           2 (Sample.order (Some "batch_1709900000000_k2j5x9q0a")));
    try reflexivity.
  - constructor.
  - right. split; [discriminate | reflexivity].
Defined.

(** X12 on the sample database: order 3, which has no batch. *)
Lemma get_order_existing_witness :
  status_code (app March.utc (Sample.request (GET_order 3)) Sample.world).1 = 200 ∧
  field "id" (body (app March.utc (Sample.request (GET_order 3)) Sample.world).1)
  = Some (JInt 3).
Proof.
  destruct (get_order_existing March.utc (Sample.request (GET_order 3))
              Sample.world Sample.auth 3 (Sample.order None))
    as (Hstatus & Hid & _).
  - reflexivity.
  - reflexivity.
  - constructor.
  - reflexivity.
  - split; [exact Hstatus | exact Hid].
Defined.

(** X13 on the sample database: order 3 delivered, then read. *)
Lemma patch_then_get_witness :
  status_code
    (app March.utc (Sample.request (GET_order 3))
       (app March.utc (Sample.request (PATCH_order_status 3 "Entregue"))
          Sample.world).2).1 = 200 ∧
  field "status"
    (body (app March.utc (Sample.request (GET_order 3))
             (app March.utc (Sample.request (PATCH_order_status 3 "Entregue"))
                Sample.world).2).1) = Some (JStr "Entregue").
Proof.
  apply (patch_then_get March.utc
           (Sample.request (PATCH_order_status 3 "Entregue"))
           (Sample.request (GET_order 3)) Sample.world Sample.auth Sample.auth
           3 "Entregue" (Sample.order None)); try reflexivity.
  constructor.
Defined.

(** X14 on the sample database: three orders, one customer. *)
Lemma get_stats_counts_witness :
  field "totalOrders"
    (body (app March.utc (Sample.request GET_stats) Sample.world).1)
  = Some (JInt (Z.of_nat (size (orders Sample.world)))) ∧
  field "totalCustomers"
    (body (app March.utc (Sample.request GET_stats) Sample.world).1)
  = Some (JInt (Z.of_nat (size (customers Sample.world)))).
Proof.
  destruct (get_stats_counts March.utc (Sample.request GET_stats)
              Sample.world Sample.auth) as (Horders & Hcustomers & _).
  - reflexivity.
  - reflexivity.
  - constructor.
  - split; [exact Horders | exact Hcustomers].
Defined.

(** X15 on the sample database. *)
Lemma get_billing_distribution_buckets_witness :
  ∃ completed pending : nat,
    (app March.utc (Sample.request GET_billing_distribution) Sample.world).1 =
    json (JArr [
      JObj [("name", JStr "Finalizados"); ("value", JInt (Z.of_nat completed));
            ("color", JStr "#3b82f6")];
      JObj [("name", JStr "Em Aberto"); ("value", JInt (Z.of_nat pending));
            ("color", JStr "#10b981")]]) ∧
    (completed + pending ≤ size (orders Sample.world))%nat.
Proof.
  destruct (get_billing_distribution_buckets March.utc
              (Sample.request GET_billing_distribution)
              Sample.world Sample.auth)
    as (completed & pending & Hreply & _ & _ & _ & Hle).
  - reflexivity.
  - reflexivity.
  - constructor.
  - exists completed, pending. split; [exact Hreply | exact Hle].
Defined.

(** X16 on the sample database. *)
Lemma get_customers_listing_witness :
  ∃ rows,
    (app March.utc (Sample.request GET_customers) Sample.world).1
      = json (JArr (customer_json <$> rows)) ∧
    rows ≡ₚ map_to_list (customers Sample.world).
Proof.
  destruct (get_customers_listing March.utc (Sample.request GET_customers)
              Sample.world Sample.auth) as (rows & Hreply & Hperm & _).
  - reflexivity.
  - reflexivity.
  - reflexivity.
  - apply String.leb_total.
  - exists rows. split; [exact Hreply | exact Hperm].
Defined.

(** X17 on the sample database. *)
Lemma get_orders_listing_witness :
  ∃ rows,
    (app March.utc (Sample.request GET_orders) Sample.world).1
      = json (JArr (listed_order (tables Sample.world) <$> rows)) ∧
    rows ≡ₚ map_to_list (orders Sample.world).
Proof.
  destruct (get_orders_listing March.utc (Sample.request GET_orders)
              Sample.world Sample.auth) as (rows & Hreply & Hperm & _).
  - reflexivity.
  - reflexivity.
  - reflexivity.
  - exists rows. split; [exact Hreply | exact Hperm].
Defined.

(** X18 on 15 March 2024: October to March. *)
Lemma get_billing_trends_months_witness :
  ∃ names revenues,
    length names = 6%nat ∧ length revenues = 6%nat ∧
    (app March.utc (Sample.request GET_billing_trends) Sample.world).1
      = json (JArr (zip_with trend_entry names revenues)) ∧
    names = ["out."; "nov."; "dez."; "jan."; "fev."; "mar."]%string.
Proof.
  destruct (get_billing_trends_months March.utc
              (Sample.request GET_billing_trends) Sample.world Sample.auth)
    as (names & revenues & Hnames & Hrevenues & Hreply & _ & Hmonths).
  - reflexivity.
  - reflexivity.
  - exists names, revenues. split_and!; [done..|].
    rewrite Hmonths; [reflexivity | by vm_compute].
Defined.

(** X19 on 31 March 2024: the last two entries are both named after
    March. *)
Lemma get_billing_trends_31st_witness :
  ∃ older before current, length older = 4%nat ∧
    (app March.last_day (Sample.request GET_billing_trends) Sample.world).1 =
    json (JArr (older ++
      [trend_entry (shortMonth (getMonth (tz March.last_day) (now March.last_day)))
         before;
       trend_entry (shortMonth (getMonth (tz March.last_day) (now March.last_day)))
         current])).
Proof.
  apply (get_billing_trends_31st March.last_day
           (Sample.request GET_billing_trends) Sample.world Sample.auth).
  - reflexivity.
  - reflexivity.
  - by vm_compute.
  - vm_compute. left.
Defined.

(** X20 for the sample requests, which carry the header of the session
    token [token-1]. *)
Lemma authFetch_token_read_witness :
  getAuthClient March.utc (Sample.request GET_stats) = Some Sample.auth.
Proof.
  exact (authFetch_token_read March.utc (Some "token-1"%string)
           (Sample.request GET_stats) eq_refl).
Defined.

(** X21 for the token of the sample requests. *)
Lemma getAuthClient_scheme_optional_witness :
  getAuthClient March.utc {| authorization := Some "token-1"; route := GET_stats |}
  = getAuthClient March.utc
      {| authorization := Some ("Bearer " +:+ "token-1")%string;
         route := GET_stats |}.
Proof. apply getAuthClient_scheme_optional. reflexivity. Defined.

(** X25 on the sample database: a banner with one image and a sticker
    with none. *)
Lemma post_orders_images_witness :
  ∃ ids,
    (app March.utc
       (Sample.request (POST_orders (Many [Sample.banner; Sample.sticker])))
       Sample.world).1
      = json (JObj [("ids"%string, JArr (JInt <$> ids))]) ∧
    size (order_images
            (app March.utc
               (Sample.request (POST_orders (Many [Sample.banner; Sample.sticker])))
               Sample.world).2)
      = (size (order_images Sample.world) + 1)%nat.
Proof.
  destruct (post_orders_images March.utc
              (Sample.request (POST_orders (Many [Sample.banner; Sample.sticker])))
              Sample.world Sample.auth (Many [Sample.banner; Sample.sticker]))
    as (ids & Hreply & _ & _ & Hsize).
  - reflexivity.
  - reflexivity.
  - constructor.
  - exists ids. split; [exact Hreply | exact Hsize].
Defined.

(** X26 on the sample database: Bia submitted twice. *)
Lemma post_customers_twice_witness :
  post_customers Sample.bia March.utc (Sample.request (POST_customers Sample.bia))
    (post_customers Sample.bia March.utc
       (Sample.request (POST_customers Sample.bia)) Sample.world).2 =
  (status_json 400
     (error_body "Cliente já cadastrado com este nome e telefone."),
   advance
     (post_customers Sample.bia March.utc
        (Sample.request (POST_customers Sample.bia)) Sample.world).2
     (tables (post_customers Sample.bia March.utc
                (Sample.request (POST_customers Sample.bia)) Sample.world).2)).
Proof.
  apply (post_customers_twice March.utc
           (Sample.request (POST_customers Sample.bia)) Sample.world
           Sample.auth Sample.bia).
  - reflexivity.
  - constructor.
  - apply unique_name_phone_singleton.
Defined.

End MoreInstances.
